(** * DICOM2BMP: the conversion pipeline of [utils.py]

  The development embeds the functions of [utils.py] as Rocq functions:
  - Python values that the code returns ([True], [False], a [str]) are the
    type [pyval]; a raised exception is the [Raise] case of [res];
  - a numpy array is a shape with its elements in row-major order;
  - a float is an IEEE-754 binary64 number, computed with the operations of
    [SpecFloat] at precision 53;
  - what the code takes from pydicom, OpenCV and the operating system is
    an interface ([Pydicom], [Platform], [World]); every theorem holds for
    every instance of it. *)

From Stdlib Require Import ZArith List String Ascii Bool Lia Arith.
From Stdlib Require Import Floats.SpecFloat DecimalString.
From Stdlib Require Import Reals Lra.
From Stdlib Require Import Sorting.Sorted Sorting.Permutation.
Import ListNotations.

Set Implicit Arguments.

(* ------------------------------------------------------------------ *)
(** ** Python values, exceptions and results *)

Module Py.

(** An instance of [Exception]: its class name and [str(e)]. *)
Record exc : Type := Exc { exc_type : string; exc_str : string }.

Inductive res (A : Type) : Type :=
| Ok (a : A)
| Raise (e : exc).
Arguments Ok {A} a.
Arguments Raise {A} e.

Definition bind {A B : Type} (c : res A) (k : A -> res B) : res B :=
  match c with
  | Ok a => k a
  | Raise e => Raise e
  end.

Definition is_ok {A : Type} (c : res A) : bool :=
  match c with Ok _ => true | Raise _ => false end.

(** The values [_is_unsupported] and [_ds_to_file] return: a [bool] or a
    [str]. *)
Inductive pyval : Type :=
| PyBool (b : bool)
| PyStr (s : string).

(** [if v:] *)
Definition truthy (v : pyval) : bool :=
  match v with
  | PyBool b => b
  | PyStr s => negb (String.eqb s "")
  end.

(** [v is True] *)
Definition is_True (v : pyval) : bool :=
  match v with
  | PyBool true => true
  | _ => false
  end.

(** [str(v)], as an f-string renders it. *)
Definition str_of (v : pyval) : string :=
  match v with
  | PyBool true => "True"
  | PyBool false => "False"
  | PyStr s => s
  end.

End Py.
Import Py.

Notation "x <- c ;; k" := (Py.bind c (fun x => k))
(at level 61, c at next level, right associativity).

(* ------------------------------------------------------------------ *)
(** ** Strings *)

Module Str.

Definition nl : string := String (ascii_of_nat 10) EmptyString.

Definition lower_ascii (c : ascii) : ascii :=
  let n := nat_of_ascii c in
  if (65 <=? n)%nat && (n <=? 90)%nat then ascii_of_nat (n + 32) else c.

(** [s.lower()] on ASCII text. *)
Fixpoint lower (s : string) : string :=
  match s with
  | EmptyString => EmptyString
  | String c t => String (lower_ascii c) (lower t)
  end.

(** [s.startswith(pre)] *)
Fixpoint startswith (s pre : string) {struct pre} : bool :=
  match pre with
  | EmptyString => true
  | String a pre' =>
      match s with
      | EmptyString => false
      | String b s' => Ascii.eqb a b && startswith s' pre'
      end
  end.

(** [sub in s] *)
Fixpoint contains (sub s : string) : bool :=
  startswith s sub ||
  match s with
  | EmptyString => false
  | String _ t => contains sub t
  end.

(** [s.endswith(suf)] *)
Definition endswith (s suf : string) : bool :=
  let n := String.length s in
  let k := String.length suf in
  (k <=? n)%nat && String.eqb (String.substring (n - k) k s) suf.

(** [s.rfind('.')]: the index of the last dot, if any. *)
Fixpoint rfind_dot (s : string) : option nat :=
  match s with
  | EmptyString => None
  | String c t =>
      match rfind_dot t with
      | Some i => Some (S i)
      | None => if Ascii.eqb c "."%char then Some 0%nat else None
      end
  end.

Fixpoint join (sep : string) (l : list string) : string :=
  match l with
  | [] => EmptyString
  | [x] => x
  | x :: t => x ++ sep ++ join sep t
  end.

(** [str(n)] for an [int]. *)
Definition of_Z (z : Z) : string := NilZero.string_of_int (Z.to_int z).
Definition of_nat (n : nat) : string := NilZero.string_of_uint (Nat.to_uint n).

End Str.

(* ------------------------------------------------------------------ *)
(** ** Paths ([pathlib.Path])

  A path is the list of its parts; the root of an absolute path is the
  part ["/"]. *)

Module Path.

Definition t : Type := list string.

(** [str(p)] *)
Definition str (p : t) : string :=
  match p with
  | [] => "."
  | "/"%string :: rest => "/" ++ Str.join "/" rest
  | _ => Str.join "/" p
  end.

(** [p.name] *)
Definition name (p : t) : string :=
  match p with
  | ["/"%string] => EmptyString
  | _ => last p EmptyString
  end.

(** [p.parent] *)
Definition parent (p : t) : t :=
  match p with
  | ["/"%string] => p
  | _ => removelast p
  end.

(** [p / Path(f)] for a relative [f]. *)
Definition div (p f : t) : t := p ++ f.

(** [p.suffix] *)
Definition suffix (p : t) : string :=
  let n := name p in
  match Str.rfind_dot n with
  | Some i =>
      if (0 <? i)%nat && (i <? String.length n - 1)%nat
      then String.substring i (String.length n - i) n
      else EmptyString
  | None => EmptyString
  end.

(** [p <= q]: the parts are compared as a tuple of strings. *)
Fixpoint leb (p q : t) : bool :=
  match p, q with
  | [], _ => true
  | _ :: _, [] => false
  | a :: p', b :: q' =>
      match String.compare a b with
      | Lt => true
      | Gt => false
      | Eq => leb p' q'
      end
  end.

Fixpoint insert (x : t) (l : list t) : list t :=
  match l with
  | [] => [x]
  | y :: l' => if leb x y then x :: l else y :: insert x l'
  end.

(** [l.sort()] *)
Definition sort (l : list t) : list t := fold_right insert [] l.

End Path.

(* ------------------------------------------------------------------ *)
(** ** IEEE-754 binary64 numbers (Python [float], numpy [float64]) *)

Module F64.

Definition prec : Z := 53.
Definition emax : Z := 1024.

Definition float64 : Type := spec_float.

Definition add : float64 -> float64 -> float64 := SFadd prec emax.
Definition sub : float64 -> float64 -> float64 := SFsub prec emax.
Definition mul : float64 -> float64 -> float64 := SFmul prec emax.
Definition div : float64 -> float64 -> float64 := SFdiv prec emax.

(** [a <= b], [a < b] and [a == b]; all three are false on NaN. *)
Definition leb : float64 -> float64 -> bool := SFleb.
Definition ltb : float64 -> float64 -> bool := SFltb.
Definition eqb : float64 -> float64 -> bool := SFeqb.

Definition is_nan (x : float64) : bool :=
  match x with S754_nan => true | _ => false end.

(** [float(z)] for an integer [z]. *)
Definition of_Z (z : Z) : float64 := binary_normalize prec emax z 0 false.

Definition zero : float64 := S754_zero false.
Definition two : float64 := Eval cbv in of_Z 2.
Definition f255 : float64 := Eval cbv in of_Z 255.

(** The value of a finite float with its fraction dropped (rounding
    toward zero); no integer for NaN and the infinities. *)
Definition trunc (x : float64) : option Z :=
  match x with
  | S754_zero _ => Some 0%Z
  | S754_finite s m e => Some (cond_Zopp s (Z.shiftl (Zpos m) e))
  | S754_infinity _ | S754_nan => None
  end.

(** numpy's [minimum] and [maximum] loops: a NaN on either side wins. *)
Definition minimum (a b : float64) : float64 :=
  if leb a b || is_nan a then a else b.
Definition maximum (a b : float64) : float64 :=
  if leb b a || is_nan a then a else b.

End F64.
Import F64.

(** The C conversion [double -> unsigned char] behind [astype('uint8')] is
    defined when the truncated value is in 0..255; outside of that (NaN,
    infinities, other values) the result is what the platform gives. *)
Class Platform : Type := { cast_undefined : float64 -> Z }.

(* ------------------------------------------------------------------ *)
(** ** numpy arrays *)

Record ndarray (A : Type) : Type := NdArray { shape : list nat; data : list A }.

Definition amap {A B : Type} (f : A -> B) (a : ndarray A) : ndarray B :=
  NdArray (shape a) (map f (data a)).

Definition size_of (sh : list nat) : nat := fold_right Nat.mul 1%nat sh.

(** The arrays numpy builds: as many elements as the shape says. *)
Definition wf_ndarray {A : Type} (a : ndarray A) : Prop :=
  List.length (data a) = size_of (shape a).

Definition ValueError_min : exc :=
  Exc "ValueError"
      "zero-size array to reduction operation minimum which has no identity".
Definition ValueError_max : exc :=
  Exc "ValueError"
      "zero-size array to reduction operation maximum which has no identity".

(** [a.min()] and [a.max()] over all the elements. *)
Definition amin (l : list float64) : res float64 :=
  match l with
  | [] => Raise ValueError_min
  | x :: t => Ok (fold_left minimum t x)
  end.

Definition amax (l : list float64) : res float64 :=
  match l with
  | [] => Raise ValueError_max
  | x :: t => Ok (fold_left maximum t x)
  end.

(** [a.astype(float)] on the integer samples of a decoded image. *)
Definition astype_float (a : ndarray Z) : ndarray float64 := amap of_Z a.

(** [a.astype('uint8')] *)
Definition uint8_of_float `{Platform} (x : float64) : Z :=
  match trunc x with
  | Some z => if (0 <=? z)%Z && (z <=? 255)%Z then z else cast_undefined x
  | None => cast_undefined x
  end.

Definition astype_uint8 `{Platform} (a : ndarray float64) : ndarray Z :=
  amap uint8_of_float a.

(** [np.piecewise(x, condlist, funclist)]: the output starts at zero and
    every pair of a condition and a function, in order, overwrites the
    elements where the condition holds; with one function more than
    conditions, the last function is for the elements where no condition
    holds. *)
Inductive pw_func : Type :=
| PwConst (v : float64)
| PwCall (f : float64 -> float64).

Definition pw_apply (f : pw_func) (x : float64) : float64 :=
  match f with
  | PwConst v => v
  | PwCall g => g x
  end.

Definition piecewise_elem (condlist : list (float64 -> bool))
    (funclist : list pw_func) (x : float64) : float64 :=
  let conds := map (fun c => c x) condlist in
  let conds' :=
    if (List.length condlist =? List.length funclist - 1)%nat
    then conds ++ [negb (existsb (fun b => b) conds)]
    else conds in
  fold_left (fun (y : float64) (cf : bool * pw_func) =>
               if fst cf then pw_apply (snd cf) x else y)
            (combine conds' funclist) zero.

Definition piecewise (x : ndarray float64) (condlist : list (float64 -> bool))
    (funclist : list pw_func) : res (ndarray float64) :=
  let n := List.length condlist in
  let n2 := List.length funclist in
  if (n =? n2 - 1)%nat || (n =? n2)%nat
  then Ok (amap (piecewise_elem condlist funclist) x)
  else Raise (Exc "ValueError" "function list and condition list do not match").

(* ------------------------------------------------------------------ *)
(** ** The dataset *)

(** A [DS] element: one number, or a [MultiValue] of them. *)
Inductive DSval : Type :=
| DSsingle (v : float64)
| DSmulti (vs : list float64).

(** An [IS] element as pydicom gives it: [None] for an empty value, else
    an [int] that keeps the text it was made from, if it was made from
    text, as every value read from a file is. *)
Inductive ISvalue : Type :=
| IS_None
| IS (n : Z) (original_string : option string).

(** [str(v)], which is what [f"{v}"] prints: the text the number was made
    from, and the decimal numeral of an [IS] made from an [int]. *)
Definition IS_str (v : ISvalue) : string :=
  match v with
  | IS_None => "None"
  | IS _ (Some text) => text
  | IS n None => Str.of_Z n
  end.

(** The attributes of a decoded file the code reads; [None] is an attribute
    that is not in the dataset. [pixel_array] is the property
    [ds.pixel_array]: the decoded samples, or the exception of the decoder.
    [SeriesNumber] and [InstanceNumber] are what reading the attribute
    gives: its value, or the exception it raises, which is AttributeError
    for an attribute that is not in the dataset. *)
Record Dataset : Type := {
  SOPClassUID : option string;
  RescaleSlope : option float64;
  RescaleIntercept : option float64;
  VOILUTFunction : option string;
  WindowCenter : option DSval;
  WindowWidth : option DSval;
  PhotometricInterpretation : option string;
  SeriesNumber : res ISvalue;
  InstanceNumber : res ISvalue;
  pixel_array : res (ndarray Z)
}.

Definition AttributeError (name : string) : exc :=
  Exc "AttributeError" ("'FileDataset' object has no attribute '" ++ name ++ "'").

(** [ds.name], which raises when the attribute is absent. *)
Definition getattr {A : Type} (name : string) (v : option A) : res A :=
  match v with
  | Some a => Ok a
  | None => Raise (AttributeError name)
  end.

(** [name in ds and ds.name == s] *)
Definition attr_is (v : option string) (s : string) : bool :=
  match v with
  | Some x => String.eqb x s
  | None => false
  end.

(** What the code calls in pydicom after the file is read. *)
Class Pydicom : Type := {
  apply_modality_lut : ndarray float64 -> Dataset -> res (ndarray float64);
  apply_voi_lut : ndarray float64 -> Dataset -> res (ndarray float64)
}.

(* ------------------------------------------------------------------ *)
(** ** Compatibility gate *)

Definition uid_encapsulated_pdf : string := "1.2.840.10008.5.1.4.1.1.104.1".
Definition uid_key_object_selection : string := "1.2.840.10008.5.1.4.1.1.88.59".

Definition _is_unsupported (ds : Dataset) : res pyval :=
  uid <- getattr "SOPClassUID" (SOPClassUID ds) ;;
  if String.eqb uid uid_encapsulated_pdf then
    Ok (PyStr "Encapsulated PDF Storage")
  else if String.eqb uid uid_key_object_selection then
    Ok (PyStr "Key Object Selection Document")
  else
    Ok (PyBool false).

(* ------------------------------------------------------------------ *)
(** ** Pixel pipeline *)

Definition _get_LUT_value_LINEAR_EXACT (arr : ndarray float64)
    (window level : float64) : res (ndarray float64) :=
  data_min <- amin (data arr) ;;
  data_max <- amax (data arr) ;;
  let data_range := sub data_max data_min in
  piecewise arr
    [ (fun x => leb x (sub level (div window two)));
      (fun x => ltb (add level (div window two)) x) ]
    [ PwConst data_min;
      PwConst data_max;
      PwCall (fun x =>
        add (mul (div (add (sub x level) (div window two)) window) data_range)
            data_min) ].

(** [float(v[0])] for a [MultiValue], [float(v)] otherwise. *)
Definition first_value (v : DSval) : res float64 :=
  match v with
  | DSsingle x => Ok x
  | DSmulti (x :: _) => Ok x
  | DSmulti [] => Raise (Exc "IndexError" "list index out of range")
  end.

(** Step 1: modality LUT. *)
Definition modality_step `{Pydicom} (ds : Dataset) (arr : ndarray float64)
    : res (ndarray float64) :=
  match RescaleSlope ds, RescaleIntercept ds with
  | Some rescale_slope, Some rescale_intercept =>
      Ok (amap (fun x => add (mul x rescale_slope) rescale_intercept) arr)
  | _, _ => apply_modality_lut arr ds
  end.

(** Step 2: VOI LUT. *)
Definition voi_step `{Pydicom} (ds : Dataset) (arr : ndarray float64)
    : res (ndarray float64) :=
  if attr_is (VOILUTFunction ds) "SIGMOID" then apply_voi_lut arr ds
  else
    match WindowCenter ds, WindowWidth ds with
    | Some wc, Some ww =>
        window_center <- first_value wc ;;
        window_width <- first_value ww ;;
        _get_LUT_value_LINEAR_EXACT arr window_width window_center
    | _, _ => apply_voi_lut arr ds
    end.

(** Step 3: presentation LUT,
    [((a - a.min()) / (a.max() - a.min())) * 255.0]. *)
Definition presentation_step (arr : ndarray float64) : res (ndarray float64) :=
  lo <- amin (data arr) ;;
  hi <- amax (data arr) ;;
  Ok (amap (fun x => mul (div (sub x lo) (sub hi lo)) f255) arr).

(** MONOCHROME1: [np.max(a) - a]. *)
Definition inversion_step (ds : Dataset) (arr : ndarray float64)
    : res (ndarray float64) :=
  if attr_is (PhotometricInterpretation ds) "MONOCHROME1" then
    hi <- amax (data arr) ;;
    Ok (amap (fun x => sub hi x) arr)
  else Ok arr.

Definition _pixel_process `{Pydicom} `{Platform} (ds : Dataset)
    (pixel_array : ndarray float64) : res (ndarray Z) :=
  pixel_array <- modality_step ds pixel_array ;;
  pixel_array <- voi_step ds pixel_array ;;
  pixel_array <- presentation_step pixel_array ;;
  pixel_array <- inversion_step ds pixel_array ;;
  Ok (astype_uint8 pixel_array).

(* ------------------------------------------------------------------ *)
(** ** Colour planes *)

Definition color_photometric : list string :=
  [ "YBR_RCT"; "RGB"; "YBR_ICT"; "YBR_PARTIAL_420"; "YBR_FULL_422";
    "YBR_FULL"; "PALETTE COLOR" ]%string.

(** ['PhotometricInterpretation' in ds and ds.PhotometricInterpretation in
    [...]] *)
Definition is_color (ds : Dataset) : bool :=
  match PhotometricInterpretation ds with
  | Some p => existsb (String.eqb p) color_photometric
  | None => false
  end.

(** The index an element of the result is read from: the same place with
    index 0 and index 2 of the third axis exchanged; [d2] is the length of
    that axis and [inner] the number of elements below it. *)
Definition swap_source (d2 inner idx : nat) : nat :=
  let k := ((idx / inner) mod d2)%nat in
  if (k =? 0)%nat then (idx + 2 * inner)%nat
  else if (k =? 2)%nat then (idx - 2 * inner)%nat
  else idx.

(** [a[:, :, [0, 2]] = a[:, :, [2, 0]]]: the right-hand side is a copy, so
    the assignment exchanges the two planes; numpy raises [IndexError] when
    the array has fewer than three axes or the third one is shorter than 3. *)
Definition swap_planes_0_2 (a : ndarray Z) : res (ndarray Z) :=
  match shape a with
  | _ :: _ :: d2 :: rest =>
      if (d2 <? 3)%nat then
        Raise (Exc "IndexError"
                   ("index 2 is out of bounds for axis 2 with size " ++ Str.of_nat d2))
      else
        Ok (NdArray (shape a)
              (map (fun idx => nth (swap_source d2 (size_of rest) idx) (data a) 0%Z)
                   (seq 0 (List.length (data a)))))
  | _ =>
      Raise (Exc "IndexError"
                 ("too many indices for array: array is "
                    ++ Str.of_nat (List.length (shape a))
                    ++ "-dimensional, but 3 were indexed"))
  end.

(* ------------------------------------------------------------------ *)
(** ** Export path *)

Definition _get_export_file_path (ds : Dataset) (file_path target_root : Path.t)
    : Path.t :=
  let series_number :=
    match SeriesNumber ds with
    | Ok v => IS_str v
    | Raise _ => "Ser"%string
    end in
  let instance_number :=
    match InstanceNumber ds with
    | Ok v => IS_str v
    | Raise _ => "Ins"%string
    end in
  let filename := (series_number ++ "_" ++ instance_number ++ ".bmp")%string in
  Path.div target_root [filename].

(* ------------------------------------------------------------------ *)
(** ** The file system, the DICOM reader and the image writer *)

Class World : Type := {
  (** the state of the file system *)
  FS : Type;
  (** [pydicom.dcmread(file_path, force=True)] *)
  dcmread : Path.t -> FS -> res Dataset;
  (** [Path.mkdir(p, exist_ok=True, parents=True)] *)
  mkdir : Path.t -> FS -> res unit * FS;
  (** [cv2.imwrite(name, img)] *)
  imwrite : string -> ndarray Z -> FS -> res bool * FS;
  (** [p.exists()], [p.is_file()], [p.is_dir()] *)
  path_exists : Path.t -> FS -> bool;
  is_file : Path.t -> FS -> bool;
  is_dir : Path.t -> FS -> bool;
  (** [os.walk(p)]: every directory under [p] with the names of its files *)
  walk : Path.t -> FS -> list (Path.t * list string)
}.

Section Conversion.

Context `{World} `{Pydicom} `{Platform}.

(** A computation that reads and writes the file system and may raise. *)
Definition M (A : Type) : Type := FS -> res A * FS.

Definition mret {A : Type} (a : A) : M A := fun w => (Ok a, w).

Definition mbind {A B : Type} (c : M A) (k : A -> M B) : M B :=
  fun w =>
    match c w with
    | (Ok a, w') => k a w'
    | (Raise e, w') => (Raise e, w')
    end.

Definition lift {A : Type} (c : res A) : M A := fun w => (c, w).

Definition read {A : Type} (f : FS -> res A) : M A := fun w => (f w, w).

Local Notation "x <~ c ;; k" := (mbind c (fun x => k))
  (at level 61, c at next level, right associativity).

Definition skip_message (file_path : Path.t) (what : string) : string :=
  (Path.str file_path ++ " cannot be converted." ++ Str.nl ++ what)%string.

Definition error_message (file_path : Path.t) (e : exc) : string :=
  ("Error converting " ++ Path.str file_path ++ ": " ++ exc_str e)%string.

(** Line 96: [len(a.shape) == 3 and a.shape[2] != 3] *)
Definition is_multiframe {A : Type} (a : ndarray A) : bool :=
  (List.length (shape a) =? 3)%nat && negb (nth 2 (shape a) 0 =? 3)%nat.

(** The [try] block of [_ds_to_file]. *)
Definition _ds_to_file_try (file_path target_root : Path.t) : M pyval :=
  ds <~ read (dcmread file_path) ;;
  is_unsupported <~ lift (_is_unsupported ds) ;;
  if truthy is_unsupported then
    mret (PyStr (skip_message file_path
                   (str_of is_unsupported ++ " is currently not supported")))
  else
    raw <~ lift (pixel_array ds) ;;
    let pixel_array := astype_float raw in
    if is_multiframe pixel_array then
      mret (PyStr (skip_message file_path
                     "Multiframe images are currently not supported"))
    else
      pixel_array <~ lift (_pixel_process ds pixel_array) ;;
      pixel_array <~ lift (if is_color ds then swap_planes_0_2 pixel_array
                           else Ok pixel_array) ;;
      let full_export_fp_fn := _get_export_file_path ds file_path target_root in
      _ <~ mkdir (Path.parent full_export_fp_fn) ;;
      _ <~ imwrite (Path.str full_export_fp_fn) pixel_array ;;
      mret (PyBool true).

(** [_ds_to_file]: the [try] block under [except Exception as e]. *)
Definition _ds_to_file (file_path target_root : Path.t) (w : FS) : pyval * FS :=
  match _ds_to_file_try file_path target_root w with
  | (Ok v, w') => (v, w')
  | (Raise e, w') => (PyStr (error_message file_path e), w')
  end.

(** [origin]: one path, or a list or a tuple of paths. *)
Inductive Origin : Type :=
| OriginOne (p : Path.t)
| OriginList (ps : list Path.t)
| OriginTuple (ps : list Path.t).

Definition origin_list (origin_input : Origin) : list Path.t :=
  match origin_input with
  | OriginOne p => [p]
  | OriginList ps | OriginTuple ps => ps
  end.

Definition is_dcm_name (f : string) : bool := Str.endswith (Str.lower f) ".dcm".

(** The files [os.walk(origin)] finds, in the order of the walk. *)
Definition walk_dcm (origin : Path.t) (w : FS) : list Path.t :=
  flat_map (fun rf : Path.t * list string =>
              map (fun f => Path.div (fst rf) [f]) (filter is_dcm_name (snd rf)))
           (walk origin w).

(** The loop over [origin_list]. *)
Fixpoint collect (origins : list Path.t) (dicom_file_list : list Path.t) (w : FS)
    : res (list Path.t) :=
  match origins with
  | [] => Ok dicom_file_list
  | origin :: rest =>
      if negb (path_exists origin w) then
        Raise (Exc "OSError"
                   ("File or folder '" ++ Path.str origin ++ "' does not exist"))
      else if is_file origin w then
        if negb (String.eqb (Str.lower (Path.suffix origin)) ".dcm") then
          Raise (Exc "Exception" "Input file type should be a DICOM file")
        else collect rest (dicom_file_list ++ [origin]) w
      else if is_dir origin w then
        collect rest (dicom_file_list ++ walk_dcm origin w) w
      else collect rest dicom_file_list w
  end.

Definition _get_root_get_dicom_file_list (origin_input : Origin)
    (target_root : option Path.t) (w : FS) : res (Path.t * list Path.t) :=
  dicom_file_list <- collect (origin_list origin_input) [] w ;;
  let dicom_file_list := Path.sort dicom_file_list in
  root_folder <-
    match target_root with
    | None =>
        match origin_input with
        | OriginOne p => Ok (Path.parent p)
        | OriginList (first :: _) | OriginTuple (first :: _) =>
            Ok (Path.parent first)
        | OriginList [] => Raise (Exc "IndexError" "list index out of range")
        | OriginTuple [] => Raise (Exc "IndexError" "tuple index out of range")
        end
    | Some r => Ok r
    end ;;
  Ok (root_folder, dicom_file_list).

(** The per-file tasks, one after the other in the order of the list. The
    process pool runs the same tasks and hands their results back in the
    same order; no task reads what another one writes. *)
Fixpoint run_tasks (files : list Path.t) (target_root : Path.t) (w : FS)
    : list pyval * FS :=
  match files with
  | [] => ([], w)
  | file_path :: rest =>
      let (r, w') := _ds_to_file file_path target_root w in
      let (rs, w'') := run_tasks rest target_root w' in
      (r :: rs, w'')
  end.

Definition count_True (results : list pyval) : nat :=
  List.length (filter is_True results).

(** What [_dicom_convertor] leaves behind: its result, the file system
    and the lines it printed. *)
Record Run : Type := { returned : res bool; fs_after : FS; printed : list string }.

Definition _dicom_convertor (origin : Origin) (target_root : option Path.t)
    (multiprocessing : bool) (w : FS) : Run :=
  match _get_root_get_dicom_file_list origin target_root w with
  | Raise e => Build_Run (Raise e) w []
  | Ok (target_root, dicom_file_list) =>
      match dicom_file_list with
      | [] => Build_Run (Ok false) w ["No DICOM files found!"%string]
      | _ =>
          let n := List.length dicom_file_list in
          let (results, w') := run_tasks dicom_file_list target_root w in
          let successful := count_True results in
          let failed := (List.length results - successful)%nat in
          Build_Run (Ok (0 <? successful)%nat) w'
            ([("Found " ++ Str.of_nat n ++ " DICOM files to convert...")%string]
             ++ (if multiprocessing && (1 <? n)%nat
                 then ["DICOM images converted to BMP successfully!"%string]
                 else [])
             ++ (if (0 <? failed)%nat
                 then ("Conversion completed: " ++ Str.of_nat successful
                         ++ " successful, " ++ Str.of_nat failed ++ " failed")%string
                      :: map (fun r => ("  - " ++ str_of r)%string)
                             (filter (fun r => negb (is_True r)) results)
                 else [("All " ++ Str.of_nat successful
                          ++ " files converted successfully!")%string]))
      end
  end.

End Conversion.

(* ------------------------------------------------------------------ *)
(** ** A small world to run the code in

    Input files hold datasets; the writer records what it is given. *)

Record disk : Type := {
  inputs : list (Path.t * Dataset);
  outputs : list (string * ndarray Z)
}.

Definition path_eqb (p q : Path.t) : bool :=
  if list_eq_dec string_dec p q then true else false.

Fixpoint is_prefix (p q : Path.t) : bool :=
  match p, q with
  | [], _ => true
  | _ :: _, [] => false
  | a :: p', b :: q' => String.eqb a b && is_prefix p' q'
  end.

Definition disk_lookup (p : Path.t) (w : disk) : res Dataset :=
  match find (fun e => path_eqb (fst e) p) (inputs w) with
  | Some e => Ok (snd e)
  | None =>
      Raise (Exc "FileNotFoundError"
                 ("[Errno 2] No such file or directory: '" ++ Path.str p ++ "'"))
  end.

Definition disk_is_file (p : Path.t) (w : disk) : bool :=
  existsb (fun e => path_eqb (fst e) p) (inputs w).

Definition disk_is_dir (p : Path.t) (w : disk) : bool :=
  existsb (fun e => is_prefix p (fst e) && negb (path_eqb (fst e) p)) (inputs w).

Definition disk_walk (p : Path.t) (w : disk) : list (Path.t * list string) :=
  map (fun e => (Path.parent (fst e), [Path.name (fst e)]))
      (filter (fun e => is_prefix p (fst e) && negb (path_eqb (fst e) p)) (inputs w)).

Definition disk_world : World := {|
  FS := disk;
  dcmread := disk_lookup;
  mkdir := fun _ w => (Ok tt, w);
  imwrite := fun name img w =>
    (Ok true, {| inputs := inputs w; outputs := outputs w ++ [(name, img)] |});
  path_exists := fun p w => disk_is_file p w || disk_is_dir p w;
  is_file := disk_is_file;
  is_dir := disk_is_dir;
  walk := disk_walk
|}.

(** A dataset with no LUT of its own: the two generic LUT calls of pydicom
    give the array back. *)
Definition plain_pydicom : Pydicom := {|
  apply_modality_lut := fun a _ => Ok a;
  apply_voi_lut := fun a _ => Ok a
|}.

(** A platform that converts to 0 where C leaves the conversion open. *)
Definition zero_platform : Platform := {| cast_undefined := fun _ => 0%Z |}.

Definition uid_ct_image : string := "1.2.840.10008.5.1.4.1.1.2".

(** A grey-scale image with window 100 around 150. *)
Definition windowed_dataset (window level : Z) (px : ndarray Z) : Dataset := {|
  SOPClassUID := Some uid_ct_image;
  RescaleSlope := Some (of_Z 1);
  RescaleIntercept := Some (of_Z 0);
  VOILUTFunction := None;
  WindowCenter := Some (DSmulti [of_Z level; of_Z 40]);
  WindowWidth := Some (DSsingle (of_Z window));
  PhotometricInterpretation := Some "MONOCHROME2"%string;
  SeriesNumber := Ok (IS 3 (Some "3"%string));
  InstanceNumber := Ok (IS 12 (Some "12"%string));
  pixel_array := Ok px
|}.

(** A dataset with nothing but a SOP class, a photometric interpretation
    and its samples. *)
Definition bare_dataset (uid : string) (photometric : option string)
    (px : res (ndarray Z)) : Dataset := {|
  SOPClassUID := Some uid;
  RescaleSlope := None;
  RescaleIntercept := None;
  VOILUTFunction := None;
  WindowCenter := None;
  WindowWidth := None;
  PhotometricInterpretation := photometric;
  SeriesNumber := Raise (AttributeError "SeriesNumber");
  InstanceNumber := Raise (AttributeError "InstanceNumber");
  pixel_array := px
|}.

(** A dataset with nothing but its two numbers. *)
Definition numbered_dataset (series instance : res ISvalue) : Dataset := {|
  SOPClassUID := Some uid_ct_image;
  RescaleSlope := None;
  RescaleIntercept := None;
  VOILUTFunction := None;
  WindowCenter := None;
  WindowWidth := None;
  PhotometricInterpretation := None;
  SeriesNumber := series;
  InstanceNumber := instance;
  pixel_array := Raise (AttributeError "PixelData")
|}.

(** SeriesNumber 3 stored as '03' and InstanceNumber 12 stored as '+12'. *)
Definition padded_numbers : Dataset :=
  numbered_dataset (Ok (IS 3 (Some "03"%string))) (Ok (IS 12 (Some "+12"%string))).

(** A SeriesNumber element that is present and empty. *)
Definition empty_series : Dataset :=
  numbered_dataset (Ok IS_None) (Ok (IS 12 (Some "12"%string))).

Definition gray_2x2 : ndarray Z := NdArray [2; 2]%nat [0; 1; 2; 3]%Z.
Definition rgb_1x2 : ndarray Z := NdArray [1; 2; 3]%nat [0; 10; 255; 255; 20; 0]%Z.
Definition frames_2x2x5 : ndarray Z :=
  NdArray [2; 2; 5]%nat (repeat 7%Z 20).
Definition row_of_five : ndarray Z := NdArray [1; 5]%nat [0; 100; 150; 200; 300]%Z.

Definition in_dir : Path.t := ["DICOM_files"]%string.
Definition out_dir : Path.t := ["BMP_files"]%string.
Definition file_a : Path.t := ["DICOM_files"; "a.dcm"]%string.
Definition file_b : Path.t := ["DICOM_files"; "b.dcm"]%string.
Definition file_c : Path.t := ["DICOM_files"; "sub"; "c.DCM"]%string.

Definition disk_of (files : list (Path.t * Dataset)) : disk :=
  {| inputs := files; outputs := [] |}.

Definition file_d : Path.t := ["DICOM_files"; "d.dcm"]%string.
Definition file_gone : Path.t := ["DICOM_files"; "gone.dcm"]%string.

Definition windowed_a : Dataset := windowed_dataset 100 150 row_of_five.
Definition palette_b : Dataset :=
  bare_dataset uid_ct_image (Some "PALETTE COLOR"%string) (Ok gray_2x2).
Definition pdf_c : Dataset := bare_dataset uid_encapsulated_pdf None (Ok frames_2x2x5).
Definition frames_d : Dataset :=
  bare_dataset uid_ct_image (Some "MONOCHROME2"%string) (Ok frames_2x2x5).

(** Four input files under [DICOM_files], no output yet. *)
Definition demo_disk : disk :=
  disk_of [(file_a, windowed_a); (file_b, palette_b); (file_c, pdf_c);
           (file_d, frames_d)].

(** A directory with no DICOM file in it. *)
Definition empty_disk : disk :=
  disk_of [(["DICOM_files"; "notes.txt"]%string, pdf_c)].

(* ------------------------------------------------------------------ *)
(** ** The order of the floats, for the proofs

    [SFcompare] orders the numbers by sign, then exponent, then mantissa;
    [key] gives each number a triple whose lexicographic order is that
    order. NaN has no key. *)

Definition key (x : float64) : option (Z * Z * Z) :=
  match x with
  | S754_nan => None
  | S754_infinity true => Some (-2, 0, 0)%Z
  | S754_finite true m e => Some (-1, - e, Zneg m)%Z
  | S754_zero _ => Some (0, 0, 0)%Z
  | S754_finite false m e => Some (1, e, Zpos m)%Z
  | S754_infinity false => Some (2, 0, 0)%Z
  end.

Definition compare3 (a b : Z * Z * Z) : comparison :=
  match a, b with
  | (a1, a2, a3), (b1, b2, b3) =>
      match Z.compare a1 b1 with
      | Eq => match Z.compare a2 b2 with
              | Eq => Z.compare a3 b3
              | c => c
              end
      | c => c
      end
  end.

Definition le3 (a b : Z * Z * Z) : Prop :=
  match a, b with
  | (a1, a2, a3), (b1, b2, b3) =>
      (a1 < b1 \/ (a1 = b1 /\ (a2 < b2 \/ (a2 = b2 /\ a3 <= b3))))%Z
  end.

(** [x <= y] on floats as a proposition. *)
Definition fle (x y : float64) : Prop := leb x y = true.

(** What a difference of two equal floats can be. *)
Definition nan_or_zero (x : float64) : Prop :=
  x = S754_nan \/ exists s, x = S754_zero s.

(* ------------------------------------------------------------------ *)
(** ** Real values and rounding, for the proofs *)

Definition bpow (e : Z) : R := powerRZ 2 e.
Arguments bpow e : simpl never.

(** The real number a float stands for; 0 for what is not a number. *)
Definition F2R (x : float64) : R :=
  match x with
  | S754_finite s m e => (IZR (cond_Zopp s (Zpos m)) * bpow e)%R
  | _ => 0%R
  end.

Definition is_finite (x : float64) : bool :=
  match x with
  | S754_zero _ | S754_finite _ _ _ => true
  | _ => false
  end.

(** A binary64 number: the mantissa has at most 53 bits and the exponent
    is the one the format gives its magnitude. *)
Definition valid (x : float64) : Prop := valid_binary prec emax x = true.

Definition emin : Z := SpecFloat.emin prec emax.
Definition fexp (e : Z) : Z := SpecFloat.fexp prec emax e.

(** The exponent of the format at a non-negative real: that of its
    magnitude, and [emin] below the smallest normal number. *)
Definition cexp (x : R) : Z :=
  fexp (Zdigits2 (Zfloor (x * bpow (- emin))) + emin).

(** Rounding to the nearest integer, ties to even. *)
Definition Zrne (x : R) : Z :=
  let f := Zfloor x in
  if Rlt_dec (x - IZR f) (/ 2) then f
  else if Rlt_dec (/ 2) (x - IZR f) then (f + 1)%Z
  else if Z.even f then f else (f + 1)%Z.

(** Rounding a non-negative real to the nearest number of the format. *)
Definition RN (x : R) : R := (IZR (Zrne (x * bpow (- cexp x))) * bpow (cexp x))%R.

(** Where [x] lies in the interval from [m * 2^e] to [(m+1) * 2^e]. *)
Definition located (x : R) (m e : Z) (l : location) : Prop :=
  match l with
  | loc_Exact => x = (IZR m * bpow e)%R
  | loc_Inexact c =>
      (IZR m * bpow e < x < IZR (m + 1) * bpow e)%R
      /\ match c with
         | Lt => (x < (IZR m + / 2) * bpow e)%R
         | Eq => x = ((IZR m + / 2) * bpow e)%R
         | Gt => ((IZR m + / 2) * bpow e < x)%R
         end
  end.

(** One element of the presentation LUT. *)
Definition normalise (lo hi x : float64) : float64 :=
  mul (div (sub x lo) (sub hi lo)) f255.

(** The number 1. *)
Definition fone : float64 := Eval cbv in of_Z 1.

(** A sample of a normalised image: a number of the format from 0 to 255. *)
Definition sample (y : float64) : Prop :=
  valid y /\ is_finite y = true /\ (0 <= F2R y <= 255)%R.

Section RoundingDefinitions.

Local Open Scope R_scope.

(** The magnitude that gives the exponent of the format. *)
Definition mag0 (x : R) : Z := (Zdigits2 (Zfloor (x * bpow (- emin))) + emin)%Z.

(** The location that two shifted-out bits stand for. *)
Definition loc_of_bits (r s : bool) : location :=
  loc_of_shr_record (Build_shr_record 0 r s).

(** What [binary_round_aux] returns for a number located at [(mx, ex)]. *)
Definition rounded (sx : bool) (x : R) (r : float64) : Prop :=
  valid r
  /\ ((RN x = 0 /\ exists s, r = S754_zero s)
      \/ (exists m e, r = S754_finite sx m e /\ IZR (Zpos m) * bpow e = RN x)
      \/ (r = S754_infinity sx /\ bpow emax <= RN x)).

End RoundingDefinitions.

(** An X-ray image, shown inverted. *)
Definition xray_e : Dataset :=
  bare_dataset uid_ct_image (Some "MONOCHROME1"%string) (Ok row_of_five).

(** The normalised samples of [row_of_five]. *)
Definition normalised_row : ndarray float64 :=
  Eval cbv in
    match presentation_step (astype_float row_of_five) with
    | Ok a => a
    | Raise _ => NdArray [] []
    end.

(* ------------------------------------------------------------------ *)
(** ** The script [dicom2bmp.py] *)

Definition dicom_dir : Path.t := ["DICOM_files"]%string.
Definition bmp_dir : Path.t := ["BMP_files"]%string.

(** [dicom2bmp(origin, target_root=None, multiprocessing=True)] *)
Definition dicom2bmp `{World} `{Pydicom} `{Platform} (origin : Origin)
    (target_root : option Path.t) (multiprocessing : bool) (w : FS) : Run :=
  _dicom_convertor origin target_root multiprocessing w.

(** The body of [if __name__ == '__main__':]. *)
Definition main `{World} `{Pydicom} `{Platform} (w : FS) : Run :=
  dicom2bmp (OriginOne dicom_dir) (Some bmp_dir) true w.

(** [p <= q] on paths as a proposition. *)
Definition path_le (p q : Path.t) : Prop := Path.leb p q = true.

(** The files the listing is to find: an origin that is a file with the
    suffix [.dcm], or a file that the walk of an origin that is a directory
    finds with a name that ends in [.dcm]; the case of the letters apart. *)
Definition wanted_file `{World} (origins : list Path.t) (w : FS) (f : Path.t) : Prop :=
  (In f origins /\ is_file f w = true
     /\ Str.lower (Path.suffix f) = ".dcm"%string)
  \/ (exists (o : Path.t) (rf : Path.t * list string) (name : string),
        In o origins /\ is_file o w = false /\ is_dir o w = true
        /\ In rf (walk o w) /\ In name (snd rf) /\ is_dcm_name name = true
        /\ f = Path.div (fst rf) [name]).

(** The file decodes to [ds], the gate lets it through, it is no stack of
    frames and the pixel pipeline with the colour reorder gives [img]:
    what is left is to write [img]. *)
Definition ready_to_write `{World} `{Pydicom} `{Platform}
    (file_path : Path.t) (w : FS) (ds : Dataset) (img : ndarray Z) : Prop :=
  dcmread file_path w = Ok ds
  /\ _is_unsupported ds = Ok (PyBool false)
  /\ exists (raw px : ndarray Z),
       pixel_array ds = Ok raw
       /\ is_multiframe (astype_float raw) = false
       /\ _pixel_process ds (astype_float raw) = Ok px
       /\ (if is_color ds then swap_planes_0_2 px else Ok px) = Ok img.

(** The line the process-pool branch prints after the tasks. *)
Definition pool_success_line : string := "DICOM images converted to BMP successfully!".

(** Two files that the task skips: a PDF and a stack of frames. *)
Definition skipped_disk : disk := disk_of [(file_c, pdf_c); (file_d, frames_d)].

(** Two arrays of one shape and one size. *)
Definition same_shape {A B : Type} (r : ndarray A) (a : ndarray B) : Prop :=
  shape r = shape a /\ List.length (data r) = List.length (data a).

(** The two LUT functions of pydicom give back an array of the shape and
    the size of the one they are given. *)
Definition lut_keeps_shape `{Pydicom} : Prop :=
  forall (a r : ndarray float64) (ds : Dataset),
    (apply_modality_lut a ds = Ok r \/ apply_voi_lut a ds = Ok r) ->
    same_shape r a.

(** The presentation LUT on the reals, every operation rounded to the
    format. *)
Definition norm_real (lo hi x : R) : R :=
  RN (RN (RN (x - lo) / RN (hi - lo)) * 255).

(** The 8-bit value of a sample [x] of an array with minimum [lo] and
    maximum [hi]: as it is, and inverted for MONOCHROME1. *)
Definition grey_level `{Platform} (lo hi x : float64) : Z :=
  uint8_of_float (normalise lo hi x).

Definition inverted_level `{Platform} (lo hi x : float64) : Z :=
  uint8_of_float (sub f255 (normalise lo hi x)).

Definition not_underscore (c : ascii) : bool := negb (Ascii.eqb c "_").

Fixpoint all_chars (p : ascii -> bool) (s : string) : bool :=
  match s with
  | EmptyString => true
  | String c t => p c && all_chars p t
  end.

(** The two parts of the name of an export file. *)
Definition series_part (ds : Dataset) : string :=
  match SeriesNumber ds with Ok v => IS_str v | Raise _ => "Ser"%string end.

Definition instance_part (ds : Dataset) : string :=
  match InstanceNumber ds with Ok v => IS_str v | Raise _ => "Ins"%string end.

(** What [dcmread(force=True)] makes of a file that is no DICOM file: a
    dataset without a SOP class. *)
Definition headerless : Dataset := {|
  SOPClassUID := None;
  RescaleSlope := None;
  RescaleIntercept := None;
  VOILUTFunction := None;
  WindowCenter := None;
  WindowWidth := None;
  PhotometricInterpretation := None;
  SeriesNumber := Raise (AttributeError "SeriesNumber");
  InstanceNumber := Raise (AttributeError "InstanceNumber");
  pixel_array := Ok gray_2x2
|}.

Definition headerless_disk : disk := disk_of [(file_a, headerless)].

(** [row_of_five] after the window 100 around 150. *)
Definition windowed_levels : ndarray float64 :=
  NdArray [1; 5]%nat [of_Z 0; of_Z 0; of_Z 150; of_Z 300; of_Z 300].

(** The small world with a writer that cannot write: [cv2.imwrite] returns
    [False] and leaves no file. *)
Definition silent_world : World := {|
  FS := disk;
  dcmread := disk_lookup;
  mkdir := fun _ w => (Ok tt, w);
  imwrite := fun _ _ w => (Ok false, w);
  path_exists := fun p w => disk_is_file p w || disk_is_dir p w;
  is_file := disk_is_file;
  is_dir := disk_is_dir;
  walk := disk_walk
|}.

(** One grey image of 2 x 2 samples. *)
Definition grey_b : Dataset :=
  bare_dataset uid_ct_image (Some "MONOCHROME2"%string) (Ok gray_2x2).

Definition grey_disk : disk := disk_of [(file_b, grey_b)].

(** An array with no element. *)
Definition no_pixels : ndarray float64 := NdArray [0]%nat [].

(* ------------------------------------------------------------------ *)
(** * Facts *)

(** ** Strings and paths *)

Lemma startswith_app (s t : string) : Str.startswith (s ++ t) s = true.
Proof.
  induction s as [| c s IH]; simpl; [reflexivity |].
  now rewrite Ascii.eqb_refl.
Qed.

Lemma startswith_app_l (sub a b : string) :
  Str.startswith a sub = true -> Str.startswith (a ++ b) sub = true.
Proof.
  revert a; induction sub as [| c sub IH]; intros a Hp; simpl in *; [reflexivity |].
  destruct a as [| d a]; simpl in *; [discriminate |].
  apply andb_true_iff in Hp as [Hc Hp].
  rewrite Hc. now apply IH.
Qed.

Lemma contains_startswith (sub s : string) :
  Str.startswith s sub = true -> Str.contains sub s = true.
Proof. intros Hp. destruct s; simpl in *; rewrite Hp; reflexivity. Qed.

Lemma contains_app_l (sub a b : string) :
  Str.contains sub a = true -> Str.contains sub (a ++ b) = true.
Proof.
  induction a as [| c a IH]; simpl; intros Hc.
  - rewrite orb_false_r in Hc.
    destruct sub; [| discriminate].
    now apply contains_startswith.
  - apply orb_true_iff in Hc. apply orb_true_iff.
    destruct Hc as [Hp | Hc]; [left | right; now apply IH].
    now apply (startswith_app_l sub (String c a) b).
Qed.

Lemma contains_app_r (sub a b : string) :
  Str.contains sub b = true -> Str.contains sub (a ++ b) = true.
Proof.
  intros Hc. induction a as [| c a IH]; simpl; [exact Hc |].
  rewrite IH. apply orb_true_r.
Qed.

Lemma contains_here (sub t : string) : Str.contains sub (sub ++ t) = true.
Proof. apply contains_startswith, startswith_app. Qed.

Lemma contains_refl (s : string) : Str.contains s s = true.
Proof.
  apply contains_startswith.
  induction s as [| c s IH]; simpl; [reflexivity |].
  now rewrite Ascii.eqb_refl.
Qed.

Lemma removelast_snoc {A : Type} (l : list A) (x : A) : removelast (l ++ [x]) = l.
Proof. rewrite removelast_app by discriminate. simpl. apply app_nil_r. Qed.

Lemma last_snoc {A : Type} (l : list A) (x d : A) : last (l ++ [x]) d = x.
Proof. apply last_last. Qed.

(** A child of a directory: its parent is the directory and its name the
    last part. *)
Lemma parent_div (root : Path.t) (f : string) :
  f <> "/"%string -> Path.parent (Path.div root [f]) = root.
Proof.
  intros Hf. unfold Path.parent, Path.div.
  assert (E : removelast (root ++ [f]) = root) by apply removelast_snoc.
  destruct root as [| a [| b r]]; simpl in *.
  - destruct (string_dec f "/"); [contradiction |].
    destruct f as [| c f]; [reflexivity |].
    destruct c as [[] [] [] [] [] [] [] []]; try reflexivity;
      destruct f; try reflexivity; now elim Hf.
  - destruct a as [| c a]; [exact E |].
    destruct c as [[] [] [] [] [] [] [] []]; try exact E; destruct a; exact E.
  - destruct a as [| c a]; [exact E |].
    destruct c as [[] [] [] [] [] [] [] []]; try exact E; destruct a; exact E.
Qed.

Lemma name_div (root : Path.t) (f : string) :
  f <> "/"%string -> Path.name (Path.div root [f]) = f.
Proof.
  intros Hf. unfold Path.name, Path.div.
  assert (E : last (root ++ [f]) EmptyString = f) by apply last_snoc.
  destruct root as [| a [| b r]]; simpl in *.
  - destruct f as [| c f]; [reflexivity |].
    destruct c as [[] [] [] [] [] [] [] []]; try reflexivity;
      destruct f; try reflexivity; now elim Hf.
  - destruct a as [| c a]; [exact E |].
    destruct c as [[] [] [] [] [] [] [] []]; try exact E; destruct a; exact E.
  - destruct a as [| c a]; [exact E |].
    destruct c as [[] [] [] [] [] [] [] []]; try exact E; destruct a; exact E.
Qed.

(** ** The per-file task *)

Section FileTask.

Context `{World} `{Pydicom} `{Platform}.

(** The [try] block, step by step. *)
Lemma _ds_to_file_try_steps (file_path target_root : Path.t) (w : FS) :
  _ds_to_file_try file_path target_root w =
  match dcmread file_path w with
  | Raise e => (Raise e, w)
  | Ok ds =>
    match _is_unsupported ds with
    | Raise e => (Raise e, w)
    | Ok u =>
      if truthy u then
        (Ok (PyStr (skip_message file_path
                      (str_of u ++ " is currently not supported"))), w)
      else
        match pixel_array ds with
        | Raise e => (Raise e, w)
        | Ok raw =>
          if is_multiframe (astype_float raw) then
            (Ok (PyStr (skip_message file_path
                          "Multiframe images are currently not supported")), w)
          else
            match _pixel_process ds (astype_float raw) with
            | Raise e => (Raise e, w)
            | Ok px =>
              match (if is_color ds then swap_planes_0_2 px else Ok px) with
              | Raise e => (Raise e, w)
              | Ok px' =>
                let full := _get_export_file_path ds file_path target_root in
                match mkdir (Path.parent full) w with
                | (Raise e, w1) => (Raise e, w1)
                | (Ok _, w1) =>
                  match imwrite (Path.str full) px' w1 with
                  | (Raise e, w2) => (Raise e, w2)
                  | (Ok _, w2) => (Ok (PyBool true), w2)
                  end
                end
              end
            end
        end
    end
  end.
Proof.
  unfold _ds_to_file_try, mbind, read, lift, mret.
  destruct (dcmread file_path w) as [ds | e]; [| reflexivity].
  destruct (_is_unsupported ds) as [u | e]; [| reflexivity].
  destruct (truthy u); [reflexivity |].
  destruct (pixel_array ds) as [raw | e]; [| reflexivity].
  destruct (is_multiframe (astype_float raw)); [reflexivity |].
  destruct (_pixel_process ds (astype_float raw)) as [px | e]; [| reflexivity].
  destruct (if is_color ds then swap_planes_0_2 px else Ok px) as [px' | e];
    [| reflexivity].
  cbv zeta.
  destruct (mkdir _ w) as [[[] | e] w1]; [| reflexivity].
  destruct (imwrite _ px' w1) as [[b | e] w2]; reflexivity.
Qed.

Lemma gate_by_uid (ds : Dataset) (uid : string) :
  SOPClassUID ds = Some uid ->
  _is_unsupported ds =
  Ok (if String.eqb uid uid_encapsulated_pdf then PyStr "Encapsulated PDF Storage"
      else if String.eqb uid uid_key_object_selection
           then PyStr "Key Object Selection Document"
           else PyBool false).
Proof.
  intros E. unfold _is_unsupported. rewrite E. simpl.
  destruct (String.eqb uid uid_encapsulated_pdf); [reflexivity |].
  destruct (String.eqb uid uid_key_object_selection); reflexivity.
Qed.

(** A dataset the gate names is skipped with that name, and nothing is
    written. *)
Lemma unsupported_is_skipped (ds : Dataset) (what : string)
    (file_path target_root : Path.t) (w : FS) :
  dcmread file_path w = Ok ds ->
  _is_unsupported ds = Ok (PyStr what) ->
  what <> EmptyString ->
  _ds_to_file file_path target_root w =
  (PyStr (skip_message file_path (what ++ " is currently not supported")), w).
Proof.
  intros Hr Hg Hne. unfold _ds_to_file.
  rewrite _ds_to_file_try_steps, Hr, Hg. simpl.
  destruct (String.eqb_spec what ""); [contradiction | reflexivity].
Qed.

(** C6: the gate answers 'Encapsulated PDF Storage' for SOP class
    1.2.840.10008.5.1.4.1.1.104.1, 'Key Object Selection Document' for
    1.2.840.10008.5.1.4.1.1.88.59 and [False] (supported) for every other
    SOP class UID; it is a function of the dataset alone, and a file decoded
    to a dataset with the Encapsulated PDF UID is skipped with a reason that
    contains 'Encapsulated PDF', the file system left as it was. *)
Theorem gate_names_unsupported_sop_classes :
  forall (ds : Dataset) (uid : string) (file_path target_root : Path.t) (w : FS),
  SOPClassUID ds = Some uid ->
  dcmread file_path w = Ok ds ->
  (uid = uid_encapsulated_pdf ->
     _is_unsupported ds = Ok (PyStr "Encapsulated PDF Storage"))
  /\ (uid = uid_key_object_selection ->
        _is_unsupported ds = Ok (PyStr "Key Object Selection Document"))
  /\ (uid <> uid_encapsulated_pdf -> uid <> uid_key_object_selection ->
        _is_unsupported ds = Ok (PyBool false))
  /\ (uid = uid_encapsulated_pdf ->
        exists reason,
          _ds_to_file file_path target_root w = (PyStr reason, w)
          /\ Str.contains "Encapsulated PDF" reason = true).
Proof.
  intros ds uid file_path target_root w Huid Hread.
  pose proof (gate_by_uid ds Huid) as G.
  repeat split.
  - intros ->. exact G.
  - intros ->. exact G.
  - intros N1 N2. rewrite G.
    destruct (String.eqb_spec uid uid_encapsulated_pdf); [contradiction |].
    destruct (String.eqb_spec uid uid_key_object_selection); [contradiction |].
    reflexivity.
  - intros ->. eexists. split.
    + apply unsupported_is_skipped with (ds := ds);
        [exact Hread | exact G | discriminate].
    + unfold skip_message. apply contains_app_r. reflexivity.
Qed.

(** C3: when the file decodes, the gate lets it through and the loaded
    pixel array has three axes with a last axis other than 3, the task
    returns the skip message 'Multiframe images are currently not supported'
    (so its reason names multiframe, capital letter apart); the file system
    is untouched, and the answer is the same whatever the pixel pipeline and
    its LUT steps would do, since they are not reached. *)
Theorem multiframe_is_skipped :
  forall (ds : Dataset) (raw : ndarray Z) (file_path target_root : Path.t) (w : FS),
  dcmread file_path w = Ok ds ->
  _is_unsupported ds = Ok (PyBool false) ->
  pixel_array ds = Ok raw ->
  List.length (shape raw) = 3%nat ->
  nth 2 (shape raw) 0%nat <> 3%nat ->
  exists reason,
    _ds_to_file file_path target_root w = (PyStr reason, w)
    /\ reason = skip_message file_path "Multiframe images are currently not supported"
    /\ Str.contains "multiframe" (Str.lower reason) = true
    /\ Str.contains (Path.str file_path) reason = true.
Proof.
  intros ds raw file_path target_root w Hread Hgate Hpx Hlen Hlast.
  eexists. split; [| split; [reflexivity | split]].
  - unfold _ds_to_file. rewrite _ds_to_file_try_steps, Hread, Hgate. simpl.
    rewrite Hpx.
    assert (Hm : is_multiframe (astype_float raw) = true).
    { unfold is_multiframe, astype_float, amap. simpl. rewrite Hlen. simpl.
      destruct (Nat.eqb_spec (nth 2 (shape raw) 0%nat) 3); [contradiction | reflexivity]. }
    rewrite Hm. reflexivity.
  - unfold skip_message.
    assert (L : forall a b, Str.lower (a ++ b) = (Str.lower a ++ Str.lower b)%string).
    { induction a as [| c a IH]; intros b; simpl; [reflexivity | now rewrite IH]. }
    rewrite L. apply contains_app_r. reflexivity.
  - unfold skip_message. apply contains_here.
Qed.

(** An exception of any step is the exception of the [try] block. *)
Lemma dcmread_raises (file_path target_root : Path.t) (w : FS) (e : exc) :
  dcmread file_path w = Raise e ->
  _ds_to_file_try file_path target_root w = (Raise e, w).
Proof. intros E. rewrite _ds_to_file_try_steps, E. reflexivity. Qed.

Lemma gate_raises (ds : Dataset) (file_path target_root : Path.t) (w : FS) :
  dcmread file_path w = Ok ds ->
  SOPClassUID ds = None ->
  _ds_to_file_try file_path target_root w = (Raise (AttributeError "SOPClassUID"), w).
Proof.
  intros E N. rewrite _ds_to_file_try_steps, E.
  unfold _is_unsupported. rewrite N. reflexivity.
Qed.

Lemma pixel_array_raises (ds : Dataset) (file_path target_root : Path.t)
    (w : FS) (e : exc) :
  dcmread file_path w = Ok ds ->
  _is_unsupported ds = Ok (PyBool false) ->
  pixel_array ds = Raise e ->
  _ds_to_file_try file_path target_root w = (Raise e, w).
Proof. intros E G P. rewrite _ds_to_file_try_steps, E, G. simpl. now rewrite P. Qed.

Lemma pixel_process_raises (ds : Dataset) (raw : ndarray Z)
    (file_path target_root : Path.t) (w : FS) (e : exc) :
  dcmread file_path w = Ok ds ->
  _is_unsupported ds = Ok (PyBool false) ->
  pixel_array ds = Ok raw ->
  is_multiframe (astype_float raw) = false ->
  _pixel_process ds (astype_float raw) = Raise e ->
  _ds_to_file_try file_path target_root w = (Raise e, w).
Proof.
  intros E G P M R. rewrite _ds_to_file_try_steps, E, G. simpl.
  now rewrite P, M, R.
Qed.

Lemma write_raises (ds : Dataset) (raw px px' : ndarray Z)
    (file_path target_root : Path.t) (w w1 w2 : FS) (e : exc) :
  dcmread file_path w = Ok ds ->
  _is_unsupported ds = Ok (PyBool false) ->
  pixel_array ds = Ok raw ->
  is_multiframe (astype_float raw) = false ->
  _pixel_process ds (astype_float raw) = Ok px ->
  (if is_color ds then swap_planes_0_2 px else Ok px) = Ok px' ->
  mkdir (Path.parent (_get_export_file_path ds file_path target_root)) w = (Ok tt, w1) ->
  imwrite (Path.str (_get_export_file_path ds file_path target_root)) px' w1
    = (Raise e, w2) ->
  _ds_to_file_try file_path target_root w = (Raise e, w2).
Proof.
  intros E G P M R S D I. rewrite _ds_to_file_try_steps, E, G. simpl.
  rewrite P, M, R, S. cbv zeta. now rewrite D, I.
Qed.

Lemma run_tasks_length (files : list Path.t) (target_root : Path.t) (w : FS) :
  List.length (fst (run_tasks files target_root w)) = List.length files.
Proof.
  revert w; induction files as [| f files IH]; intros w; simpl; [reflexivity |].
  destruct (_ds_to_file f target_root w) as [r w'].
  specialize (IH w'). destruct (run_tasks files target_root w') as [rs w''].
  simpl in *. now rewrite IH.
Qed.

(** C8: an exception raised inside the [try] block of a file's task, by
    whichever step, does not leave the task: the task returns the message
    'Error converting <file path>: <str(e)>', which contains the file path
    and the cause, and the tasks of the remaining files run after it, every
    file of the list getting its result. *)
Theorem task_failure_is_contained :
  forall (file_path target_root : Path.t) (w w' : FS) (e : exc),
  _ds_to_file_try file_path target_root w = (Raise e, w') ->
  _ds_to_file file_path target_root w = (PyStr (error_message file_path e), w')
  /\ Str.contains (Path.str file_path) (error_message file_path e) = true
  /\ Str.contains (exc_str e) (error_message file_path e) = true
  /\ (forall rest : list Path.t,
        fst (run_tasks (file_path :: rest) target_root w)
        = PyStr (error_message file_path e) :: fst (run_tasks rest target_root w')
        /\ List.length (fst (run_tasks (file_path :: rest) target_root w))
           = S (List.length rest)).
Proof.
  intros file_path target_root w w' e Htry.
  assert (D : _ds_to_file file_path target_root w
              = (PyStr (error_message file_path e), w')).
  { unfold _ds_to_file. now rewrite Htry. }
  split; [exact D |]. split; [| split].
  - unfold error_message. apply contains_app_r, contains_here.
  - unfold error_message. do 3 apply contains_app_r. apply contains_refl.
  - intros rest. split.
    + simpl. rewrite D.
      destruct (run_tasks rest target_root w') as [rs w'']. reflexivity.
    + apply (run_tasks_length (file_path :: rest)).
Qed.

End FileTask.

Lemma gate_names_unsupported_sop_classes_witness :
  SOPClassUID pdf_c = Some uid_encapsulated_pdf
  /\ @dcmread disk_world file_c demo_disk = Ok pdf_c
  /\ exists reason,
       @_ds_to_file disk_world plain_pydicom zero_platform file_c out_dir demo_disk
         = (PyStr reason, demo_disk)
       /\ Str.contains "Encapsulated PDF" reason = true.
Proof.
  split; [reflexivity | split; [reflexivity |]].
  apply (@gate_names_unsupported_sop_classes disk_world plain_pydicom zero_platform
           pdf_c uid_encapsulated_pdf file_c out_dir demo_disk);
    reflexivity.
Defined.

Lemma multiframe_is_skipped_witness :
  @dcmread disk_world file_d demo_disk = Ok frames_d
  /\ _is_unsupported frames_d = Ok (PyBool false)
  /\ pixel_array frames_d = Ok frames_2x2x5
  /\ List.length (shape frames_2x2x5) = 3%nat
  /\ nth 2 (shape frames_2x2x5) 0%nat <> 3%nat
  /\ exists reason,
       @_ds_to_file disk_world plain_pydicom zero_platform file_d out_dir demo_disk
         = (PyStr reason, demo_disk)
       /\ reason = skip_message file_d "Multiframe images are currently not supported"
       /\ Str.contains "multiframe" (Str.lower reason) = true
       /\ Str.contains (Path.str file_d) reason = true.
Proof.
  repeat (split; [first [reflexivity | discriminate] |]).
  apply (@multiframe_is_skipped disk_world plain_pydicom zero_platform
           frames_d frames_2x2x5 file_d out_dir demo_disk);
    first [reflexivity | discriminate].
Defined.

Lemma task_failure_is_contained_witness :
  exists e : exc,
    @_ds_to_file_try disk_world plain_pydicom zero_platform file_gone out_dir demo_disk
      = (Raise e, demo_disk)
    /\ @_ds_to_file disk_world plain_pydicom zero_platform file_gone out_dir demo_disk
       = (PyStr (error_message file_gone e), demo_disk)
    /\ fst (@run_tasks disk_world plain_pydicom zero_platform
              [file_gone; file_a] out_dir demo_disk)
       = [PyStr (error_message file_gone e); PyBool true].
Proof.
  eexists. split; [reflexivity |].
  destruct (@task_failure_is_contained disk_world plain_pydicom zero_platform
              file_gone out_dir demo_disk demo_disk _ eq_refl)
    as (D & _ & _ & R).
  split; [exact D |].
  destruct (R [file_a]) as [R1 _]. rewrite R1. reflexivity.
Defined.

(** ** The export path *)

Section ExportPath.

Lemma length_append (a b : string) :
  String.length (a ++ b) = (String.length a + String.length b)%nat.
Proof. induction a as [| c a IH]; simpl; [reflexivity | now rewrite IH]. Qed.

Lemma bmp_name_not_root (s i : string) : (s ++ "_" ++ i ++ ".bmp")%string <> "/"%string.
Proof.
  intros E. apply (f_equal String.length) in E.
  rewrite !length_append in E. simpl in E. lia.
Qed.

Lemma append_assoc (a b c : string) : (a ++ b ++ c)%string = ((a ++ b) ++ c)%string.
Proof. induction a as [| x a IH]; simpl; [reflexivity | now rewrite IH]. Qed.

Lemma join_snoc (l : list string) (f : string) :
  l <> [] -> Str.join "/" (l ++ [f]) = (Str.join "/" l ++ "/" ++ f)%string.
Proof.
  induction l as [| a l IH]; intros Hne; [contradiction |].
  destruct l as [| b l]; [reflexivity |].
  change (Str.join "/" ((a :: b :: l) ++ [f]))
    with (a ++ "/" ++ Str.join "/" ((b :: l) ++ [f]))%string.
  rewrite IH by discriminate.
  change (Str.join "/" (a :: b :: l)) with (a ++ "/" ++ Str.join "/" (b :: l))%string.
  now rewrite <- !append_assoc.
Qed.

(** The text of a child's path is the directory, a slash and the name. *)
Lemma str_div (root : Path.t) (f : string) :
  root <> [] -> root <> ["/"%string] ->
  Path.str (Path.div root [f]) = (Path.str root ++ "/" ++ f)%string.
Proof.
  intros Hne Hroot. unfold Path.div.
  destruct root as [| a rest]; [contradiction |].
  destruct (string_dec a "/") as [-> | Ha].
  - destruct rest as [| b rest]; [contradiction |].
    change (Path.str (("/"%string :: b :: rest) ++ [f]))
      with ("/" ++ Str.join "/" ((b :: rest) ++ [f]))%string.
    rewrite join_snoc by discriminate. reflexivity.
  - assert (S : forall l, l <> [] -> Path.str (a :: l)%list = Str.join "/" (a :: l)).
    { intros l _. unfold Path.str.
      destruct a as [| c a]; [reflexivity |].
      destruct c as [[] [] [] [] [] [] [] []]; try reflexivity;
        destruct a; try reflexivity; now elim Ha. }
    assert (S0 : Path.str [a] = Str.join "/" [a]).
    { unfold Path.str.
      destruct a as [| c a]; [reflexivity |].
      destruct c as [[] [] [] [] [] [] [] []]; try reflexivity;
        destruct a; try reflexivity; now elim Ha. }
    destruct rest as [| b rest].
    + change (([a] ++ [f])%list) with (a :: [f])%list.
      rewrite S by discriminate. rewrite S0. reflexivity.
    + change (((a :: b :: rest) ++ [f])%list) with (a :: ((b :: rest) ++ [f]))%list.
      rewrite S by (destruct rest; discriminate).
      rewrite (S (b :: rest)) by discriminate.
      apply (@join_snoc (a :: b :: rest) f). discriminate.
Qed.

(** C7: the export path is the target root with the one part
    '<SeriesNumber>_<InstanceNumber>.bmp' added, each number printed as
    [str()] gives it: the text it was read from, 'None' for an element that
    is present and empty, and 'Ser' or 'Ins' when reading the attribute
    raises, as it does for an attribute that is absent. So the parent of
    the path is the root, its text is 'root/name', a dataset with neither
    number gets 'Ser_Ins.bmp', and one with SeriesNumber 3 and
    InstanceNumber 12 gets '3_12.bmp' when the two are stored as '3' and
    '12' or were set as plain integers. *)
Theorem export_path_from_numbers :
  forall (ds : Dataset) (file_path target_root : Path.t),
  let series :=
    match SeriesNumber ds with Ok v => IS_str v | Raise _ => "Ser"%string end in
  let instance :=
    match InstanceNumber ds with Ok v => IS_str v | Raise _ => "Ins"%string end in
  let filename := (series ++ "_" ++ instance ++ ".bmp")%string in
  let full := _get_export_file_path ds file_path target_root in
  full = Path.div target_root [filename]
  /\ Path.parent full = target_root
  /\ Path.name full = filename
  /\ (target_root <> [] -> target_root <> ["/"%string] ->
        Path.str full = (Path.str target_root ++ "/" ++ filename)%string)
  /\ (forall e1 e2 : exc,
        SeriesNumber ds = Raise e1 -> InstanceNumber ds = Raise e2 ->
        Path.name full = "Ser_Ins.bmp"%string)
  /\ (forall s i : option string,
        SeriesNumber ds = Ok (IS 3 s) -> InstanceNumber ds = Ok (IS 12 i) ->
        s = None \/ s = Some "3"%string ->
        i = None \/ i = Some "12"%string ->
        Path.name full = "3_12.bmp"%string)
  /\ (forall (n m : Z) (s i : string),
        SeriesNumber ds = Ok (IS n (Some s)) ->
        InstanceNumber ds = Ok (IS m (Some i)) ->
        Path.name full = (s ++ "_" ++ i ++ ".bmp")%string)
  /\ (SeriesNumber ds = Ok IS_None -> series = "None"%string)
  /\ (InstanceNumber ds = Ok IS_None -> instance = "None"%string).
Proof.
  intros ds file_path target_root series instance filename full.
  assert (E : full = Path.div target_root [filename]) by reflexivity.
  assert (N : Path.name full = filename).
  { rewrite E. apply name_div, bmp_name_not_root. }
  split; [exact E |]. split; [| split; [exact N |]].
  { rewrite E. apply parent_div, bmp_name_not_root. }
  split; [intros H1 H2; rewrite E; now apply str_div |].
  split; [| split; [| split; [| split]]].
  - intros e1 e2 Hs Hi. rewrite N. unfold filename, series, instance.
    now rewrite Hs, Hi.
  - intros s i Hs Hi Ps Pi. rewrite N. unfold filename, series, instance.
    rewrite Hs, Hi. destruct Ps as [-> | ->], Pi as [-> | ->]; reflexivity.
  - intros n m s i Hs Hi. rewrite N. unfold filename, series, instance.
    now rewrite Hs, Hi.
  - intros Hs. unfold series. now rewrite Hs.
  - intros Hi. unfold instance. now rewrite Hi.
Qed.

(** C10: the export path is a function of SeriesNumber, InstanceNumber and
    the target root; the source file's path has no part in it, so two files
    with the same two numbers get the same output path. *)
Theorem export_path_ignores_source :
  forall (ds1 ds2 : Dataset) (file_path1 file_path2 target_root : Path.t),
  SeriesNumber ds1 = SeriesNumber ds2 ->
  InstanceNumber ds1 = InstanceNumber ds2 ->
  _get_export_file_path ds1 file_path1 target_root
  = _get_export_file_path ds2 file_path2 target_root.
Proof.
  intros ds1 ds2 file_path1 file_path2 target_root Hs Hi.
  unfold _get_export_file_path. now rewrite Hs, Hi.
Qed.

End ExportPath.

Lemma export_path_from_numbers_witness :
  Path.str (_get_export_file_path windowed_a file_a out_dir) = "BMP_files/3_12.bmp"%string
  /\ Path.name (_get_export_file_path pdf_c file_c out_dir) = "Ser_Ins.bmp"%string.
Proof.
  split.
  - destruct (export_path_from_numbers windowed_a file_a out_dir)
      as (_ & _ & _ & S & _).
    rewrite S by discriminate. reflexivity.
  - destruct (export_path_from_numbers pdf_c file_c out_dir)
      as (_ & _ & _ & _ & N & _).
    apply (N (AttributeError "SeriesNumber") (AttributeError "InstanceNumber"));
      reflexivity.
Defined.

(** A number is not always printed as its decimal numeral: SeriesNumber 3
    stored as '03' with InstanceNumber 12 stored as '+12' gives
    '03_+12.bmp', and a SeriesNumber that is present and empty gives
    'None_12.bmp', not 'Ser_12.bmp'. *)
Lemma export_name_prints_the_stored_text :
  SeriesNumber padded_numbers = Ok (IS 3 (Some "03"%string))
  /\ InstanceNumber padded_numbers = Ok (IS 12 (Some "+12"%string))
  /\ Path.name (_get_export_file_path padded_numbers file_a out_dir)
     = "03_+12.bmp"%string
  /\ SeriesNumber empty_series = Ok IS_None
  /\ Path.name (_get_export_file_path empty_series file_a out_dir)
     = "None_12.bmp"%string.
Proof. repeat split. Qed.

Lemma export_path_ignores_source_witness :
  file_a <> file_d
  /\ SeriesNumber windowed_a = SeriesNumber (windowed_dataset 400 40 gray_2x2)
  /\ InstanceNumber windowed_a = InstanceNumber (windowed_dataset 400 40 gray_2x2)
  /\ _get_export_file_path windowed_a file_a out_dir
     = _get_export_file_path (windowed_dataset 400 40 gray_2x2) file_d out_dir.
Proof.
  split; [discriminate | split; [reflexivity | split; [reflexivity |]]].
  apply export_path_ignores_source; reflexivity.
Defined.

(** ** The batch *)

Section Batch.

Context `{World} `{Pydicom} `{Platform}.

Lemma count_True_positive (results : list pyval) :
  (0 <? count_True results)%nat = true
  <-> exists r, In r results /\ is_True r = true.
Proof.
  unfold count_True. split.
  - intros Hc. apply Nat.ltb_lt in Hc.
    destruct (filter is_True results) as [| r rs] eqn:E; [simpl in Hc; lia |].
    exists r. apply filter_In. rewrite E. now left.
  - intros (r & Hin & Ht). apply Nat.ltb_lt.
    assert (Hf : In r (filter is_True results)) by now apply filter_In.
    destruct (filter is_True results); [contradiction | simpl; lia].
Qed.

(** Once the inputs resolve to a target root and a list of files, the
    batch returns a boolean and raises nothing; it returns [True] exactly
    when the task of at least one file returned [True]; with no file in the
    list it returns [False], prints 'No DICOM files found!' and leaves the
    file system as it was. *)
Lemma batch_returns_whether_any_succeeded :
  forall (origin : Origin) (target_root : option Path.t) (multiprocessing : bool)
         (w : FS) (root : Path.t) (files : list Path.t),
  _get_root_get_dicom_file_list origin target_root w = Ok (root, files) ->
  let run := _dicom_convertor origin target_root multiprocessing w in
  (returned run = Ok true
     <-> exists r, In r (fst (run_tasks files root w)) /\ is_True r = true)
  /\ (exists b : bool, returned run = Ok b)
  /\ (files = [] ->
        returned run = Ok false /\ fs_after run = w
        /\ printed run = ["No DICOM files found!"%string]).
Proof.
  intros origin target_root multiprocessing w root files Hlist run.
  unfold run, _dicom_convertor. rewrite Hlist.
  destruct files as [| f files].
  - simpl. split; [| split].
    + split; [discriminate | intros (r & [] & _)].
    + now exists false.
    + intros _. repeat split.
  - destruct (run_tasks (f :: files) root w) as [results w'] eqn:R.
    cbv zeta. simpl returned. split; [| split].
    + rewrite <- count_True_positive. simpl fst.
      split; [now intros [= ->] | now intros ->].
    + eexists. reflexivity.
    + discriminate.
Qed.

(** C5 on the code: the batch counts a write that failed. When the only
    file of the list is decoded and processed and [cv2.imwrite] returns
    [False] for it, which is how it reports that it wrote nothing, the
    task still returns [True]; the batch counts it, prints 'All 1 files
    converted successfully!' and returns [True], the file system being the
    one the failed write leaves. *)
Theorem batch_counts_a_write_that_failed :
  forall (origin : Origin) (target_root : option Path.t) (multiprocessing : bool)
         (w w1 w2 : FS) (root file_path : Path.t) (ds : Dataset) (img : ndarray Z),
  _get_root_get_dicom_file_list origin target_root w = Ok (root, [file_path]) ->
  ready_to_write file_path w ds img ->
  mkdir (Path.parent (_get_export_file_path ds file_path root)) w = (Ok tt, w1) ->
  imwrite (Path.str (_get_export_file_path ds file_path root)) img w1
  = (Ok false, w2) ->
  let run := _dicom_convertor origin target_root multiprocessing w in
  _ds_to_file file_path root w = (PyBool true, w2)
  /\ returned run = Ok true
  /\ fs_after run = w2
  /\ In "All 1 files converted successfully!"%string (printed run).
Proof.
  intros origin target_root multiprocessing w w1 w2 root file_path ds img
    Hlist (Rd & G & raw & px & P & Mf & R & S) D I run.
  assert (T : _ds_to_file file_path root w = (PyBool true, w2)).
  { unfold _ds_to_file. rewrite _ds_to_file_try_steps, Rd, G. simpl.
    rewrite P, Mf, R, S. cbv zeta. now rewrite D, I. }
  split; [exact T |].
  unfold run, _dicom_convertor. rewrite Hlist.
  unfold run_tasks. rewrite T. cbv zeta. cbn [returned fs_after printed].
  repeat split. apply in_or_app. right. apply in_or_app. right. now left.
Qed.

End Batch.

Lemma batch_returns_whether_any_succeeded_witness :
  @_get_root_get_dicom_file_list disk_world (OriginOne in_dir) (Some out_dir) demo_disk
    = Ok (out_dir, [file_a; file_b; file_d; file_c])
  /\ returned (@_dicom_convertor disk_world plain_pydicom zero_platform
                 (OriginOne in_dir) (Some out_dir) true demo_disk) = Ok true
  /\ returned (@_dicom_convertor disk_world plain_pydicom zero_platform
                 (OriginOne in_dir) (Some out_dir) true empty_disk) = Ok false.
Proof.
  split; [reflexivity |]. split.
  - apply (@batch_returns_whether_any_succeeded disk_world plain_pydicom zero_platform
             (OriginOne in_dir) (Some out_dir) true demo_disk
             out_dir [file_a; file_b; file_d; file_c] eq_refl).
    exists (PyBool true). split; [left |]; reflexivity.
  - apply (@batch_returns_whether_any_succeeded disk_world plain_pydicom zero_platform
             (OriginOne in_dir) (Some out_dir) true empty_disk
             out_dir [] eq_refl).
    reflexivity.
Defined.

Lemma batch_counts_a_write_that_failed_witness :
  let run := @_dicom_convertor silent_world plain_pydicom zero_platform
               (OriginOne file_b) (Some out_dir) false grey_disk in
  @_ds_to_file silent_world plain_pydicom zero_platform file_b out_dir grey_disk
  = (PyBool true, grey_disk)
  /\ returned run = Ok true
  /\ fs_after run = grey_disk
  /\ In "All 1 files converted successfully!"%string (printed run).
Proof.
  apply (@batch_counts_a_write_that_failed silent_world plain_pydicom zero_platform
           (OriginOne file_b) (Some out_dir) false grey_disk grey_disk grey_disk
           out_dir file_b grey_b (NdArray [2; 2]%nat [0; 85; 170; 255]%Z)).
  - reflexivity.
  - split; [reflexivity |]. split; [reflexivity |].
    exists gray_2x2, (NdArray [2; 2]%nat [0; 85; 170; 255]%Z).
    repeat split; vm_compute; reflexivity.
  - reflexivity.
  - reflexivity.
Defined.

(** ** The order of the floats *)

Section FloatOrder.

Lemma SFcompare_key (x y : float64) :
  SFcompare x y =
  match key x, key y with
  | Some a, Some b => Some (compare3 a b)
  | _, _ => None
  end.
Proof.
  destruct x as [sx | sx | | sx mx ex], y as [sy | sy | | sy my ey];
    try destruct sx; try destruct sy; try reflexivity.
  (* both negative: the order of the magnitudes is reversed *)
  simpl. rewrite Z.compare_opp.
  destruct (Z.compare_spec ex ey) as [-> | Hlt | Hgt].
  - rewrite Z.compare_refl. reflexivity.
  - rewrite (proj2 (Z.compare_gt_iff _ _)) by lia. reflexivity.
  - rewrite (proj2 (Z.compare_lt_iff _ _)) by lia. reflexivity.
Qed.

Lemma compare3_le (a b : Z * Z * Z) : compare3 a b <> Gt <-> le3 a b.
Proof.
  destruct a as [[a1 a2] a3], b as [[b1 b2] b3]. unfold compare3, le3.
  destruct (Z.compare_spec a1 b1); [| split; [lia | discriminate] | split; [congruence | lia]].
  destruct (Z.compare_spec a2 b2); [| split; [lia | discriminate] | split; [congruence | lia]].
  destruct (Z.compare_spec a3 b3); split; try lia; try congruence; discriminate.
Qed.

Lemma compare3_eq (a b : Z * Z * Z) : compare3 a b = Eq <-> a = b.
Proof.
  destruct a as [[a1 a2] a3], b as [[b1 b2] b3]. unfold compare3.
  destruct (Z.compare_spec a1 b1); [| split; [discriminate | intros [=]; lia] ..].
  destruct (Z.compare_spec a2 b2); [| split; [discriminate | intros [=]; lia] ..].
  destruct (Z.compare_spec a3 b3); split; try discriminate; try congruence;
    intros [=]; lia.
Qed.

Lemma fle_key (x y : float64) :
  fle x y <-> exists a b, key x = Some a /\ key y = Some b /\ le3 a b.
Proof.
  unfold fle, leb, SFleb. rewrite SFcompare_key.
  destruct (key x) as [a |], (key y) as [b |].
  - split.
    + intros Hc. exists a, b. repeat split. apply compare3_le.
      destruct (compare3 a b); congruence.
    + intros (a' & b' & E1 & E2 & Hc).
      assert (a' = a) by congruence. assert (b' = b) by congruence. subst.
      apply compare3_le in Hc. destruct (compare3 a b); congruence.
  - split; [discriminate | intros (? & ? & _ & E & _); discriminate].
  - split; [discriminate | intros (? & ? & E & _); discriminate].
  - split; [discriminate | intros (? & ? & E & _); discriminate].
Qed.

Lemma eqb_key (x y : float64) :
  eqb x y = true <-> exists a, key x = Some a /\ key y = Some a.
Proof.
  unfold eqb, SFeqb. rewrite SFcompare_key.
  destruct (key x) as [a |], (key y) as [b |].
  - split.
    + intros Hc. exists a. split; [reflexivity |]. f_equal. symmetry.
      apply compare3_eq. destruct (compare3 a b); congruence.
    + intros (a' & E1 & E2). assert (a = b) by congruence. subst b.
      now rewrite (proj2 (compare3_eq a a) eq_refl).
  - split; [discriminate | intros (? & _ & E); discriminate].
  - split; [discriminate | intros (? & E & _); discriminate].
  - split; [discriminate | intros (? & E & _); discriminate].
Qed.

Lemma le3_trans (a b c : Z * Z * Z) : le3 a b -> le3 b c -> le3 a c.
Proof.
  destruct a as [[a1 a2] a3], b as [[b1 b2] b3], c as [[c1 c2] c3].
  unfold le3. lia.
Qed.

Lemma le3_total (a b : Z * Z * Z) : le3 a b \/ le3 b a.
Proof.
  destruct a as [[a1 a2] a3], b as [[b1 b2] b3]. unfold le3. lia.
Qed.


Lemma fle_trans (x y z : float64) : fle x y -> fle y z -> fle x z.
Proof.
  rewrite !fle_key.
  intros (a & b & Ka & Kb & Hab) (b' & c & Kb' & Kc & Hbc).
  assert (b' = b) by congruence. subst b'.
  exists a, c. repeat split; trivial. now apply le3_trans with b.
Qed.

Lemma fle_total (x y : float64) :
  is_nan x = false -> is_nan y = false -> fle x y \/ fle y x.
Proof.
  intros Nx Ny. rewrite !fle_key.
  destruct (key x) as [a |] eqn:Ka; [| destruct x as [| [] | | [] ? ?]; discriminate].
  destruct (key y) as [b |] eqn:Kb; [| destruct y as [| [] | | [] ? ?]; discriminate].
  destruct (le3_total a b); [left; exists a, b | right; exists b, a]; auto.
Qed.

Lemma fle_not_nan (x y : float64) : fle x y -> is_nan x = false /\ is_nan y = false.
Proof.
  rewrite fle_key. intros (a & b & Ka & Kb & _).
  destruct x, y; try discriminate; split; reflexivity.
Qed.


Lemma eqb_fle (x y : float64) : eqb x y = true -> fle x y /\ fle y x.
Proof.
  rewrite eqb_key, !fle_key. intros (a & Ka & Kb).
  split; exists a, a; repeat split; trivial;
    destruct a as [[a1 a2] a3]; unfold le3; lia.
Qed.

(** The running minimum is below everything it has seen, unless it is NaN. *)
Lemma fold_minimum_below (l : list float64) (x : float64) :
  is_nan (fold_left minimum l x) = false ->
  fle (fold_left minimum l x) x /\ Forall (fle (fold_left minimum l x)) l.
Proof.
  revert x. induction l as [| y l IH]; intros x Hn; simpl in *.
  - split; [| constructor].
    destruct (fle_total x x Hn Hn); assumption.
  - destruct (IH _ Hn) as [Hm Hl].
    set (m := fold_left minimum l (minimum x y)) in *.
    assert (Hxy : fle m x /\ fle m y).
    { unfold minimum in Hm.
      destruct (leb x y) eqn:Lxy; simpl in Hm.
      - split; [exact Hm | now apply fle_trans with x].
      - destruct (is_nan x) eqn:Nx.
        + apply fle_not_nan in Hm. destruct Hm. congruence.
        + split; [| exact Hm].
          destruct (fle_not_nan Hm) as [_ Ny].
          destruct (fle_total x y Nx Ny) as [L | L];
            [unfold fle in L; congruence | now apply fle_trans with y]. }
    destruct Hxy. split; [assumption | now constructor].
Qed.

Lemma fold_maximum_above (l : list float64) (x : float64) :
  is_nan (fold_left maximum l x) = false ->
  fle x (fold_left maximum l x) /\ Forall (fun y => fle y (fold_left maximum l x)) l.
Proof.
  revert x. induction l as [| y l IH]; intros x Hn; simpl in *.
  - split; [| constructor].
    destruct (fle_total x x Hn Hn); assumption.
  - destruct (IH _ Hn) as [Hm Hl].
    set (m := fold_left maximum l (maximum x y)) in *.
    assert (Hxy : fle x m /\ fle y m).
    { unfold maximum in Hm.
      destruct (leb y x) eqn:Lyx; simpl in Hm.
      - split; [exact Hm | now apply fle_trans with x].
      - destruct (is_nan x) eqn:Nx.
        + apply fle_not_nan in Hm. destruct Hm. congruence.
        + split; [| exact Hm].
          destruct (fle_not_nan Hm) as [Ny _].
          destruct (fle_total x y Nx Ny) as [L | L];
            [now apply fle_trans with y | unfold fle in L; congruence]. }
    destruct Hxy. split; [assumption | now constructor].
Qed.

(** Every element lies between the minimum and the maximum of a NaN-free
    array. *)
Lemma amin_below (l : list float64) (lo : float64) :
  amin l = Ok lo -> is_nan lo = false -> Forall (fle lo) l.
Proof.
  destruct l as [| x l]; [discriminate |]. intros [= <-] Hn.
  destruct (fold_minimum_below l x Hn). now constructor.
Qed.

Lemma amax_above (l : list float64) (hi : float64) :
  amax l = Ok hi -> is_nan hi = false -> Forall (fun y => fle y hi) l.
Proof.
  destruct l as [| x l]; [discriminate |]. intros [= <-] Hn.
  destruct (fold_maximum_above l x Hn). now constructor.
Qed.

End FloatOrder.

(** ** Windowing *)

Section Windowing.

Context `{Pydicom}.

(** Two conditions and three functions: the second condition is written
    last, so it wins where both hold. *)
Lemma piecewise_elem_2_3 (c1 c2 : float64 -> bool) (f1 f2 f3 : pw_func) (x : float64) :
  piecewise_elem [c1; c2] [f1; f2; f3] x
  = if c2 x then pw_apply f2 x
    else if c1 x then pw_apply f1 x
    else pw_apply f3 x.
Proof.
  unfold piecewise_elem. simpl. destruct (c1 x), (c2 x); reflexivity.
Qed.

Lemma _get_LUT_value_LINEAR_EXACT_elementwise (arr : ndarray float64)
    (window level mn mx : float64) :
  amin (data arr) = Ok mn ->
  amax (data arr) = Ok mx ->
  _get_LUT_value_LINEAR_EXACT arr window level
  = Ok (amap (fun x =>
          if ltb (add level (div window two)) x then mx
          else if leb x (sub level (div window two)) then mn
          else add (mul (div (add (sub x level) (div window two)) window)
                        (sub mx mn)) mn) arr).
Proof.
  intros Hmin Hmax. unfold _get_LUT_value_LINEAR_EXACT.
  rewrite Hmin, Hmax. simpl. unfold piecewise. simpl. unfold amap. f_equal. f_equal.
  apply map_ext. intros x. now rewrite piecewise_elem_2_3.
Qed.

(** C2, as the code has it: with window [w] and level [l] (the first
    element of a multi-valued WindowCenter or WindowWidth), the linear-exact
    step maps every element [x > l + w/2] to the array's maximum, every
    other element with [x <= l - w/2] to the array's minimum, and every
    remaining element to [((x - l + w/2) / w * (max - min)) + min], [min]
    and [max] being those of the array the step is given. *)
Theorem linear_exact_windowing :
  forall (ds : Dataset) (arr : ndarray float64) (wc ww : DSval)
         (level window mn mx : float64),
  attr_is (VOILUTFunction ds) "SIGMOID" = false ->
  WindowCenter ds = Some wc ->
  WindowWidth ds = Some ww ->
  first_value wc = Ok level ->
  first_value ww = Ok window ->
  amin (data arr) = Ok mn ->
  amax (data arr) = Ok mx ->
  voi_step ds arr
  = Ok (amap (fun x =>
          if ltb (add level (div window two)) x then mx
          else if leb x (sub level (div window two)) then mn
          else add (mul (div (add (sub x level) (div window two)) window)
                        (sub mx mn)) mn) arr)
  /\ (forall v vs, wc = DSmulti (v :: vs) -> level = v)
  /\ (forall v vs, ww = DSmulti (v :: vs) -> window = v).
Proof.
  intros ds arr wc ww level window mn mx Hs Hc Hw Hl Hwd Hmin Hmax.
  split; [| split].
  - unfold voi_step. rewrite Hs, Hc, Hw, Hl, Hwd. simpl.
    now apply _get_LUT_value_LINEAR_EXACT_elementwise.
  - intros v vs ->. simpl in Hl. congruence.
  - intros v vs ->. simpl in Hwd. congruence.
Qed.

(** With the bounds in order, [l - w/2 <= l + w/2], no element meets both
    conditions, and the elements [x <= l - w/2] go to the minimum. *)
Lemma linear_exact_ordered_bounds (arr : ndarray float64)
    (window level mn mx : float64) :
  amin (data arr) = Ok mn ->
  amax (data arr) = Ok mx ->
  fle (sub level (div window two)) (add level (div window two)) ->
  exists out,
    _get_LUT_value_LINEAR_EXACT arr window level = Ok out
    /\ List.length (data out) = List.length (data arr)
    /\ forall i, (i < List.length (data arr))%nat ->
         let x := nth i (data arr) zero in
         let y := nth i (data out) zero in
         (leb x (sub level (div window two)) = true -> y = mn)
         /\ (ltb (add level (div window two)) x = true -> y = mx).
Proof.
  intros Hmin Hmax Hord.
  rewrite (_get_LUT_value_LINEAR_EXACT_elementwise arr window level Hmin Hmax).
  eexists. split; [reflexivity |]. unfold amap. cbn [data].
  split; [apply length_map |].
  intros i Hi.
  match goal with |- context [map ?f _] => set (F := f) end.
  assert (E : nth i (map F (data arr)) zero = F (nth i (data arr) zero)).
  { rewrite (nth_indep _ zero (F zero)) by now rewrite length_map.
    apply map_nth. }
  rewrite E. unfold F. set (x := nth i (data arr) zero).
  split.
  - intros Hlo.
    assert (Hx : fle x (add level (div window two))) by now apply fle_trans with (2 := Hord).
    destruct (ltb (add level (div window two)) x) eqn:Hhi; [| now rewrite Hlo].
    exfalso. unfold fle, leb, SFleb in Hx. unfold ltb, SFltb in Hhi.
    rewrite SFcompare_key in Hx, Hhi.
    destruct (key x) as [[[a1 a2] a3] |], (key (add level (div window two))) as [[[b1 b2] b3] |];
      try discriminate.
    unfold compare3 in Hx, Hhi.
    destruct (Z.compare_spec a1 b1), (Z.compare_spec b1 a1); try lia; try discriminate;
      destruct (Z.compare_spec a2 b2), (Z.compare_spec b2 a2); try lia; try discriminate;
      destruct (Z.compare_spec a3 b3), (Z.compare_spec b3 a3); try lia; discriminate.
  - intros Hhi. now rewrite Hhi.
Qed.

End Windowing.

Lemma linear_exact_windowing_witness :
  @voi_step plain_pydicom windowed_a (astype_float row_of_five)
  = Ok (NdArray [1; 5]%nat [of_Z 0; of_Z 0; of_Z 150; of_Z 300; of_Z 300]).
Proof.
  destruct (@linear_exact_windowing plain_pydicom windowed_a (astype_float row_of_five)
              (DSmulti [of_Z 150; of_Z 40]) (DSsingle (of_Z 100))
              (of_Z 150) (of_Z 100) (of_Z 0) (of_Z 300)
              eq_refl eq_refl eq_refl eq_refl eq_refl eq_refl eq_refl)
    as [E _].
  rewrite E. reflexivity.
Defined.

(** C2 as stated fails for a negative window width: with window -100 and
    level 150 the bounds are [lo = 200] and [hi = 100]; the element 150 is
    [<= lo], and the step maps it to the maximum 300, not to the minimum 0. *)
Lemma linear_exact_negative_window :
  let arr := astype_float row_of_five in
  let window := of_Z (-100) in
  let level := of_Z 150 in
  sub level (div window two) = of_Z 200
  /\ add level (div window two) = of_Z 100
  /\ nth 2 (data arr) zero = of_Z 150
  /\ leb (of_Z 150) (sub level (div window two)) = true
  /\ amin (data arr) = Ok (of_Z 0)
  /\ amax (data arr) = Ok (of_Z 300)
  /\ eqb (of_Z 300) (of_Z 0) = false
  /\ _get_LUT_value_LINEAR_EXACT arr window level
     = Ok (NdArray [1; 5]%nat [of_Z 0; of_Z 0; of_Z 300; of_Z 300; of_Z 300]).
Proof. repeat split. Qed.

(** ** The presentation LUT on a flat image *)

Section FlatImage.

Context `{Pydicom} `{Platform}.







End FlatImage.


(** ** Colour planes *)

Section ColourPlanes.

Lemma nth_map_seq {A : Type} (g : nat -> A) (n i : nat) (d : A) :
  (i < n)%nat -> nth i (map g (seq 0 n)) d = g i.
Proof.
  intros Hi. rewrite (nth_indep _ d (g 0%nat)) by now rewrite length_map, length_seq.
  rewrite map_nth, seq_nth by exact Hi. reflexivity.
Qed.

Lemma swap_source_rgb (p : nat) :
  swap_source 3 1 (3 * p) = (3 * p + 2)%nat
  /\ swap_source 3 1 (3 * p + 1) = (3 * p + 1)%nat
  /\ swap_source 3 1 (3 * p + 2) = (3 * p)%nat.
Proof.
  unfold swap_source. rewrite !Nat.div_1_r.
  assert (M0 : ((3 * p) mod 3 = 0)%nat) by (rewrite Nat.mul_comm; apply Nat.Div0.mod_mul).
  assert (M1 : ((3 * p + 1) mod 3 = 1)%nat).
  { rewrite Nat.add_comm, Nat.mul_comm, Nat.Div0.mod_add. reflexivity. }
  assert (M2 : ((3 * p + 2) mod 3 = 2)%nat).
  { rewrite Nat.add_comm, Nat.mul_comm, Nat.Div0.mod_add. reflexivity. }
  rewrite M0, M1, M2. simpl Nat.eqb. cbv iota. repeat split; lia.
Qed.

(** X21: on an image of shape H x W x 3 the reorder succeeds, keeps the
    shape and exchanges sample 0 and sample 2 of every pixel; sample 1
    stays. *)
Lemma swap_planes_rgb (a : ndarray Z) (h w : nat) :
  shape a = [h; w; 3%nat] ->
  exists out,
    swap_planes_0_2 a = Ok out
    /\ shape out = shape a
    /\ List.length (data out) = List.length (data a)
    /\ forall p, (3 * p + 2 < List.length (data a))%nat ->
         nth (3 * p) (data out) 0%Z = nth (3 * p + 2) (data a) 0%Z
         /\ nth (3 * p + 1) (data out) 0%Z = nth (3 * p + 1) (data a) 0%Z
         /\ nth (3 * p + 2) (data out) 0%Z = nth (3 * p) (data a) 0%Z.
Proof.
  intros Hs. unfold swap_planes_0_2. rewrite Hs. cbv iota.
  change (3 <? 3)%nat with false. cbv iota. change (size_of []) with 1%nat.
  eexists. split; [reflexivity |]. cbn [shape data].
  split; [now symmetry |]. split; [now rewrite length_map, length_seq |].
  intros p Hp. destruct (swap_source_rgb p) as (S0 & S1 & S2).
  rewrite !nth_map_seq by lia. rewrite S0, S1, S2. repeat split.
Qed.

(** An array with fewer than three axes cannot be indexed by
    [[:, :, [0, 2]]]. *)
Lemma swap_planes_2d (a : ndarray Z) (h w : nat) :
  shape a = [h; w] -> exists e, swap_planes_0_2 a = Raise e.
Proof. intros Hs. unfold swap_planes_0_2. rewrite Hs. eexists. reflexivity. Qed.

End ColourPlanes.

(** C4 on the code: the reorder is guarded by PhotometricInterpretation
    alone. A 2 x 2 array with PhotometricInterpretation 'PALETTE COLOR'
    reaches the assignment, numpy raises IndexError, and the file ends as an
    error with nothing written. *)
Lemma palette_color_on_grey_array_fails :
  is_color palette_b = true
  /\ pixel_array palette_b = Ok gray_2x2
  /\ shape gray_2x2 = [2; 2]%nat
  /\ @_pixel_process plain_pydicom zero_platform palette_b (astype_float gray_2x2)
     = Ok (NdArray [2; 2]%nat [0; 85; 170; 255]%Z)
  /\ @_ds_to_file disk_world plain_pydicom zero_platform file_b out_dir demo_disk
     = (PyStr ("Error converting DICOM_files/b.dcm: too many indices for array: "
               ++ "array is 2-dimensional, but 3 were indexed"), demo_disk).
Proof. repeat split. Qed.

(** The same image with PhotometricInterpretation 'MONOCHROME2' is written
    as it is. *)
Lemma monochrome_grey_array_is_written :
  @_ds_to_file disk_world plain_pydicom zero_platform file_b out_dir
     (disk_of [(file_b, bare_dataset uid_ct_image (Some "MONOCHROME2"%string)
                                     (Ok gray_2x2))])
  = (PyBool true,
     {| inputs := [(file_b, bare_dataset uid_ct_image (Some "MONOCHROME2"%string)
                                         (Ok gray_2x2))];
        outputs := [("BMP_files/Ser_Ins.bmp"%string,
                     NdArray [2; 2]%nat [0; 85; 170; 255]%Z)] |}).
Proof. reflexivity. Qed.

(* ------------------------------------------------------------------ *)
(** * Rounding to nearest, for the double inversion *)

Unset Implicit Arguments.

(** ** Powers of two *)

Section Powers.

Local Open Scope R_scope.

Lemma bpow_gt_0 (e : Z) : 0 < bpow e.
Proof. apply powerRZ_lt. lra. Qed.

Lemma bpow_add (a b : Z) : bpow (a + b) = bpow a * bpow b.
Proof. apply powerRZ_add. lra. Qed.

Lemma bpow_opp (e : Z) : bpow (- e) = / bpow e.
Proof. apply powerRZ_neg'. Qed.

Lemma bpow_0 : bpow 0 = 1.
Proof. reflexivity. Qed.

Lemma bpow_cancel (e : Z) : bpow e * bpow (- e) = 1.
Proof. rewrite <- bpow_add, Z.add_opp_diag_r. reflexivity. Qed.

Lemma bpow_succ (e : Z) : bpow (e + 1) = 2 * bpow e.
Proof. rewrite bpow_add. unfold bpow at 2. simpl. lra. Qed.

Lemma bpow_IZR (n : Z) : (0 <= n)%Z -> bpow n = IZR (2 ^ n).
Proof.
  intros Hn. destruct n as [| p | p]; [reflexivity | | lia].
  unfold bpow. symmetry. apply (Zpower_pos_powerRZ 2 p).
Qed.

Lemma bpow_ge_1 (n : Z) : (0 <= n)%Z -> 1 <= bpow n.
Proof.
  intros Hn. rewrite bpow_IZR by exact Hn. apply IZR_le.
  pose proof (Z.pow_pos_nonneg 2 n ltac:(lia) Hn). lia.
Qed.

Lemma bpow_le (a b : Z) : (a <= b)%Z -> bpow a <= bpow b.
Proof.
  intros Hab. replace b with (a + (b - a))%Z by lia. rewrite bpow_add.
  pose proof (bpow_gt_0 a). pose proof (bpow_ge_1 (b - a) ltac:(lia)). nra.
Qed.

Lemma bpow_lt (a b : Z) : (a < b)%Z -> bpow a < bpow b.
Proof.
  intros Hab. apply Rlt_le_trans with (bpow (a + 1)); [| apply bpow_le; lia].
  rewrite bpow_succ. pose proof (bpow_gt_0 a). lra.
Qed.

Lemma bpow_lt_inv (a b : Z) : bpow a < bpow b -> (a < b)%Z.
Proof.
  intros H. destruct (Z_lt_le_dec a b) as [L | L]; [exact L |].
  apply bpow_le in L. lra.
Qed.

(** Moving a power of two across an inequality. *)
Lemma scale_le (x y : R) (e : Z) : x <= y -> x * bpow e <= y * bpow e.
Proof. intros H. pose proof (bpow_gt_0 e). nra. Qed.

Lemma scale_lt (x y : R) (e : Z) : x < y -> x * bpow e < y * bpow e.
Proof. intros H. pose proof (bpow_gt_0 e). nra. Qed.

Lemma scale_cancel (x : R) (e : Z) : x * bpow e * bpow (- e) = x.
Proof. rewrite Rmult_assoc, bpow_cancel. lra. Qed.

Lemma scale_cancel' (x : R) (e : Z) : x * bpow (- e) * bpow e = x.
Proof. rewrite Rmult_assoc, (Rmult_comm (bpow (- e))), bpow_cancel. lra. Qed.

End Powers.

(** ** Rounding to the nearest integer *)

Section Nearest.

Local Open Scope R_scope.

Lemma Zrne_IZR (n : Z) : Zrne (IZR n) = n.
Proof.
  unfold Zrne. rewrite ZfloorZ.
  destruct (Rlt_dec (IZR n - IZR n) (/ 2)) as [_ | N]; [reflexivity | lra].
Qed.

Lemma Zrne_floor (x : R) : (Zfloor x <= Zrne x <= Zfloor x + 1)%Z.
Proof.
  unfold Zrne.
  destruct (Rlt_dec (x - IZR (Zfloor x)) (/ 2)); [lia |].
  destruct (Rlt_dec (/ 2) (x - IZR (Zfloor x))); [lia |].
  destruct (Z.even (Zfloor x)); lia.
Qed.

Lemma Zrne_le (x y : R) : x <= y -> (Zrne x <= Zrne y)%Z.
Proof.
  intros Hxy. pose proof (Zfloor_le x y Hxy) as Hf.
  destruct (Z.eq_dec (Zfloor x) (Zfloor y)) as [E | N].
  - unfold Zrne. rewrite E.
    destruct (Rlt_dec (x - IZR (Zfloor y)) (/ 2)) as [X1 | X1];
      destruct (Rlt_dec (y - IZR (Zfloor y)) (/ 2)) as [Y1 | Y1]; try lra;
      destruct (Rlt_dec (/ 2) (x - IZR (Zfloor y))) as [X2 | X2];
      destruct (Rlt_dec (/ 2) (y - IZR (Zfloor y))) as [Y2 | Y2]; try lra;
      destruct (Z.even (Zfloor y)); lia.
  - pose proof (Zrne_floor x). pose proof (Zrne_floor y). lia.
Qed.

Lemma Zrne_ge_int (x : R) (n : Z) : IZR n <= x -> (n <= Zrne x)%Z.
Proof. intros H. rewrite <- (Zrne_IZR n). now apply Zrne_le. Qed.

Lemma Zrne_le_int (x : R) (n : Z) : x <= IZR n -> (Zrne x <= n)%Z.
Proof. intros H. rewrite <- (Zrne_IZR n). now apply Zrne_le. Qed.

End Nearest.

(** ** The number of binary digits *)

Section Digits.

Lemma digits2_pos_bounds (p : positive) :
  (2 ^ (Zpos (digits2_pos p) - 1) <= Zpos p < 2 ^ Zpos (digits2_pos p))%Z.
Proof.
  induction p as [p IH | p IH |]; simpl digits2_pos.
  - rewrite Pos2Z.inj_succ.
    replace (Z.succ (Zpos (digits2_pos p)) - 1)%Z with (Zpos (digits2_pos p) - 1 + 1)%Z by lia.
    rewrite Z.pow_succ_r by lia.
    rewrite Z.pow_add_r by lia. change (2 ^ 1)%Z with 2%Z. lia.
  - rewrite Pos2Z.inj_succ.
    replace (Z.succ (Zpos (digits2_pos p)) - 1)%Z with (Zpos (digits2_pos p) - 1 + 1)%Z by lia.
    rewrite Z.pow_succ_r by lia.
    rewrite Z.pow_add_r by lia. change (2 ^ 1)%Z with 2%Z. lia.
  - simpl. lia.
Qed.

Lemma Zdigits2_bounds (m : Z) :
  (0 < m)%Z -> (2 ^ (Zdigits2 m - 1) <= m < 2 ^ Zdigits2 m)%Z.
Proof.
  destruct m as [| p | p]; try lia. intros _. apply digits2_pos_bounds.
Qed.

Lemma Zdigits2_nonneg (m : Z) : (0 <= Zdigits2 m)%Z.
Proof. destruct m; simpl; lia. Qed.

Lemma Zdigits2_pos (m : Z) : (0 < m)%Z -> (0 < Zdigits2 m)%Z.
Proof. destruct m; simpl; lia. Qed.

Lemma Zdigits2_unique (m d : Z) :
  (2 ^ (d - 1) <= m < 2 ^ d)%Z -> (0 < m)%Z -> Zdigits2 m = d.
Proof.
  intros [Hl Hu] Hm. pose proof (Zdigits2_bounds m Hm) as [Dl Du].
  pose proof (Zdigits2_pos m Hm) as Dp.
  assert (0 < d)%Z.
  { destruct (Z_lt_le_dec 0 d); [assumption |].
    destruct (Z.eq_dec d 0) as [-> | Nd]; [simpl in Hu; lia |].
    rewrite (Z.pow_neg_r 2 d) in Hu by lia. lia. }
  destruct (Z.lt_trichotomy (Zdigits2 m) d) as [L | [E | G]]; [| exact E |].
  - assert (2 ^ Zdigits2 m <= 2 ^ (d - 1))%Z by (apply Z.pow_le_mono_r; lia). lia.
  - assert (2 ^ d <= 2 ^ (Zdigits2 m - 1))%Z by (apply Z.pow_le_mono_r; lia). lia.
Qed.

Lemma Zdigits2_le (a b : Z) : (0 <= a <= b)%Z -> (Zdigits2 a <= Zdigits2 b)%Z.
Proof.
  intros [Ha Hab]. destruct (Z.eq_dec a 0) as [-> | Na]; [apply Zdigits2_nonneg |].
  pose proof (Zdigits2_bounds a ltac:(lia)) as [Al Au].
  pose proof (Zdigits2_bounds b ltac:(lia)) as [Bl Bu].
  destruct (Z_lt_le_dec (Zdigits2 b) (Zdigits2 a)) as [L | L]; [| exact L].
  assert (2 ^ Zdigits2 b <= 2 ^ (Zdigits2 a - 1))%Z.
  { apply Z.pow_le_mono_r; lia. }
  lia.
Qed.

End Digits.

(** ** The exponent of the format and rounding to nearest *)

Section Format.

Local Open Scope R_scope.

Lemma emin_val : emin = (-1074)%Z.
Proof. reflexivity. Qed.

Lemma fexp_spec (g : Z) : fexp g = Z.max (g - 53) (-1074).
Proof. reflexivity. Qed.

Lemma fexp_le (a b : Z) : (a <= b)%Z -> (fexp a <= fexp b)%Z.
Proof. rewrite !fexp_spec. lia. Qed.


Lemma cexp_mag0 (x : R) : cexp x = fexp (mag0 x).
Proof. reflexivity. Qed.

Lemma floor_scaled_nonneg (x : R) : 0 <= x -> (0 <= Zfloor (x * bpow (- emin)))%Z.
Proof.
  intros Hx. apply Zfloor_lub. change (IZR 0) with 0.
  apply Rmult_le_pos; [exact Hx | apply Rlt_le, bpow_gt_0].
Qed.

Lemma mag0_ge_emin (x : R) : (emin <= mag0 x)%Z.
Proof. unfold mag0. pose proof (Zdigits2_nonneg (Zfloor (x * bpow (- emin)))). lia. Qed.

(** [x] is below [2 ^ mag0 x], and at least [2 ^ (mag0 x - 1)] when that
    is a number of the format. *)
Lemma mag0_upper (x : R) : 0 <= x -> x < bpow (mag0 x).
Proof.
  intros Hx. unfold mag0. set (F := Zfloor (x * bpow (- emin))).
  pose proof (floor_scaled_nonneg x Hx) as HF. fold F in HF.
  pose proof (Zfloor_bound (x * bpow (- emin))) as [_ Hub]. fold F in Hub.
  assert (Hd : (F + 1 <= 2 ^ Zdigits2 F)%Z).
  { destruct (Z.eq_dec F 0) as [-> | NF]; [simpl; lia |].
    pose proof (Zdigits2_bounds F ltac:(lia)). lia. }
  apply IZR_le in Hd. rewrite plus_IZR in Hd.
  rewrite <- bpow_IZR in Hd by apply Zdigits2_nonneg.
  rewrite bpow_add.
  rewrite <- (scale_cancel' x emin).
  apply scale_lt. exact (Rlt_le_trans _ _ _ Hub Hd).
Qed.

Lemma mag0_lower (x : R) : 0 <= x -> (emin < mag0 x)%Z -> bpow (mag0 x - 1) <= x.
Proof.
  intros Hx. unfold mag0. set (F := Zfloor (x * bpow (- emin))).
  intros Hm.
  pose proof (Zfloor_bound (x * bpow (- emin))) as [Hlb _]. fold F in Hlb.
  pose proof (floor_scaled_nonneg x Hx) as HF0. fold F in HF0.
  assert (HF : (0 < F)%Z).
  { clearbody F. destruct F; simpl in Hm; lia. }
  pose proof (Zdigits2_bounds F HF) as [Hd _].
  apply IZR_le in Hd.
  rewrite <- bpow_IZR in Hd by (pose proof (Zdigits2_pos F HF); lia).
  replace (Zdigits2 F + emin - 1)%Z with (Zdigits2 F - 1 + emin)%Z by lia.
  rewrite bpow_add.
  rewrite <- (scale_cancel' x emin).
  apply scale_le. exact (Rle_trans _ _ _ Hd Hlb).
Qed.

(** The magnitude of a number between two consecutive powers of two. *)
Lemma cexp_of_bounds (x : R) (g : Z) :
  bpow (g - 1) <= x < bpow g -> cexp x = fexp g.
Proof.
  intros [Hl Hu]. pose proof (bpow_gt_0 (g - 1)) as Hp.
  assert (Hx : 0 <= x) by lra.
  rewrite cexp_mag0.
  destruct (Z_le_gt_dec g emin) as [Hg | Hg].
  - (* below the smallest normal: the floor is 0 *)
    assert (Zfloor (x * bpow (- emin)) = 0%Z) as F0.
    { apply Zfloor_eq. change (IZR 0) with 0. rewrite Rplus_0_l. split.
      - apply Rmult_le_pos; [exact Hx | apply Rlt_le, bpow_gt_0].
      - apply Rlt_le_trans with (bpow g * bpow (- emin)); [now apply scale_lt |].
        rewrite <- bpow_add. rewrite <- bpow_0. apply bpow_le. lia. }
    unfold mag0. rewrite F0. simpl Zdigits2. rewrite !fexp_spec.
    rewrite emin_val in *. lia.
  - f_equal. unfold mag0.
    set (F := Zfloor (x * bpow (- emin))).
    assert (HF : (2 ^ (g - emin - 1) <= F < 2 ^ (g - emin))%Z).
    { split.
      - apply Zfloor_lub. rewrite <- bpow_IZR by lia.
        replace (g - emin - 1)%Z with (g - 1 + - emin)%Z by lia.
        rewrite bpow_add. now apply scale_le.
      - apply lt_IZR. rewrite <- bpow_IZR by lia.
        pose proof (Zfloor_bound (x * bpow (- emin))) as [Hlb _]. fold F in Hlb.
        apply Rle_lt_trans with (1 := Hlb).
        replace (g - emin)%Z with (g + - emin)%Z by lia.
        rewrite bpow_add. now apply scale_lt. }
    assert (0 < F)%Z.
    { pose proof (Z.pow_pos_nonneg 2 (g - emin - 1) ltac:(lia) ltac:(lia)). lia. }
    rewrite (Zdigits2_unique F (g - emin)); [lia | | assumption].
    exact HF.
Qed.

(** The exponent read off a mantissa that brackets the number. *)
Lemma cexp_of_mantissa (x : R) (m e : Z) :
  (0 < m)%Z ->
  IZR m * bpow e <= x < IZR (m + 1) * bpow e ->
  cexp x = fexp (Zdigits2 m + e).
Proof.
  intros Hm [Hl Hu]. apply cexp_of_bounds.
  pose proof (Zdigits2_bounds m Hm) as [Dl Du].
  pose proof (Zdigits2_pos m Hm) as Dp.
  split.
  - apply Rle_trans with (2 := Hl).
    replace (Zdigits2 m + e - 1)%Z with (Zdigits2 m - 1 + e)%Z by lia.
    rewrite bpow_add. apply scale_le.
    rewrite bpow_IZR by lia. now apply IZR_le.
  - apply Rlt_le_trans with (1 := Hu).
    rewrite bpow_add. apply scale_le.
    rewrite bpow_IZR by lia. apply IZR_le. lia.
Qed.

Lemma cexp_le (x y : R) : 0 <= x -> x <= y -> (cexp x <= cexp y)%Z.
Proof.
  intros Hx Hxy. unfold cexp. apply fexp_le.
  apply Z.add_le_mono_r. apply Zdigits2_le. split.
  - now apply floor_scaled_nonneg.
  - apply Zfloor_le. now apply scale_le.
Qed.

Lemma cexp_ge_emin (x : R) : (emin <= cexp x)%Z.
Proof. unfold cexp. rewrite fexp_spec, emin_val. lia. Qed.

(** Rounding does not cross a number of the format. *)
Lemma RN_le_repr (x : R) (n e0 : Z) :
  x <= IZR n * bpow e0 -> (cexp x <= e0)%Z -> RN x <= IZR n * bpow e0.
Proof.
  intros Hx He. unfold RN.
  assert (E : IZR n * bpow e0 = IZR (n * 2 ^ (e0 - cexp x)) * bpow (cexp x)).
  { rewrite mult_IZR, <- bpow_IZR by lia. rewrite Rmult_assoc, <- bpow_add.
    do 2 f_equal. lia. }
  rewrite E. apply scale_le. apply IZR_le. apply Zrne_le_int.
  rewrite <- (scale_cancel (IZR (n * 2 ^ (e0 - cexp x))) (cexp x)).
  rewrite <- E. now apply scale_le.
Qed.

Lemma RN_ge_repr (x : R) (n e0 : Z) :
  IZR n * bpow e0 <= x -> (cexp x <= e0)%Z -> IZR n * bpow e0 <= RN x.
Proof.
  intros Hx He. unfold RN.
  assert (E : IZR n * bpow e0 = IZR (n * 2 ^ (e0 - cexp x)) * bpow (cexp x)).
  { rewrite mult_IZR, <- bpow_IZR by lia. rewrite Rmult_assoc, <- bpow_add.
    do 2 f_equal. lia. }
  rewrite E. apply scale_le. apply IZR_le. apply Zrne_ge_int.
  rewrite <- (scale_cancel (IZR (n * 2 ^ (e0 - cexp x))) (cexp x)).
  rewrite <- E. now apply scale_le.
Qed.

Lemma RN_repr (n e0 : Z) :
  (cexp (IZR n * bpow e0) <= e0)%Z -> RN (IZR n * bpow e0) = IZR n * bpow e0.
Proof.
  intros He. apply Rle_antisym.
  - apply RN_le_repr; [lra | exact He].
  - apply RN_ge_repr; [lra | exact He].
Qed.

Lemma RN_0 : RN 0 = 0.
Proof.
  unfold RN. rewrite Rmult_0_l. rewrite (Zrne_IZR 0). apply Rmult_0_l.
Qed.

Lemma RN_nonneg (x : R) : 0 <= x -> 0 <= RN x.
Proof.
  intros Hx. rewrite <- (Rmult_0_l (bpow (cexp x))).
  apply RN_ge_repr; [rewrite Rmult_0_l; exact Hx | lia].
Qed.

(** Rounding to nearest is monotone. *)
Lemma RN_le (x y : R) : 0 <= x -> x <= y -> RN x <= RN y.
Proof.
  intros Hx Hxy. pose proof (cexp_le x y Hx Hxy) as Hc.
  destruct (Z.eq_dec (cexp x) (cexp y)) as [E | N].
  - unfold RN. rewrite E. apply scale_le, IZR_le, Zrne_le. now apply scale_le.
  - assert (Hlt : (cexp x < cexp y)%Z) by lia.
    rewrite !cexp_mag0 in Hlt.
    pose proof (mag0_ge_emin x) as Gx. pose proof (mag0_ge_emin y) as Gy.
    assert (Hy0 : 0 <= y) by lra.
    assert (Hg : (mag0 x < mag0 y)%Z).
    { destruct (Z_lt_le_dec (mag0 x) (mag0 y)) as [L | L]; [exact L |].
      apply fexp_le in L. lia. }
    assert (Hyn : (emin + 53 < mag0 y)%Z).
    { rewrite !fexp_spec in Hlt. rewrite emin_val in *. lia. }
    apply Rle_trans with (bpow (mag0 x)).
    + rewrite <- (Rmult_1_l (bpow (mag0 x))).
      apply RN_le_repr.
      * rewrite Rmult_1_l. apply Rlt_le, mag0_upper, Hx.
      * rewrite cexp_mag0, fexp_spec. rewrite emin_val in *. lia.
    + apply Rle_trans with (bpow (mag0 y - 1)); [apply bpow_le; lia |].
      rewrite <- (Rmult_1_l (bpow (mag0 y - 1))).
      apply RN_ge_repr.
      * rewrite Rmult_1_l. apply mag0_lower; [exact Hy0 | lia].
      * rewrite cexp_mag0, fexp_spec. rewrite emin_val in *. lia.
Qed.

End Format.

(** ** Shifting a mantissa to the right *)

Section Shift.

Local Open Scope R_scope.

Lemma iter_pos_nat {A : Type} (f : A -> A) (p : positive) (x : A) :
  SpecFloat.iter_pos f p x = Nat.iter (Pos.to_nat p) f x.
Proof.
  revert x. induction p as [p IH | p IH |]; intros x; simpl SpecFloat.iter_pos.
  - rewrite !IH, Pos2Nat.inj_xI.
    replace (S (2 * Pos.to_nat p)) with (Pos.to_nat p + S (Pos.to_nat p))%nat by lia.
    rewrite Nat.iter_add, Nat.iter_succ_r. reflexivity.
  - rewrite !IH, Pos2Nat.inj_xO.
    replace (2 * Pos.to_nat p)%nat with (Pos.to_nat p + Pos.to_nat p)%nat by lia.
    rewrite Nat.iter_add. reflexivity.
  - reflexivity.
Qed.

Lemma located_bracket (x : R) (m e : Z) (l : location) :
  located x m e l -> IZR m * bpow e <= x < IZR (m + 1) * bpow e.
Proof.
  destruct l as [| c]; simpl.
  - intros ->. split; [lra |]. apply scale_lt, IZR_lt. lia.
  - intros [[H1 H2] _]. lra.
Qed.

Lemma loc_of_record_of_loc (m : Z) (l : location) :
  loc_of_shr_record (shr_record_of_loc m l) = l
  /\ shr_m (shr_record_of_loc m l) = m.
Proof. destruct l as [| []]; split; reflexivity. Qed.


Lemma loc_of_shr_record_bits (m : Z) (r s : bool) :
  loc_of_shr_record (Build_shr_record m r s) = loc_of_bits r s.
Proof. destruct r, s; reflexivity. Qed.

Lemma step_even (x : R) (e q : Z) (r s : bool) :
  located x (2 * q) e (loc_of_bits r s) ->
  located x q (e + 1) (loc_of_bits false (r || s)).
Proof.
  pose proof (bpow_gt_0 e) as Hb. pose proof (bpow_succ e) as Hs.
  destruct r, s; cbv beta iota delta [located loc_of_bits loc_of_shr_record orb];
    rewrite Hs, ?plus_IZR, ?mult_IZR;
    set (P := IZR q); clearbody P; set (b := bpow e) in *; clearbody b;
    intros H; nra.
Qed.

Lemma step_odd (x : R) (e q : Z) (r s : bool) :
  located x (2 * q + 1) e (loc_of_bits r s) ->
  located x q (e + 1) (loc_of_bits true (r || s)).
Proof.
  pose proof (bpow_gt_0 e) as Hb. pose proof (bpow_succ e) as Hs.
  destruct r, s; cbv beta iota delta [located loc_of_bits loc_of_shr_record orb];
    rewrite Hs, ?plus_IZR, ?mult_IZR;
    set (P := IZR q); clearbody P; set (b := bpow e) in *; clearbody b;
    intros H; nra.
Qed.

(** One step to the right: the mantissa is halved, the exponent grows by
    one, and the place of [x] in the new interval is the one the record
    keeps. *)
Lemma shr_1_located (x : R) (e : Z) (mrs : shr_record) :
  (0 <= shr_m mrs)%Z ->
  located x (shr_m mrs) e (loc_of_shr_record mrs) ->
  (0 <= shr_m (shr_1 mrs))%Z
  /\ located x (shr_m (shr_1 mrs)) (e + 1) (loc_of_shr_record (shr_1 mrs)).
Proof.
  destruct mrs as [m r s]. rewrite loc_of_shr_record_bits.
  cbn [shr_m]. intros Hm Hl.
  destruct m as [| [p | p |] |]; try lia;
    cbn [shr_1 shr_m]; rewrite loc_of_shr_record_bits; (split; [lia |]).
  - now apply (step_even x e 0 r s).
  - apply step_odd. now rewrite <- Pos2Z.inj_xI.
  - apply step_even. now rewrite <- Pos2Z.inj_xO.
  - now apply (step_odd x e 0 r s).
Qed.

Lemma shr_iter_located (n : nat) (x : R) (e : Z) (mrs : shr_record) :
  (0 <= shr_m mrs)%Z ->
  located x (shr_m mrs) e (loc_of_shr_record mrs) ->
  (0 <= shr_m (Nat.iter n shr_1 mrs))%Z
  /\ located x (shr_m (Nat.iter n shr_1 mrs)) (e + Z.of_nat n)
       (loc_of_shr_record (Nat.iter n shr_1 mrs)).
Proof.
  intros Hm Hl. induction n as [| n [IHm IHl]].
  - simpl Nat.iter. rewrite Z.add_0_r. now split.
  - rewrite Nat.iter_succ.
    replace (e + Z.of_nat (S n))%Z with (e + Z.of_nat n + 1)%Z by lia.
    now apply shr_1_located.
Qed.

(** [shr] by [n] places. *)
Lemma shr_located (x : R) (m e n : Z) (l : location) :
  (0 <= m)%Z -> (0 <= n)%Z ->
  located x m e l ->
  let '(mrs, e') := shr (shr_record_of_loc m l) e n in
  e' = (e + n)%Z /\ (0 <= shr_m mrs)%Z
  /\ located x (shr_m mrs) e' (loc_of_shr_record mrs).
Proof.
  intros Hm Hn Hl. destruct (loc_of_record_of_loc m l) as [L M].
  unfold shr. destruct n as [| p | p]; try lia.
  - rewrite Z.add_0_r, L, M. auto.
  - rewrite iter_pos_nat.
    destruct (shr_iter_located (Pos.to_nat p) x e (shr_record_of_loc m l)) as [A B].
    + now rewrite M.
    + now rewrite L, M.
    + rewrite positive_nat_Z in B. auto.
Qed.

End Shift.

(** ** Rounding a located number *)

Section RoundAux.

Local Open Scope R_scope.

Lemma mag0_below (x : R) (e : Z) :
  0 <= x -> x < bpow e -> (mag0 x <= Z.max e emin)%Z.
Proof.
  intros Hx Hu. unfold mag0. set (F := Zfloor (x * bpow (- emin))).
  pose proof (floor_scaled_nonneg x Hx) as HF. fold F in HF.
  destruct (Z.eq_dec F 0) as [E | NE]; [rewrite E; simpl; lia |].
  pose proof (Zdigits2_bounds F ltac:(lia)) as [Dl _].
  pose proof (Zdigits2_pos F ltac:(lia)) as Dp.
  pose proof (Zfloor_bound (x * bpow (- emin))) as [Hlb _]. fold F in Hlb.
  assert (bpow (Zdigits2 F - 1) < bpow (e + - emin)).
  { rewrite bpow_IZR by lia. apply Rle_lt_trans with (IZR F); [now apply IZR_le |].
    apply Rle_lt_trans with (1 := Hlb). rewrite bpow_add. now apply scale_lt. }
  apply bpow_lt_inv in H. lia.
Qed.

Lemma cexp_small (x : R) (e : Z) :
  0 <= x -> x < bpow e -> (e <= cexp x)%Z -> cexp x = fexp e /\ cexp x = emin.
Proof.
  intros Hx Hu He. pose proof (mag0_below x e Hx Hu) as Hm.
  pose proof (mag0_ge_emin x) as Hg.
  rewrite cexp_mag0 in *. rewrite !fexp_spec in *. rewrite emin_val in *. lia.
Qed.

Lemma shr_fexp_correct (x : R) (m e : Z) (l : location) :
  (0 <= m)%Z -> located x m e l -> (e <= cexp x)%Z ->
  let '(mrs, e') := shr_fexp prec emax m e l in
  e' = cexp x /\ (0 <= shr_m mrs)%Z
  /\ located x (shr_m mrs) e' (loc_of_shr_record mrs).
Proof.
  intros Hm Hl He. unfold shr_fexp.
  change (SpecFloat.fexp prec emax (Zdigits2 m + e)) with (fexp (Zdigits2 m + e)).
  pose proof (located_bracket x m e l Hl) as [Bl Bu].
  assert (Hc : fexp (Zdigits2 m + e) = cexp x).
  { destruct (Z.eq_dec m 0) as [-> | Nm].
    - simpl Zdigits2. rewrite Z.add_0_l. symmetry.
      change (IZR (0 + 1)) with 1 in Bu. rewrite Rmult_1_l in Bu.
      change (IZR 0) with 0 in Bl. rewrite Rmult_0_l in Bl.
      now apply cexp_small.
    - symmetry. apply cexp_of_mantissa; [lia | now split]. }
  rewrite Hc.
  pose proof (shr_located x m e (cexp x - e) l Hm ltac:(lia) Hl) as S.
  destruct (shr (shr_record_of_loc m l) e (cexp x - e)) as [mrs e'].
  destruct S as (E & M & L). split; [lia | now split].
Qed.

(** The rounded mantissa is the nearest integer, ties to even. *)
Lemma rne_located (x : R) (m e : Z) (l : location) :
  located x m e l -> round_nearest_even m l = Zrne (x * bpow (- e)).
Proof.
  intros Hl. set (y := x * bpow (- e)).
  assert (Ex : x = y * bpow e) by (unfold y; now rewrite scale_cancel').
  pose proof (bpow_gt_0 e) as Hb.
  destruct l as [| c]; simpl in Hl.
  - assert (y = IZR m) by (rewrite Ex in Hl; clearbody y; nra).
    rewrite H. simpl. now rewrite Zrne_IZR.
  - destruct Hl as [[H1 H2] H3]. rewrite plus_IZR in H2. rewrite Ex in H1, H2, H3.
    assert (Hy : IZR m < y < IZR m + 1) by (clearbody y; nra).
    assert (Hf : Zfloor y = m) by (apply Zfloor_eq; lra).
    unfold Zrne. rewrite Hf. simpl.
    destruct c.
    + assert (y = IZR m + / 2) by (clearbody y; nra).
      destruct (Rlt_dec (y - IZR m) (/ 2)); [lra |].
      destruct (Rlt_dec (/ 2) (y - IZR m)); [lra |]. reflexivity.
    + assert (y < IZR m + / 2) by (clearbody y; nra).
      destruct (Rlt_dec (y - IZR m) (/ 2)); [reflexivity | lra].
    + assert (IZR m + / 2 < y) by (clearbody y; nra).
      destruct (Rlt_dec (y - IZR m) (/ 2)); [lra |].
      destruct (Rlt_dec (/ 2) (y - IZR m)); [reflexivity | lra].
Qed.

End RoundAux.

Section RoundAuxCorrect.

Local Open Scope R_scope.

Lemma valid_finite_intro (s : bool) (m : positive) (e : Z) :
  fexp (Zpos (digits2_pos m) + e) = e -> (e <= 971)%Z -> valid (S754_finite s m e).
Proof.
  intros Hc He. unfold valid, valid_binary, SpecFloat.bounded, SpecFloat.canonical_mantissa.
  change (SpecFloat.fexp prec emax (Z.pos (digits2_pos m) + e)) with
    (fexp (Z.pos (digits2_pos m) + e)).
  rewrite Hc, Z.eqb_refl. simpl. apply Z.leb_le. exact He.
Qed.


Lemma shr_fexp_zero (e : Z) :
  shr_m (fst (shr_fexp prec emax 0 e loc_Exact)) = 0%Z.
Proof.
  unfold shr_fexp. simpl Zdigits2. rewrite Z.add_0_l.
  set (n := (SpecFloat.fexp prec emax e - e)%Z).
  destruct (Z_lt_le_dec n 0) as [Hn | Hn].
  - unfold shr. destruct n; try lia. reflexivity.
  - assert (L : located 0 0 e loc_Exact) by (simpl; lra).
    pose proof (shr_located 0 0 e n loc_Exact ltac:(lia) Hn L) as S.
    destruct (shr (shr_record_of_loc 0 loc_Exact) e n) as [mrs e'].
    destruct S as (_ & M & L'). simpl fst.
    apply located_bracket in L'. destruct L' as [Bl _].
    pose proof (bpow_gt_0 e') as Hb.
    assert (IZR (shr_m mrs) <= 0) by nra.
    apply (le_IZR _ 0) in H. lia.
Qed.

Lemma binary_round_aux_correct (sx : bool) (x : R) (mx ex : Z) (lx : location) :
  (0 <= mx)%Z -> located x mx ex lx -> (ex <= cexp x)%Z ->
  rounded sx x (binary_round_aux prec emax sx mx ex lx).
Proof.
  intros Hm Hl He. unfold binary_round_aux.
  pose proof (shr_fexp_correct x mx ex lx Hm Hl He) as S1.
  destruct (shr_fexp prec emax mx ex lx) as [mrs1 e1].
  destruct S1 as (E1 & M1 & L1).
  set (m1 := shr_m mrs1) in *. set (l1 := loc_of_shr_record mrs1) in *.
  pose proof (rne_located x m1 e1 l1 L1) as HR.
  set (M' := round_nearest_even m1 l1) in *.
  pose proof (located_bracket x m1 e1 l1 L1) as [Bl Bu].
  pose proof (bpow_gt_0 e1) as Hb1.
  assert (Hx : 0 <= x).
  { apply Rle_trans with (2 := Bl). apply Rmult_le_pos; [apply IZR_le; lia | lra]. }
  assert (HRN : RN x = IZR M' * bpow e1).
  { unfold RN. rewrite <- E1, <- HR. reflexivity. }
  assert (HM' : (m1 <= M' <= m1 + 1)%Z).
  { rewrite HR. split.
    - apply Zrne_ge_int. rewrite <- (scale_cancel (IZR m1) e1). now apply scale_le.
    - apply Zrne_le_int. rewrite <- (scale_cancel (IZR (m1 + 1)) e1).
      apply scale_le. lra. }
  assert (He1 : (emin <= e1)%Z) by (rewrite E1; apply cexp_ge_emin).
  (* the digits of the truncated mantissa *)
  assert (Hd1 : (0 < m1)%Z -> fexp (Zdigits2 m1 + e1) = e1).
  { intros P. rewrite E1 at 2. symmetry. apply cexp_of_mantissa; [exact P | now split]. }
  assert (Hz1 : m1 = 0%Z -> e1 = emin).
  { intros Z0. rewrite Z0 in Bu. change (IZR (0 + 1)) with 1 in Bu.
    rewrite Rmult_1_l in Bu.
    destruct (cexp_small x e1 Hx Bu ltac:(lia)) as [_ C]. lia. }
  clearbody M' m1 l1.
  destruct (Z.eq_dec M' 0) as [Z' | NZ'].
  - (* rounded to zero *)
    rewrite Z' in *. pose proof (shr_fexp_zero e1) as SZ.
    destruct (shr_fexp prec emax 0 e1 loc_Exact) as [mrs2 e2]. simpl in SZ.
    rewrite SZ. split; [reflexivity |]. left. split; [| now exists sx].
    rewrite HRN. apply Rmult_0_l.
  - assert (Pos' : (0 < M')%Z) by lia.
    assert (Hlow : (e1 <= fexp (Zdigits2 M' + e1))%Z).
    { destruct (Z.eq_dec m1 0) as [Z1 | N1].
      - rewrite (Hz1 Z1). rewrite fexp_spec, emin_val. lia.
      - rewrite <- (Hd1 ltac:(lia)) at 1. apply fexp_le.
        apply Z.add_le_mono_r, Zdigits2_le. lia. }
    assert (Hm1 : (m1 < 2 ^ 53)%Z).
    { destruct (Z.eq_dec m1 0) as [Z1 | N1]; [subst; lia |].
      pose proof (Hd1 ltac:(lia)) as D. rewrite fexp_spec in D.
      pose proof (Zdigits2_bounds m1 ltac:(lia)) as [_ U].
      assert (2 ^ Zdigits2 m1 <= 2 ^ 53)%Z by (apply Z.pow_le_mono_r; lia). lia. }
    destruct (Z_lt_le_dec M' (2 ^ 53)) as [Small | Big].
    + (* no carry out of the mantissa *)
      assert (Hd' : fexp (Zdigits2 M' + e1) = e1).
      { pose proof (Zdigits2_bounds M' Pos') as [L _].
        assert (Zdigits2 M' <= 53)%Z.
        { destruct (Z_le_gt_dec (Zdigits2 M') 53) as [|G]; [assumption |].
          assert (2 ^ 53 <= 2 ^ (Zdigits2 M' - 1))%Z by (apply Z.pow_le_mono_r; lia). lia. }
        rewrite fexp_spec in *. rewrite emin_val in *. lia. }
      unfold shr_fexp.
      change (SpecFloat.fexp prec emax (Zdigits2 M' + e1)) with (fexp (Zdigits2 M' + e1)).
      rewrite Hd', Z.sub_diag. simpl shr. simpl shr_m.
      destruct M' as [| p | p]; try lia.
      change (emax - prec)%Z with 971%Z.
      destruct (Z.leb_spec e1 971) as [Le | Gt].
      * split; [now apply valid_finite_intro |].
        right; left. exists p, e1. split; [reflexivity | now rewrite HRN].
      * split; [reflexivity |]. right; right. split; [reflexivity |].
        rewrite HRN.
        assert (D53 : Zdigits2 (Z.pos p) = 53%Z).
        { rewrite fexp_spec in Hd'. rewrite emin_val in *. lia. }
        pose proof (Zdigits2_bounds (Z.pos p) Pos') as [L _]. rewrite D53 in L.
        apply Rle_trans with (IZR (2 ^ 52) * bpow e1).
        -- rewrite <- bpow_IZR by lia. rewrite <- bpow_add. apply bpow_le.
           unfold emax. lia.
        -- apply scale_le. now apply IZR_le.
    + (* the mantissa became 2^53: one more shift *)
      assert (EM : M' = (2 ^ 53)%Z) by lia. rewrite EM in *.
      unfold shr_fexp.
      change (SpecFloat.fexp prec emax (Zdigits2 (2 ^ 53) + e1))
        with (fexp (Zdigits2 (2 ^ 53) + e1)).
      change (Zdigits2 (2 ^ 53)) with 54%Z.
      assert (F54 : fexp (54 + e1) = (e1 + 1)%Z).
      { rewrite fexp_spec. rewrite emin_val in *. lia. }
      rewrite F54. replace (e1 + 1 - e1)%Z with 1%Z by lia.
      change (shr (shr_record_of_loc (2 ^ 53) loc_Exact) e1 1)
        with (Build_shr_record (2 ^ 52) false false, (e1 + 1)%Z).
      change (emax - prec)%Z with 971%Z.
      assert (V : IZR (2 ^ 52) * bpow (e1 + 1) = RN x).
      { rewrite HRN, bpow_succ.
        change (2 ^ 53)%Z with (2 * 2 ^ 52)%Z. rewrite mult_IZR. ring. }
      change (2 ^ 52)%Z with (Z.pos (2 ^ 52)) in *.
      cbv beta iota delta [shr_m].
      destruct (Z.leb_spec (e1 + 1) 971) as [Le | Gt].
      * split.
        -- apply valid_finite_intro; [| exact Le].
           change (Z.pos (digits2_pos (2 ^ 52))) with 53%Z.
           rewrite fexp_spec. rewrite emin_val in *. lia.
        -- right; left. exists (2 ^ 52)%positive, (e1 + 1)%Z. split; [reflexivity | exact V].
      * split; [reflexivity |]. right; right. split; [reflexivity |].
        rewrite <- V. change (Z.pos (2 ^ 52)) with (2 ^ 52)%Z.
        rewrite <- bpow_IZR by lia. rewrite <- bpow_add. apply bpow_le.
        unfold emax. lia.
Qed.

End RoundAuxCorrect.

(** ** The arithmetic of SpecFloat on numbers of the format *)

Section Operations.

Local Open Scope R_scope.

Lemma shl_align_correct (m : positive) (e e' : Z) :
  let '(mz, ez) := shl_align m e e' in
  IZR (Zpos mz) * bpow ez = IZR (Zpos m) * bpow e /\ ez = Z.min e e'.
Proof.
  unfold shl_align. destruct (e' - e)%Z as [| d | d] eqn:D.
  - split; [reflexivity | lia].
  - split; [reflexivity | lia].
  - assert (E : e = (Z.pos d + e')%Z) by lia.
    split; [| lia].
    change (Pos.iter xO m d) with (shift_pos d m).
    rewrite shift_pos_correct, Z.pow_pos_fold, mult_IZR.
    rewrite <- bpow_IZR by lia. rewrite E, bpow_add. ring.
Qed.

(** A valid number: its exponent is the one of the format. *)
Lemma valid_finite_inv (s : bool) (m : positive) (e : Z) :
  valid (S754_finite s m e) ->
  fexp (Zpos (digits2_pos m) + e) = e /\ (e <= 971)%Z.
Proof.
  unfold valid, valid_binary, SpecFloat.bounded, SpecFloat.canonical_mantissa.
  intros H. apply andb_true_iff in H as [C B].
  apply Z.eqb_eq in C. apply Z.leb_le in B. now split.
Qed.

Lemma cexp_of_float (m : positive) (e : Z) :
  cexp (IZR (Zpos m) * bpow e) = fexp (Zpos (digits2_pos m) + e).
Proof.
  apply (cexp_of_mantissa _ (Zpos m) e); [lia |].
  split; [lra |]. apply scale_lt, IZR_lt. lia.
Qed.

(** Rounding keeps a number of the format. *)
Lemma RN_float (m : positive) (e : Z) :
  fexp (Zpos (digits2_pos m) + e) = e -> RN (IZR (Zpos m) * bpow e) = IZR (Zpos m) * bpow e.
Proof. intros C. apply RN_repr. rewrite cexp_of_float, C. lia. Qed.

Lemma rounded_float (m : positive) (e : Z) :
  valid (S754_finite false m e) ->
  rounded false (IZR (Zpos m) * bpow e) (S754_finite false m e).
Proof.
  intros V. split; [exact V |]. right; left. exists m, e. split; [reflexivity |].
  symmetry. apply RN_float. now destruct (valid_finite_inv _ _ _ V).
Qed.

Lemma binary_round_correct (s : bool) (m : positive) (e : Z) :
  rounded s (IZR (Zpos m) * bpow e) (binary_round prec emax s m e).
Proof.
  unfold binary_round.
  pose proof (shl_align_correct m e (SpecFloat.fexp prec emax (Z.pos (digits2_pos m) + e)))
    as A.
  destruct (shl_align m e _) as [mz ez]. destruct A as (V & L).
  rewrite <- V. apply binary_round_aux_correct; [lia | reflexivity | ].
  rewrite V, cexp_of_float.
  change (SpecFloat.fexp prec emax (Z.pos (digits2_pos m) + e)) with
    (fexp (Z.pos (digits2_pos m) + e)) in L. lia.
Qed.

(** [binary_normalize] on a non-negative integer mantissa. *)
Lemma binary_normalize_correct (m e : Z) :
  (0 <= m)%Z ->
  rounded false (IZR m * bpow e) (binary_normalize prec emax m e false).
Proof.
  intros Hm. destruct m as [| p | p]; try lia.
  - simpl binary_normalize. rewrite Rmult_0_l.
    split; [reflexivity |]. left. split; [apply RN_0 | now exists false].
  - apply binary_round_correct.
Qed.

End Operations.

Section Subtraction.

Local Open Scope R_scope.

Lemma F2R_finite (s : bool) (m : positive) (e : Z) :
  F2R (S754_finite s m e) = (if s then - IZR (Zpos m) else IZR (Zpos m)) * bpow e.
Proof. destruct s; reflexivity. Qed.

Lemma F2R_nonneg_sign (s : bool) (m : positive) (e : Z) :
  0 <= F2R (S754_finite s m e) -> s = false.
Proof.
  rewrite F2R_finite. destruct s; [| reflexivity]. intros H. exfalso.
  pose proof (bpow_gt_0 e). assert (0 < IZR (Zpos m)) by (apply IZR_lt; lia). nra.
Qed.

Lemma F2R_pos (m : positive) (e : Z) : 0 < F2R (S754_finite false m e).
Proof.
  rewrite F2R_finite. apply Rmult_lt_0_compat; [apply IZR_lt; lia | apply bpow_gt_0].
Qed.

Lemma valid_any_sign (s s' : bool) (m : positive) (e : Z) :
  valid (S754_finite s m e) -> valid (S754_finite s' m e).
Proof. exact (fun H => H). Qed.

Lemma IZR_cond_Zopp (s : bool) (z : Z) :
  IZR (cond_Zopp s z) = (if s then - IZR z else IZR z).
Proof. destruct s; simpl; [apply opp_IZR | reflexivity]. Qed.

(** The mantissa of [x] aligned to the smaller exponent. *)
Lemma aligned_value (m : positive) (e ez : Z) :
  (ez <= e)%Z ->
  IZR (Zpos (fst (shl_align m e ez))) * bpow ez = IZR (Zpos m) * bpow e.
Proof.
  intros H. pose proof (shl_align_correct m e ez) as A.
  destruct (shl_align m e ez) as [mz ez']. destruct A as [V E]. simpl fst.
  rewrite <- V. do 2 f_equal. lia.
Qed.

(** [x - y] for two numbers of the format with [y <= x]: the exact
    difference, rounded to nearest. *)
Lemma sub_correct (x y : float64) :
  valid x -> valid y -> is_finite x = true -> is_finite y = true ->
  F2R y <= F2R x ->
  rounded false (F2R x - F2R y) (sub x y).
Proof.
  intros Vx Vy Fx Fy Hle.
  destruct x as [sx | sx | | sx mx ex]; try discriminate;
    destruct y as [sy | sy | | sy my ey]; try discriminate.
  - (* 0 - 0 *)
    replace (F2R (S754_zero sx) - F2R (S754_zero sy)) with 0 by (simpl; lra).
    split; [destruct sx, sy; reflexivity |]. left. split; [apply RN_0 |].
    destruct sx, sy; eexists; reflexivity.
  - (* 0 - y *)
    assert (sy = true).
    { destruct sy; [reflexivity |]. pose proof (F2R_pos my ey). simpl F2R in Hle at 2. lra. }
    subst sy. simpl sub. 
    replace (F2R (S754_zero sx) - F2R (S754_finite true my ey))
      with (IZR (Zpos my) * bpow ey).
    + now apply rounded_float.
    + rewrite F2R_finite. simpl F2R. lra.
  - (* x - 0 *)
    assert (sx = false) by (apply (F2R_nonneg_sign sx mx ex); simpl F2R in Hle at 1; lra).
    subst sx. replace (sub (S754_finite false mx ex) (S754_zero sy))
      with (S754_finite false mx ex) by reflexivity.
    replace (F2R (S754_finite false mx ex) - F2R (S754_zero sy))
      with (IZR (Zpos mx) * bpow ex).
    + now apply rounded_float.
    + rewrite F2R_finite. simpl F2R. lra.
  - (* two finite numbers *)
    unfold sub, SFsub.
    set (ez := Z.min ex ey).
    set (S := (cond_Zopp sx (Z.pos (fst (shl_align mx ex ez)))
               - cond_Zopp sy (Z.pos (fst (shl_align my ey ez))))%Z).
    assert (V : IZR S * bpow ez = F2R (S754_finite sx mx ex) - F2R (S754_finite sy my ey)).
    { unfold S. rewrite minus_IZR, !IZR_cond_Zopp, !F2R_finite.
      pose proof (aligned_value mx ex ez ltac:(unfold ez; lia)) as Ax.
      pose proof (aligned_value my ey ez ltac:(unfold ez; lia)) as Ay.
      destruct sx, sy; lra. }
    rewrite <- V. apply binary_normalize_correct.
    apply le_IZR. pose proof (bpow_gt_0 ez).
    assert (0 <= IZR S * bpow ez) by (rewrite V; lra).
    change (IZR 0) with 0. clearbody S. nra.
Qed.

End Subtraction.

Section Multiplication.

Local Open Scope R_scope.

Lemma Zdigits2_mul (a b : Z) :
  (0 < a)%Z -> (0 < b)%Z -> (Zdigits2 a + Zdigits2 b - 1 <= Zdigits2 (a * b))%Z.
Proof.
  intros Ha Hb.
  pose proof (Zdigits2_bounds a Ha) as [La _].
  pose proof (Zdigits2_bounds b Hb) as [Lb _].
  pose proof (Zdigits2_bounds (a * b) ltac:(lia)) as [_ Up].
  pose proof (Zdigits2_pos a Ha). pose proof (Zdigits2_pos b Hb).
  destruct (Z_le_gt_dec (Zdigits2 a + Zdigits2 b - 1) (Zdigits2 (a * b))) as [|G];
    [assumption | exfalso].
  assert (2 ^ Zdigits2 (a * b) <= 2 ^ (Zdigits2 a - 1 + (Zdigits2 b - 1)))%Z.
  { apply Z.pow_le_mono_r; lia. }
  rewrite Z.pow_add_r in H1 by lia.
  assert (2 ^ (Zdigits2 a - 1) * 2 ^ (Zdigits2 b - 1) <= a * b)%Z.
  { apply Z.mul_le_mono_nonneg; try lia; apply Z.pow_nonneg; lia. }
  lia.
Qed.

(** [x * y] for two non-negative numbers of the format. *)
Lemma mul_correct (x y : float64) :
  valid x -> valid y -> is_finite x = true -> is_finite y = true ->
  0 <= F2R x -> 0 <= F2R y ->
  rounded false (F2R x * F2R y) (mul x y).
Proof.
  intros Vx Vy Fx Fy Px Py.
  assert (Z0 : forall s, rounded false 0 (S754_zero s)).
  { intros s. split; [reflexivity |]. left. split; [apply RN_0 | now exists s]. }
  destruct x as [sx | sx | | sx mx ex]; try discriminate;
    destruct y as [sy | sy | | sy my ey]; try discriminate;
    try (simpl F2R; rewrite ?Rmult_0_l, ?Rmult_0_r; apply Z0).
  assert (sx = false) by now apply (F2R_nonneg_sign sx mx ex).
  assert (sy = false) by now apply (F2R_nonneg_sign sy my ey).
  subst sx sy. unfold mul, SFmul. simpl xorb.
  assert (V : F2R (S754_finite false mx ex) * F2R (S754_finite false my ey)
              = IZR (Z.pos (mx * my)) * bpow (ex + ey)).
  { rewrite !F2R_finite, Pos2Z.inj_mul, mult_IZR, bpow_add. ring. }
  rewrite V. apply binary_round_aux_correct; [lia | reflexivity |].
  rewrite cexp_of_float.
  destruct (valid_finite_inv _ _ _ Vx) as [Cx _].
  destruct (valid_finite_inv _ _ _ Vy) as [Cy _].
  pose proof (Zdigits2_mul (Zpos mx) (Zpos my) ltac:(lia) ltac:(lia)) as D.
  simpl Zdigits2 in D. change (Z.pos mx * Z.pos my)%Z with (Z.pos (mx * my)) in D.
  simpl Zdigits2 in D.
  assert (0 < Z.pos (digits2_pos mx))%Z by lia.
  assert (0 < Z.pos (digits2_pos my))%Z by lia.
  rewrite fexp_spec in *. lia.
Qed.

End Multiplication.

Section Division.

Local Open Scope R_scope.

Lemma located_scale (z : R) (q e : Z) (l : location) :
  located z q 0 l -> located (z * bpow e) q e l.
Proof.
  pose proof (bpow_gt_0 e) as Hb.
  destruct l as [| c]; simpl; rewrite ?bpow_0, ?Rmult_1_r.
  - intros ->. reflexivity.
  - intros [[H1 H2] H3]. split; [split; now apply scale_lt |].
    destruct c; [now rewrite H3 | now apply scale_lt | now apply scale_lt].
Qed.

(** The remainder of a division tells where the quotient lies. *)
Lemma new_location_correct (m' m2 : Z) :
  (0 <= m')%Z -> (0 < m2)%Z ->
  located (IZR m' / IZR m2) (m' / m2) 0 (new_location m2 (m' mod m2)).
Proof.
  intros Hm' Hm2.
  pose proof (Z.div_mod m' m2 ltac:(lia)) as DM.
  pose proof (Z.mod_pos_bound m' m2 Hm2) as [R0 R1].
  set (q := (m' / m2)%Z) in *. set (r := (m' mod m2)%Z) in *.
  assert (P2 : 0 < IZR m2) by (apply IZR_lt; lia).
  set (t := IZR r / IZR m2).
  assert (Ht : t * IZR m2 = IZR r) by (unfold t; field; lra).
  assert (Ez : IZR m' / IZR m2 = IZR q + t).
  { unfold t. rewrite DM, plus_IZR, mult_IZR. field. lra. }
  rewrite Ez.
  assert (Hr0 : 0 <= IZR r) by (apply IZR_le; lia).
  assert (Hr1 : IZR r < IZR m2) by (apply IZR_lt; lia).
  assert (Tr : 0 <= t < 1) by (clearbody t q r; split; nra).
  clearbody q.
  clearbody t r.
  unfold new_location, new_location_even, new_location_odd.
  change (IntDef.Z.even m2) with (Z.even m2).
  destruct (Z.even m2) eqn:Ev; cbv beta;
    change (IntDef.Z.eqb r 0) with (Z.eqb r 0);
    change (IntDef.Z.mul 2 r) with (2 * r)%Z;
    try change (IntDef.Z.add (2 * r) 1) with (2 * r + 1)%Z;
    match goal with
    | |- context [IntDef.Z.compare ?a ?b] => change (IntDef.Z.compare a b) with (Z.compare a b)
    end;
    (destruct (Z.eq_dec r 0) as [Zr | Nr];
     [ rewrite (proj2 (Z.eqb_eq r 0) Zr);
       assert (t = 0) by (rewrite Zr in Ht; change (IZR 0) with 0 in Ht; nra);
       cbv beta iota delta [located]; rewrite bpow_0; lra
     | rewrite (proj2 (Z.eqb_neq r 0) Nr) ]).
  - assert (Pr : 0 < IZR r) by (apply IZR_lt; lia).
    assert (Pt : 0 < t) by nra.
    destruct (Z.compare_spec (2 * r) m2) as [E | L | G];
      cbv beta iota delta [located]; rewrite bpow_0, plus_IZR;
      (split; [lra |]).
    + apply (f_equal IZR) in E. rewrite mult_IZR in E. nra.
    + apply IZR_lt in L. rewrite mult_IZR in L. nra.
    + apply IZR_lt in G. rewrite mult_IZR in G. nra.
  - assert (Pr : 0 < IZR r) by (apply IZR_lt; lia).
    assert (Pt : 0 < t) by nra.
    assert (Od : (2 * r <> m2)%Z).
    { intros E. rewrite <- E in Ev. rewrite Z.even_mul in Ev. discriminate. }
    destruct (Z.compare_spec (2 * r + 1) m2) as [E | L | G];
      cbv beta iota delta [located]; rewrite bpow_0, plus_IZR;
      (split; [lra |]).
    + assert (L : (2 * r < m2)%Z) by lia.
      apply IZR_lt in L. rewrite mult_IZR in L. nra.
    + assert (L' : (2 * r < m2)%Z) by lia.
      apply IZR_lt in L'. rewrite mult_IZR in L'. nra.
    + assert (G' : (m2 < 2 * r)%Z) by lia.
      apply IZR_lt in G'. rewrite mult_IZR in G'. nra.
Qed.

End Division.

Section Quotient.

Local Open Scope R_scope.

Lemma bpow_sub (a b : Z) : bpow (a - b) = bpow a / bpow b.
Proof.
  unfold Rdiv. rewrite <- bpow_opp, <- bpow_add. f_equal.
Qed.

Lemma div_core_correct (mx : positive) (ex : Z) (my : positive) (ey : Z) :
  let X := IZR (Zpos mx) * bpow ex in
  let Y := IZR (Zpos my) * bpow ey in
  let '(q, e', l) := SFdiv_core_binary prec emax (Zpos mx) ex (Zpos my) ey in
  (0 <= q)%Z /\ located (X / Y) q e' l /\ (e' <= cexp (X / Y))%Z.
Proof.
  intros X Y. unfold SFdiv_core_binary.
  set (g := (Zdigits2 (Z.pos mx) + ex - (Zdigits2 (Z.pos my) + ey))%Z).
  change (SpecFloat.fexp prec emax g) with (fexp g).
  set (e' := Z.min (fexp g) (ex - ey)).
  set (s := (ex - ey - e')%Z).
  assert (Hs : (0 <= s)%Z) by (unfold s, e'; lia).
  assert (Es : (s + e' + ey = ex)%Z) by (unfold s; lia).
  clearbody s.
  set (m' := match s with
             | 0%Z => Z.pos mx
             | Z.pos _ => Z.shiftl (Z.pos mx) s
             | Z.neg _ => 0%Z
             end).
  assert (Hm' : m' = (Z.pos mx * 2 ^ s)%Z).
  { unfold m'. destruct s as [| p | p]; try lia.
    now rewrite Z.shiftl_mul_pow2 by lia. }
  clearbody m'.
  change (IntDef.Z.div_eucl m' (Z.pos my)) with (Z.div_eucl m' (Z.pos my)).
  pose proof (new_location_correct m' (Z.pos my)) as NL.
  unfold Z.div, Z.modulo in NL.
  destruct (Z.div_eucl m' (Z.pos my)) as [q r] eqn:DE.
  assert (P0 : (0 <= m')%Z).
  { rewrite Hm'. apply Z.mul_nonneg_nonneg; [lia | apply Z.pow_nonneg; lia]. }
  specialize (NL P0 ltac:(lia)).
  assert (Hq : (0 <= q)%Z).
  { pose proof (Z.div_pos m' (Z.pos my) P0 ltac:(lia)) as D.
    unfold Z.div in D. now rewrite DE in D. }
  pose proof (bpow_gt_0 ex) as Bx. pose proof (bpow_gt_0 ey) as By.
  assert (Px : 0 < IZR (Z.pos mx)) by (apply IZR_lt; lia).
  assert (Py : 0 < IZR (Z.pos my)) by (apply IZR_lt; lia).
  assert (V : X / Y = IZR m' / IZR (Z.pos my) * bpow e').
  { unfold X, Y. rewrite Hm', mult_IZR, <- bpow_IZR by exact Hs.
    rewrite <- Es at 1.
    rewrite !bpow_add. field. split; lra. }
  split; [exact Hq |]. split.
  - rewrite V. now apply located_scale.
  - (* enough digits in the quotient *)
    apply Z.le_trans with (fexp g); [unfold e'; lia |].
    assert (Lo : bpow (g - 1) <= X / Y).
    { pose proof (digits2_pos_bounds mx) as [Lx _].
      pose proof (digits2_pos_bounds my) as [_ Uy].
      apply IZR_le in Lx. apply IZR_lt in Uy.
      rewrite <- bpow_IZR in Lx by lia. rewrite <- bpow_IZR in Uy by lia.
      replace (g - 1)%Z with (Z.pos (digits2_pos mx) - 1 + ex - (Z.pos (digits2_pos my) + ey))%Z
        by (unfold g; simpl Zdigits2; lia).
      rewrite bpow_sub, !bpow_add.
      pose proof (bpow_gt_0 (Z.pos (digits2_pos mx) - 1)) as B1.
      pose proof (bpow_gt_0 (Z.pos (digits2_pos my))) as B2.
      set (a := bpow (Z.pos (digits2_pos mx) - 1)) in *.
      set (b := bpow (Z.pos (digits2_pos my))) in *.
      unfold X, Y.
      apply Rle_trans with (IZR (Z.pos mx) * bpow ex / (b * bpow ey)).
      - apply Rmult_le_compat_r.
        + apply Rlt_le, Rinv_0_lt_compat. clearbody a b. nra.
        + apply Rmult_le_compat_r; lra.
      - apply Rmult_le_compat_l; [clearbody a b; nra |].
        apply Rinv_le_contravar; [clearbody a b; nra |].
        apply Rmult_le_compat_r; lra. }
    rewrite <- (cexp_of_bounds (bpow (g - 1)) g).
    + apply cexp_le; [apply Rlt_le, bpow_gt_0 | exact Lo].
    + split; [lra | apply bpow_lt; lia].
Qed.

(** [x / y] for two positive numbers. *)
Lemma div_correct (mx : positive) (ex : Z) (my : positive) (ey : Z) :
  rounded false
    (F2R (S754_finite false mx ex) / F2R (S754_finite false my ey))
    (div (S754_finite false mx ex) (S754_finite false my ey)).
Proof.
  unfold div, SFdiv. rewrite !F2R_finite.
  pose proof (div_core_correct mx ex my ey) as C. cbv zeta in C.
  destruct (SFdiv_core_binary prec emax (Z.pos mx) ex (Z.pos my) ey) as [[q e'] l].
  destruct C as (Hq & Hl & He). simpl xorb.
  now apply binary_round_aux_correct.
Qed.

End Quotient.

Section Values.

Local Open Scope R_scope.

(** Of two positive numbers of the format, the one with the smaller
    exponent is the smaller one. *)
Lemma canonical_lt (m1 : positive) (e1 : Z) (m2 : positive) (e2 : Z) :
  fexp (Zpos (digits2_pos m1) + e1) = e1 ->
  fexp (Zpos (digits2_pos m2) + e2) = e2 ->
  (e1 < e2)%Z ->
  IZR (Zpos m1) * bpow e1 < IZR (Zpos m2) * bpow e2.
Proof.
  intros C1 C2 H.
  assert (D : (Zpos (digits2_pos m1) + e1 < Zpos (digits2_pos m2) + e2)%Z).
  { destruct (Z_lt_le_dec (Zpos (digits2_pos m1) + e1) (Zpos (digits2_pos m2) + e2))
      as [L | L]; [exact L |].
    apply fexp_le in L. lia. }
  pose proof (digits2_pos_bounds m1) as [_ U1].
  pose proof (digits2_pos_bounds m2) as [L2 _].
  apply IZR_lt in U1. apply IZR_le in L2.
  rewrite <- bpow_IZR in U1 by lia. rewrite <- bpow_IZR in L2 by lia.
  apply Rlt_le_trans with (bpow (Zpos (digits2_pos m1) + e1)).
  - rewrite bpow_add. now apply scale_lt.
  - apply Rle_trans with (bpow (Zpos (digits2_pos m2) - 1 + e2)); [apply bpow_le; lia |].
    rewrite bpow_add. now apply scale_le.
Qed.

(** The order of the comparison is the order of the values. *)
Lemma fle_F2R (x y : float64) :
  valid x -> valid y -> is_finite x = true -> is_finite y = true ->
  fle x y -> F2R x <= F2R y.
Proof.
  intros Vx Vy Fx Fy H. apply fle_key in H as (a & b & Ka & Kb & L).
  destruct x as [sx | sx | | sx mx ex]; try discriminate;
    destruct y as [sy | sy | | sy my ey]; try discriminate.
  - simpl. lra.
  - destruct sy; simpl in Ka, Kb; injection Ka as <-; injection Kb as <-.
    + unfold le3 in L. lia.
    + pose proof (F2R_pos my ey). change (F2R (S754_zero sx)) with 0. lra.
  - destruct sx; simpl in Ka, Kb; injection Ka as <-; injection Kb as <-.
    + pose proof (F2R_pos mx ex) as P. rewrite F2R_finite in *.
      change (F2R (S754_zero sy)) with 0. lra.
    + unfold le3 in L. lia.
  - destruct (valid_finite_inv _ _ _ Vx) as [Cx _].
    destruct (valid_finite_inv _ _ _ Vy) as [Cy _].
    pose proof (F2R_pos mx ex) as Px. pose proof (F2R_pos my ey) as Py.
    rewrite !F2R_finite in *.
    destruct sx, sy; simpl in Ka, Kb; injection Ka as <-; injection Kb as <-;
      unfold le3 in L.
    + (* both negative *)
      destruct L as [L | [_ [L | [E L]]]]; try lia.
      * pose proof (canonical_lt my ey mx ex Cy Cx ltac:(lia)). lra.
      * assert (ex = ey) by lia. subst ey.
        assert (IZR (Z.pos my) <= IZR (Z.pos mx)) by (apply IZR_le; lia).
        pose proof (bpow_gt_0 ex). nra.
    + lra.
    + lia.
    + destruct L as [L | [_ [L | [E L]]]]; try lia.
      * pose proof (canonical_lt mx ex my ey Cx Cy ltac:(lia)). lra.
      * subst ey.
        assert (IZR (Z.pos mx) <= IZR (Z.pos my)) by (apply IZR_le; lia).
        pose proof (bpow_gt_0 ex). nra.
Qed.

(** A positive value has one representation in the format. *)
Lemma valid_unique (m1 : positive) (e1 : Z) (m2 : positive) (e2 : Z) :
  valid (S754_finite false m1 e1) -> valid (S754_finite false m2 e2) ->
  IZR (Zpos m1) * bpow e1 = IZR (Zpos m2) * bpow e2 ->
  S754_finite false m1 e1 = S754_finite false m2 e2.
Proof.
  intros V1 V2 E.
  destruct (valid_finite_inv _ _ _ V1) as [C1 _].
  destruct (valid_finite_inv _ _ _ V2) as [C2 _].
  assert (e1 = e2).
  { rewrite <- C1, <- C2, <- !cexp_of_float. now rewrite E. }
  subst e2. pose proof (bpow_gt_0 e1).
  apply Rmult_eq_reg_r in E; [| lra]. apply eq_IZR in E. congruence.
Qed.

Lemma valid_below_overflow (s : bool) (m : positive) (e : Z) :
  valid (S754_finite s m e) -> IZR (Zpos m) * bpow e < bpow emax.
Proof.
  intros V. destruct (valid_finite_inv _ _ _ V) as [C B].
  pose proof (digits2_pos_bounds m) as [_ U].
  apply IZR_lt in U. rewrite <- bpow_IZR in U by lia.
  apply Rlt_le_trans with (bpow (Zpos (digits2_pos m) + e)).
  - rewrite bpow_add. now apply scale_lt.
  - apply bpow_le. rewrite fexp_spec in C. unfold emax. lia.
Qed.

(** Reading a [rounded] result that did not overflow. *)
Lemma rounded_finite (x : R) (r : float64) :
  rounded false x r -> RN x < bpow emax ->
  valid r /\ is_finite r = true /\ F2R r = RN x.
Proof.
  intros [V [[Z [s ->]] | [(m & e & -> & E) | [-> O]]]] B.
  - repeat split. simpl. lra.
  - repeat split; [exact V |]. now rewrite F2R_finite.
  - lra.
Qed.

(** The integer part of a non-negative number of the format. *)
Lemma shiftl_floor (m : positive) (e : Z) :
  Z.shiftl (Zpos m) e = Zfloor (IZR (Zpos m) * bpow e).
Proof.
  symmetry. destruct (Z_le_gt_dec 0 e) as [P | N].
  - rewrite Z.shiftl_mul_pow2 by exact P.
    rewrite bpow_IZR by exact P. rewrite <- mult_IZR. apply ZfloorZ.
  - rewrite Z.shiftl_div_pow2 by lia.
    set (k := (2 ^ (- e))%Z).
    assert (Hk : (0 < k)%Z) by (apply Z.pow_pos_nonneg; lia).
    assert (Eb : bpow e = / IZR k).
    { unfold k. rewrite <- bpow_IZR by lia. rewrite <- bpow_opp. f_equal. lia. }
    rewrite Eb. apply Zfloor_eq.
    pose proof (Z.div_mod (Zpos m) k ltac:(lia)) as DM.
    pose proof (Z.mod_pos_bound (Zpos m) k Hk) as [R0 R1].
    set (q := (Z.pos m / k)%Z) in *. set (r := (Z.pos m mod k)%Z) in *.
    assert (PK : 0 < IZR k) by (apply IZR_lt; lia).
    rewrite DM, plus_IZR, mult_IZR.
    apply IZR_le in R0. apply IZR_lt in R1.
    replace ((IZR k * IZR q + IZR r) * / IZR k) with (IZR q + IZR r * / IZR k)
      by (field; lra).
    assert (0 <= IZR r * / IZR k < 1).
    { clearbody q r k. split.
      - apply Rmult_le_pos; [exact R0 | apply Rlt_le, Rinv_0_lt_compat, PK].
      - apply (Rmult_lt_reg_r (IZR k)); [exact PK |].
        rewrite Rmult_assoc, Rinv_l by lra. lra. }
    lra.
Qed.

End Values.

(** ** The presentation LUT on numbers of the format *)

Section Constants.

Local Open Scope R_scope.

Lemma F2R_f255 : F2R f255 = 255.
Proof.
  unfold f255. rewrite F2R_finite.
  change 8972014882652160%positive with (255 * 2 ^ 45)%positive.
  change (Z.pos (255 * 2 ^ 45)) with (255 * 2 ^ 45)%Z.
  rewrite mult_IZR, <- bpow_IZR by lia. rewrite Rmult_assoc, bpow_cancel. lra.
Qed.

Lemma F2R_fone : F2R fone = 1.
Proof.
  unfold fone. rewrite F2R_finite.
  change (Z.pos 4503599627370496) with (2 ^ 52)%Z.
  rewrite <- bpow_IZR by lia. apply bpow_cancel.
Qed.

Lemma valid_f255 : valid f255.
Proof. reflexivity. Qed.

Lemma valid_fone : valid fone.
Proof. reflexivity. Qed.

Lemma cexp_below_53 (x : R) : 0 <= x -> x < bpow 53 -> (cexp x <= 0)%Z.
Proof.
  intros H0 H1. pose proof (mag0_below x 53 H0 H1) as M.
  rewrite cexp_mag0, fexp_spec. rewrite emin_val in M. lia.
Qed.

Lemma bpow_53_big : 256 < bpow 53.
Proof. rewrite bpow_IZR by lia. apply IZR_lt. reflexivity. Qed.

(** Rounding does not cross an integer, for the numbers below 256. *)
Lemma RN_le_int (x : R) (n : Z) : 0 <= x < 256 -> x <= IZR n -> RN x <= IZR n.
Proof.
  intros [H0 H1] H. rewrite <- (Rmult_1_r (IZR n)), <- bpow_0.
  apply RN_le_repr; [rewrite bpow_0; lra |].
  apply cexp_below_53; [exact H0 | pose proof bpow_53_big; lra].
Qed.

Lemma RN_ge_int (x : R) (n : Z) : 0 <= x < 256 -> IZR n <= x -> IZR n <= RN x.
Proof.
  intros [H0 H1] H. rewrite <- (Rmult_1_r (IZR n)), <- bpow_0.
  apply RN_ge_repr; [rewrite bpow_0; lra |].
  apply cexp_below_53; [exact H0 | pose proof bpow_53_big; lra].
Qed.

Lemma bpow_emax_big : 256 < bpow emax.
Proof.
  apply Rlt_le_trans with (1 := bpow_53_big). apply bpow_le. unfold emax. lia.
Qed.

End Constants.

Section MinMax.

Lemma minimum_cases (a b : float64) : minimum a b = a \/ minimum a b = b.
Proof. unfold minimum. destruct (leb a b || is_nan a); auto. Qed.

Lemma maximum_cases (a b : float64) : maximum a b = a \/ maximum a b = b.
Proof. unfold maximum. destruct (leb b a || is_nan a); auto. Qed.

Lemma fold_minimum_In (l : list float64) (x : float64) :
  In (fold_left minimum l x) (x :: l).
Proof.
  revert x. induction l as [| y l IH]; intros x; simpl fold_left; [now left |].
  destruct (IH (minimum x y)) as [E | I].
  - rewrite <- E. destruct (minimum_cases x y) as [-> | ->]; [now left | right; now left].
  - right; now right.
Qed.

Lemma fold_maximum_In (l : list float64) (x : float64) :
  In (fold_left maximum l x) (x :: l).
Proof.
  revert x. induction l as [| y l IH]; intros x; simpl fold_left; [now left |].
  destruct (IH (maximum x y)) as [E | I].
  - rewrite <- E. destruct (maximum_cases x y) as [-> | ->]; [now left | right; now left].
  - right; now right.
Qed.

Lemma amin_In (l : list float64) (lo : float64) : amin l = Ok lo -> In lo l.
Proof.
  destruct l as [| x l]; [discriminate |]. intros [= <-]. apply fold_minimum_In.
Qed.

Lemma amax_In (l : list float64) (hi : float64) : amax l = Ok hi -> In hi l.
Proof.
  destruct l as [| x l]; [discriminate |]. intros [= <-]. apply fold_maximum_In.
Qed.

Lemma amax_exists (l : list float64) : l <> [] -> exists hi, amax l = Ok hi.
Proof. destruct l; [contradiction | eexists; reflexivity]. Qed.

Lemma is_finite_not_nan (x : float64) : is_finite x = true -> is_nan x = false.
Proof. destruct x; simpl; congruence. Qed.

(** What lies between two finite numbers is finite. *)
Lemma fle_between_finite (lo x hi : float64) :
  fle lo x -> fle x hi -> is_finite lo = true -> is_finite hi = true ->
  is_finite x = true.
Proof.
  unfold fle, leb, SFleb.
  destruct x as [| [] | |]; try reflexivity;
    destruct lo as [| | | [] ? ?], hi as [| | | [] ? ?]; simpl; congruence.
Qed.

(** The maximum of samples, one of which is 255, is 255. *)
Lemma amax_255 (b : list float64) :
  Forall sample b -> In f255 b -> amax b = Ok f255.
Proof.
  intros Hs H255.
  destruct (amax_exists b) as [M HM]; [intros ->; contradiction |].
  rewrite HM. f_equal.
  pose proof (amax_In b M HM) as IM.
  rewrite Forall_forall in Hs.
  destruct (Hs M IM) as (VM & FM & BM).
  pose proof (amax_above b HM (is_finite_not_nan M FM)) as Ab.
  rewrite Forall_forall in Ab.
  pose proof (fle_F2R f255 M valid_f255 VM eq_refl FM (Ab _ H255)) as L.
  rewrite F2R_f255 in L.
  assert (E : F2R M = 255%R) by lra.
  destruct M as [s | s | | s m e]; try discriminate.
  - simpl in E. lra.
  - assert (s = false) by (apply (F2R_nonneg_sign s m e); lra). subst s.
    apply valid_unique; [exact VM | exact valid_f255 |].
    change (F2R (S754_finite false m e) = F2R f255).
    now rewrite E, F2R_f255.
Qed.

End MinMax.

Section Normalised.

Local Open Scope R_scope.

Variables (l : list float64) (lo hi : float64).
Hypothesis Hvalid : Forall valid l.
Hypothesis Hmin : amin l = Ok lo.
Hypothesis Hmax : amax l = Ok hi.

Lemma RN_1 : RN 1 = 1.
Proof.
  apply Rle_antisym.
  - apply (RN_le_int 1 1); lra.
  - apply (RN_ge_int 1 1); lra.
Qed.

Lemma RN_255 : RN 255 = 255.
Proof.
  apply Rle_antisym.
  - apply (RN_le_int 255 255); lra.
  - apply (RN_ge_int 255 255); lra.
Qed.

Lemma finite_zero_value (x : float64) :
  is_finite x = true -> F2R x = 0 -> exists s, x = S754_zero s.
Proof.
  destruct x as [s | s | | s m e]; try discriminate; intros _ H.
  - now exists s.
  - exfalso. rewrite F2R_finite in H. pose proof (bpow_gt_0 e).
    assert (0 < IZR (Zpos m)) by (apply IZR_lt; lia). destruct s; nra.
Qed.

(** A finite range comes from a finite minimum and a finite maximum. *)
Lemma finite_range_ends :
  is_finite (sub hi lo) = true -> is_finite hi = true /\ is_finite lo = true.
Proof.
  unfold sub, SFsub.
  destruct hi as [| [] | |], lo as [| [] | |]; try discriminate; split; reflexivity.
Qed.

Section FiniteEnds.

Hypothesis Fhi : is_finite hi = true.
Hypothesis Flo : is_finite lo = true.

(** Every element lies between the minimum and the maximum. *)
Lemma element_between (x : float64) :
  In x l ->
  valid x /\ is_finite x = true /\ F2R lo <= F2R x <= F2R hi.
Proof.
  intros Ix.
  pose proof (amax_In l hi Hmax) as Ihi. pose proof (amin_In l lo Hmin) as Ilo.
  pose proof (amin_below l Hmin (is_finite_not_nan lo Flo)) as Below.
  pose proof (amax_above l Hmax (is_finite_not_nan hi Fhi)) as Above.
  rewrite Forall_forall in Hvalid, Below, Above.
  assert (Fx : is_finite x = true).
  { apply (fle_between_finite lo x hi); auto. }
  repeat split; auto.
  - apply fle_F2R; auto.
  - apply fle_F2R; auto.
Qed.

Lemma range_rounded : rounded false (F2R hi - F2R lo) (sub hi lo).
Proof.
  destruct (element_between hi (amax_In l hi Hmax)) as (Vh & _ & L & _).
  destruct (element_between lo (amin_In l lo Hmin)) as (Vl & _ & _ & _).
  now apply sub_correct.
Qed.

(** The difference to the minimum is not above the range. *)
Lemma numerator_rounded (x : float64) :
  In x l ->
  rounded false (F2R x - F2R lo) (sub x lo)
  /\ 0 <= F2R x - F2R lo <= F2R hi - F2R lo.
Proof.
  intros Ix.
  destruct (element_between x Ix) as (Vx & Fx & L & U).
  destruct (element_between lo (amin_In l lo Hmin)) as (Vl & _ & _ & _).
  split; [now apply sub_correct | lra].
Qed.

End FiniteEnds.

Section PositiveRange.

Variables (sd : bool) (md : positive) (ed : Z).
Hypothesis Hd : sub hi lo = S754_finite sd md ed.

Lemma range_is_positive :
  sd = false
  /\ valid (S754_finite false md ed)
  /\ is_finite hi = true /\ is_finite lo = true
  /\ F2R (sub hi lo) = RN (F2R hi - F2R lo).
Proof.
  destruct finite_range_ends as [Fhi Flo]; [now rewrite Hd |].
  pose proof (range_rounded Fhi Flo) as R. rewrite Hd in R.
  destruct R as [V [[_ [s E]] | [(m & e & E & Val) | [E _]]]]; try discriminate E.
  injection E as -> -> ->.
  repeat split; try assumption.
  rewrite Hd, F2R_finite. exact Val.
Qed.

(** The quotient is a number from 0 to 1. *)
Lemma quotient_in_unit (x : float64) :
  In x l ->
  let q := div (sub x lo) (sub hi lo) in
  valid q /\ is_finite q = true /\ 0 <= F2R q <= 1
  /\ (F2R x = F2R lo -> F2R q = 0)
  /\ (x = hi -> F2R q = 1).
Proof.
  intros Ix q. subst q.
  destruct range_is_positive as (-> & Vd & Fhi & Flo & Fd).
  destruct (numerator_rounded Fhi Flo x Ix) as (Rn & Pn & Un).
  assert (Pd : 0 < F2R (sub hi lo)) by (rewrite Hd; apply F2R_pos).
  assert (Bd : F2R (sub hi lo) < bpow emax).
  { rewrite Hd, F2R_finite. now apply valid_below_overflow with false. }
  assert (Mn : RN (F2R x - F2R lo) <= F2R (sub hi lo)).
  { rewrite Fd. apply RN_le; lra. }
  destruct (rounded_finite _ _ Rn ltac:(lra)) as (Vn & Fn & En).
  assert (Pn' : 0 <= F2R (sub x lo)) by (rewrite En; apply RN_nonneg; lra).
  destruct (sub x lo) as [sn | sn | | sn mn en] eqn:En'; try discriminate Fn.
  - (* 0 / d *)
    rewrite Hd. simpl. repeat split; try reflexivity; try lra.
    intros ->. exfalso. rewrite Hd in En'. discriminate En'.
  - assert (sn = false) by now apply (F2R_nonneg_sign sn mn en).
    subst sn. rewrite Hd in *. pose proof (div_correct mn en md ed) as Rq.
    pose proof (F2R_pos mn en) as Pn''.
    set (n := F2R (S754_finite false mn en)) in *.
    set (d := F2R (S754_finite false md ed)) in *.
    assert (Q1 : 0 < n / d <= 1).
    { split.
      - apply Rdiv_lt_0_compat; assumption.
      - apply (Rmult_le_reg_r d); [exact Pd |].
        unfold Rdiv. rewrite Rmult_assoc, Rinv_l by lra. lra. }
    assert (Q2 : RN (n / d) <= 1).
    { rewrite <- RN_1. apply RN_le; lra. }
    pose proof bpow_emax_big as Big.
    destruct (rounded_finite _ _ Rq ltac:(lra)) as (Vq & Fq & Eq).
    repeat split; try assumption.
    + rewrite Eq. apply RN_nonneg. lra.
    + rewrite Eq. exact Q2.
    + intros E. exfalso. rewrite E, Rminus_diag, RN_0 in En. lra.
    + intros ->. rewrite Hd in En'. injection En' as -> ->. rewrite Eq.
      replace (n / d) with 1; [apply RN_1 |].
      subst n d. field. lra.
Qed.

(** The elements of the normalised array are samples. *)
Lemma normalise_sample (x : float64) : In x l -> sample (normalise lo hi x).
Proof.
  intros Ix.
  destruct (quotient_in_unit x Ix) as (Vt & Ft & Bt & _).
  unfold normalise.
  pose proof (mul_correct _ f255 Vt valid_f255 Ft eq_refl (proj1 Bt)
                ltac:(rewrite F2R_f255; lra)) as Rm.
  rewrite F2R_f255 in Rm.
  assert (M255 : RN (F2R (div (sub x lo) (sub hi lo)) * 255) <= 255).
  { rewrite <- RN_255 at 2. apply RN_le; lra. }
  pose proof bpow_emax_big as Big.
  destruct (rounded_finite _ _ Rm ltac:(lra)) as (Va & Fa & Ea).
  unfold sample. repeat split; try assumption.
  - rewrite Ea. apply RN_nonneg. lra.
  - rewrite Ea. exact M255.
Qed.

Lemma normalise_value (x : float64) :
  In x l ->
  F2R (normalise lo hi x) = RN (F2R (div (sub x lo) (sub hi lo)) * 255).
Proof.
  intros Ix.
  destruct (quotient_in_unit x Ix) as (Vt & Ft & Bt & _).
  unfold normalise.
  pose proof (mul_correct _ f255 Vt valid_f255 Ft eq_refl (proj1 Bt)
                ltac:(rewrite F2R_f255; lra)) as Rm.
  rewrite F2R_f255 in Rm.
  assert (M255 : RN (F2R (div (sub x lo) (sub hi lo)) * 255) <= 255).
  { rewrite <- RN_255 at 2. apply RN_le; lra. }
  pose proof bpow_emax_big as Big.
  now destruct (rounded_finite _ _ Rm ltac:(lra)) as (Va & Fa & Ea).
Qed.

(** The minimum becomes 0. *)
Lemma normalise_lo : F2R (normalise lo hi lo) = 0.
Proof.
  pose proof (amin_In l lo Hmin) as Ilo.
  rewrite (normalise_value lo Ilo).
  destruct (quotient_in_unit lo Ilo) as (_ & _ & _ & Z & _).
  rewrite (Z eq_refl), Rmult_0_l. apply RN_0.
Qed.

(** A sample of value 255 is the number 255. *)
Lemma sample_255 (y : float64) : sample y -> F2R y = 255 -> y = f255.
Proof.
  intros (V & F & B) E.
  destruct y as [s | s | | s m e]; try discriminate F.
  - simpl in E. lra.
  - assert (s = false) by (apply (F2R_nonneg_sign s m e); lra). subst s.
    apply valid_unique; [exact V | exact valid_f255 |].
    rewrite F2R_finite in E. rewrite E. symmetry.
    pose proof F2R_f255 as E5. unfold f255 in E5. rewrite F2R_finite in E5. exact E5.
Qed.

(** The maximum becomes 255. *)
Lemma normalise_hi : normalise lo hi hi = f255.
Proof.
  pose proof (amax_In l hi Hmax) as Ihi.
  apply sample_255; [now apply normalise_sample |].
  rewrite (normalise_value hi Ihi).
  destruct (quotient_in_unit hi Ihi) as (_ & _ & _ & _ & O).
  rewrite (O eq_refl), Rmult_1_l. apply RN_255.
Qed.

End PositiveRange.

(** Without a positive range, every element is NaN or zero, and the one at
    the maximum is NaN. *)
Lemma normalise_degenerate (x : float64) :
  (forall s m e, sub hi lo <> S754_finite s m e) ->
  In x l -> nan_or_zero (normalise lo hi x).
Proof.
  intros Hd Ix. unfold normalise.
  destruct (sub hi lo) as [s | s | | s m e] eqn:Ed.
  - (* a zero range: the numerator is zero as well *)
    destruct finite_range_ends as [Fhi Flo]; [now rewrite Ed |].
    pose proof (range_rounded Fhi Flo) as R. rewrite Ed in R.
    destruct (numerator_rounded Fhi Flo x Ix) as (Rn & Pn & Un).
    pose proof bpow_emax_big as Big. pose proof RN_0 as R0.
    assert (Z : RN (F2R hi - F2R lo) = 0).
    { destruct R as [_ [[Z _] | [(m & e & E & _) | [E _]]]];
        [exact Z | discriminate E | discriminate E]. }
    assert (Zn : RN (F2R x - F2R lo) = 0).
    { apply Rle_antisym; [rewrite <- Z; apply RN_le; lra | apply RN_nonneg; lra]. }
    destruct (rounded_finite _ _ Rn ltac:(lra)) as (_ & Fn & En).
    rewrite Zn in En. destruct (finite_zero_value _ Fn En) as [sn ->].
    left. reflexivity.
  - destruct (sub x lo) as [sn | sn | | sn mn en].
    + right. eexists. reflexivity.
    + left. reflexivity.
    + left. reflexivity.
    + right. eexists. reflexivity.
  - left. destruct (sub x lo); reflexivity.
  - exfalso. now apply (Hd s m e).
Qed.

Lemma normalise_degenerate_hi :
  (forall s m e, sub hi lo <> S754_finite s m e) ->
  normalise lo hi hi = S754_nan.
Proof.
  intros Hd.
  destruct (normalise_degenerate hi Hd (amax_In l hi Hmax)) as [E | [s E]];
    [exact E | exfalso].
  unfold normalise in E.
  destruct (sub hi lo) as [sd | sd | | sd md ed];
    try (now apply (Hd sd md ed)); try destruct sd; cbv in E; discriminate E.
Qed.

End Normalised.

Section Inversion.

Local Open Scope R_scope.

(** [255 - y] on a sample. *)
Lemma invert_sample (y : float64) :
  sample y ->
  sample (sub f255 y) /\ F2R (sub f255 y) = RN (255 - F2R y).
Proof.
  intros (V & F & B).
  pose proof (sub_correct f255 y valid_f255 V eq_refl F
                ltac:(rewrite F2R_f255; lra)) as R.
  rewrite F2R_f255 in R.
  assert (U : RN (255 - F2R y) <= 255).
  { apply (RN_le_int _ 255); lra. }
  pose proof bpow_emax_big as Big.
  destruct (rounded_finite _ _ R ltac:(lra)) as (Vr & Fr & Er).
  repeat split; try assumption.
  - rewrite Er. apply RN_nonneg. lra.
  - rewrite Er. exact U.
Qed.

Lemma invert_zero (y : float64) : sample y -> F2R y = 0 -> sub f255 y = f255.
Proof.
  intros S Z. destruct (invert_sample y S) as [Si E].
  apply sample_255; [exact Si |].
  rewrite E, Z, Rminus_0_r. apply RN_255.
Qed.

(** Inverting twice moves a sample by less than one unit and keeps it
    between the integers around it. *)
Lemma double_inversion_bound (y : float64) :
  sample y ->
  (Zfloor (F2R y) <= Zfloor (F2R (sub f255 (sub f255 y))) <= Zfloor (F2R y) + 1)%Z.
Proof.
  intros S. pose proof S as (V & F & B).
  destruct (invert_sample y S) as [S1 E1].
  destruct (invert_sample _ S1) as [S2 E2].
  pose proof S1 as (_ & _ & B1).
  set (k := Zfloor (F2R y)).
  pose proof (Zfloor_bound (F2R y)) as [K1 K2]. fold k in K1, K2.
  rewrite <- plus_IZR in K2.
  (* the first inversion lies between 254 - k and 255 - k *)
  assert (L1 : IZR (254 - k) <= F2R (sub f255 y) <= IZR (255 - k)).
  { rewrite E1. split.
    - apply RN_ge_int; [lra |]. rewrite minus_IZR. rewrite plus_IZR in K2. lra.
    - apply RN_le_int; [lra |]. rewrite minus_IZR. lra. }
  rewrite !minus_IZR in L1.
  (* the second between k and k + 1 *)
  assert (L2 : IZR k <= F2R (sub f255 (sub f255 y)) <= IZR (k + 1)).
  { rewrite E2. split.
    - apply RN_ge_int; lra.
    - apply RN_le_int; [lra |]. rewrite plus_IZR. lra. }
  split.
  - apply Zfloor_lub. tauto.
  - rewrite <- (ZfloorZ (k + 1)). apply Zfloor_le. tauto.
Qed.

End Inversion.

Section Quantised.

Context `{Platform}.

Local Open Scope Z_scope.

(** [astype('uint8')] on a sample truncates. *)
Lemma uint8_of_sample (y : float64) :
  sample y -> uint8_of_float y = Zfloor (F2R y).
Proof.
  intros (V & F & B). unfold uint8_of_float.
  assert (T : trunc y = Some (Zfloor (F2R y))).
  { destruct y as [s | s | | s m e]; try discriminate F.
    - simpl. now rewrite (ZfloorZ 0).
    - assert (s = false) by (apply (F2R_nonneg_sign s m e); tauto). subst s.
      unfold trunc. rewrite F2R_finite. simpl cond_Zopp. now rewrite shiftl_floor. }
  rewrite T.
  assert (0 <= Zfloor (F2R y) <= 255) as [L U].
  { split.
    - apply Zfloor_lub. tauto.
    - rewrite <- (ZfloorZ 255). apply Zfloor_le. tauto. }
  apply Z.leb_le in L, U. now rewrite L, U.
Qed.

Lemma uint8_of_zero (s : bool) : uint8_of_float (S754_zero s) = 0.
Proof. reflexivity. Qed.

Lemma uint8_of_nan : uint8_of_float S754_nan = cast_undefined S754_nan.
Proof. reflexivity. Qed.

Lemma double_inversion_sample (y : float64) :
  sample y ->
  Z.abs (uint8_of_float (sub f255 (sub f255 y)) - uint8_of_float y) <= 1.
Proof.
  intros S.
  destruct (invert_sample y S) as [S1 _]. destruct (invert_sample _ S1) as [S2 _].
  rewrite (uint8_of_sample _ S), (uint8_of_sample _ S2).
  pose proof (double_inversion_bound y S). lia.
Qed.

End Quantised.

Section NanWins.

Lemma maximum_nan_l (b : float64) : maximum S754_nan b = S754_nan.
Proof. unfold maximum. now rewrite orb_true_r. Qed.

Lemma maximum_nan_r (a : float64) : maximum a S754_nan = S754_nan.
Proof. destruct a as [| [] | |]; reflexivity. Qed.

Lemma fold_maximum_nan (l : list float64) : fold_left maximum l S754_nan = S754_nan.
Proof.
  induction l as [| y l IH]; simpl; [reflexivity |]. now rewrite maximum_nan_l.
Qed.

Lemma fold_maximum_has_nan (l : list float64) (x : float64) :
  In S754_nan (x :: l) -> fold_left maximum l x = S754_nan.
Proof.
  revert x. induction l as [| y l IH]; intros x [E | I].
  - now subst x.
  - contradiction.
  - subst x. apply fold_maximum_nan.
  - simpl. apply IH. destruct I as [E | I].
    + subst y. left. apply maximum_nan_r.
    + now right.
Qed.

(** [np.max] of an array with a NaN is NaN. *)
Lemma amax_has_nan (l : list float64) : In S754_nan l -> amax l = Ok S754_nan.
Proof.
  destruct l as [| x l]; [contradiction |]. intros I. simpl. f_equal.
  now apply fold_maximum_has_nan.
Qed.

Lemma sub_nan_l (x : float64) : sub S754_nan x = S754_nan.
Proof. reflexivity. Qed.

End NanWins.

Section DoubleInversion.

Context `{Platform}.

Lemma presentation_step_inv (arr a : ndarray float64) :
  presentation_step arr = Ok a ->
  exists lo hi, amin (data arr) = Ok lo /\ amax (data arr) = Ok hi
    /\ a = amap (normalise lo hi) arr.
Proof.
  unfold presentation_step.
  destruct (amin (data arr)) as [lo | e] eqn:Hmin; [| discriminate].
  destruct (amax (data arr)) as [hi | e] eqn:Hmax; [| discriminate].
  simpl. intros [= <-]. now exists lo, hi.
Qed.

Lemma Forall2_map_same {A B C : Type} (P : B -> C -> Prop)
    (f : A -> B) (g : A -> C) (l : list A) :
  (forall x, In x l -> P (f x) (g x)) -> Forall2 P (map f l) (map g l).
Proof.
  induction l as [| x l IH]; intros Hl; simpl; constructor.
  - apply Hl. now left.
  - apply IH. intros y Iy. apply Hl. now right.
Qed.

Lemma Forall_map_in {A B : Type} (P : B -> Prop) (f : A -> B) (l : list A) :
  (forall x, In x l -> P (f x)) -> Forall P (map f l).
Proof.
  intros Hl. apply Forall_forall. intros y Iy.
  apply in_map_iff in Iy as (x & <- & Ix). now apply Hl.
Qed.

(** C9: on a MONOCHROME1 image, inverting the normalised array twice and
    quantising gives, element by element, a value within 1 of the quantised
    normalised array.  Where the normalised array holds NaN next to zeros
    (a range that overflows), the values are those of the platform's
    conversion of NaN, which is then to give 0 or 1, as the usual ones do. *)
Theorem double_inversion_within_one
    (ds : Dataset) (arr a : ndarray float64) :
  attr_is (PhotometricInterpretation ds) "MONOCHROME1" = true ->
  Forall valid (data arr) ->
  presentation_step arr = Ok a ->
  (Z.abs (cast_undefined S754_nan) <= 1)%Z
    \/ Forall (fun v => is_nan v = false) (data a) ->
  exists inv1 inv2 : ndarray float64,
    inversion_step ds a = Ok inv1
    /\ inversion_step ds inv1 = Ok inv2
    /\ shape (astype_uint8 inv2) = shape (astype_uint8 a)
    /\ Forall2 (fun q q' : Z => (Z.abs (q' - q) <= 1)%Z)
         (data (astype_uint8 a)) (data (astype_uint8 inv2)).
Proof.
  intros Hmono Hvalid Hpres Hnan.
  destruct (presentation_step_inv _ _ Hpres) as (lo & hi & Hmin & Hmax & ->).
  unfold inversion_step. rewrite Hmono.
  set (l := data arr) in *.
  pose proof (amax_In l hi Hmax) as Ihi. pose proof (amin_In l lo Hmin) as Ilo.
  change (data (amap (normalise lo hi) arr)) with (map (normalise lo hi) l) in *.
  destruct (sub hi lo) as [sd | sd | | sd md ed] eqn:Ed.
  4: {
    (* a positive range: samples from 0 to 255 *)
    pose proof (normalise_sample l lo hi Hvalid Hmin Hmax sd md ed Ed) as HS.
    assert (M1 : amax (map (normalise lo hi) l) = Ok f255).
    { apply amax_255; [now apply Forall_map_in |].
      apply in_map_iff. exists hi. split; [| exact Ihi].
      exact (normalise_hi l lo hi Hvalid Hmin Hmax sd md ed Ed). }
    rewrite M1. cbn [bind].
    exists (amap (fun x => sub f255 x) (amap (normalise lo hi) arr)).
    change (data (amap (fun x => sub f255 x) (amap (normalise lo hi) arr)))
      with (map (fun x => sub f255 x) (map (normalise lo hi) l)).
    assert (M2 : amax (map (fun x => sub f255 x) (map (normalise lo hi) l)) = Ok f255).
    { apply amax_255.
      - apply Forall_map_in. intros y Iy. apply invert_sample.
        apply in_map_iff in Iy as (x & <- & Ix). now apply HS.
      - apply in_map_iff. exists (normalise lo hi lo). split.
        + apply invert_zero; [now apply HS |].
          exact (normalise_lo l lo hi Hvalid Hmin Hmax sd md ed Ed).
        + now apply in_map. }
    rewrite M2. cbn [bind].
    eexists. split; [reflexivity |]. split; [reflexivity |].
    split; [reflexivity |].
    unfold astype_uint8, amap; cbn [data]. fold l. rewrite !map_map.
    apply Forall2_map_same. intros x Ix.
    apply double_inversion_sample. now apply HS. }
  all: assert (Hd : forall s m e, sub hi lo <> S754_finite s m e)
         by (intros s m e; rewrite Ed; discriminate).
  all: clear Ed; try clear sd.
  all: pose proof (normalise_degenerate_hi l lo hi Hvalid Hmin Hmax Hd) as Nhi.
  all: assert (Inan : In S754_nan (map (normalise lo hi) l))
         by (apply in_map_iff; exists hi; now split).
  all: rewrite (amax_has_nan _ Inan); cbn [bind].
  all: exists (amap (fun x => sub S754_nan x) (amap (normalise lo hi) arr)).
  all: change (data (amap (fun x => sub S754_nan x) (amap (normalise lo hi) arr)))
         with (map (fun x => sub S754_nan x) (map (normalise lo hi) l)).
  all: assert (Inan' : In S754_nan
                         (map (fun x => sub S754_nan x) (map (normalise lo hi) l)))
         by (apply in_map_iff; exists S754_nan; now split).
  all: rewrite (amax_has_nan _ Inan'); cbn [bind].
  all: eexists; split; [reflexivity |]; split; [reflexivity |].
  all: split; [reflexivity |].
  all: unfold astype_uint8, amap; cbn [data]; fold l; rewrite !map_map.
  all: apply Forall2_map_same; intros x Ix.
  all: change (uint8_of_float (sub S754_nan (sub S754_nan (normalise lo hi x))))
         with (cast_undefined S754_nan).
  all: destruct (normalise_degenerate l lo hi Hvalid Hmin Hmax x Hd Ix) as [-> | [s ->]].
  all: try (change (uint8_of_float S754_nan) with (cast_undefined S754_nan);
            rewrite Z.sub_diag; simpl; lia).
  all: change (uint8_of_float (S754_zero s)) with 0%Z; rewrite Z.sub_0_r.
  all: destruct Hnan as [Hc | Hf]; [exact Hc | exfalso].
  all: rewrite Forall_forall in Hf; specialize (Hf _ Inan); discriminate Hf.
Qed.

End DoubleInversion.

Lemma double_inversion_within_one_witness :
  exists inv1 inv2 : ndarray float64,
    inversion_step xray_e normalised_row = Ok inv1
    /\ inversion_step xray_e inv1 = Ok inv2
    /\ shape (@astype_uint8 zero_platform inv2)
       = shape (@astype_uint8 zero_platform normalised_row)
    /\ Forall2 (fun q q' : Z => (Z.abs (q' - q) <= 1)%Z)
         (data (@astype_uint8 zero_platform normalised_row))
         (data (@astype_uint8 zero_platform inv2)).
Proof.
  apply (@double_inversion_within_one zero_platform xray_e
           (astype_float row_of_five) normalised_row).
  - reflexivity.
  - repeat constructor.
  - reflexivity.
  - left. simpl. lia.
Defined.

(* ------------------------------------------------------------------ *)
(** * Further properties of the code *)

(** ** The list of input files *)

Section Sorting.

Lemma path_leb_total (p q : Path.t) : Path.leb p q = false -> Path.leb q p = true.
Proof.
  revert q. induction p as [| a p IH]; intros [| b q]; simpl; try discriminate;
    try reflexivity.
  rewrite (String.compare_antisym b a).
  destruct (String.compare a b); simpl; try discriminate; auto.
Qed.

Lemma insert_perm (x : Path.t) (l : list Path.t) :
  Permutation (x :: l) (Path.insert x l).
Proof.
  induction l as [| y l IH]; simpl; [reflexivity |].
  destruct (Path.leb x y); [reflexivity |].
  rewrite perm_swap. now constructor.
Qed.

Lemma sort_perm (l : list Path.t) : Permutation l (Path.sort l).
Proof.
  induction l as [| x l IH]; simpl; [constructor |].
  rewrite <- insert_perm. now constructor.
Qed.

Lemma insert_hd (x a : Path.t) (l : list Path.t) :
  path_le a x -> HdRel path_le a l -> HdRel path_le a (Path.insert x l).
Proof.
  intros Hax Hl. destruct l as [| y l]; simpl; [now constructor |].
  destruct (Path.leb x y); constructor; [exact Hax | now inversion Hl].
Qed.

Lemma insert_sorted (x : Path.t) (l : list Path.t) :
  Sorted path_le l -> Sorted path_le (Path.insert x l).
Proof.
  induction 1 as [| y l Hs IH Hh]; simpl; [repeat constructor |].
  destruct (Path.leb x y) eqn:E.
  - constructor; [now constructor | now constructor].
  - constructor; [exact IH |].
    apply insert_hd; [now apply path_leb_total | exact Hh].
Qed.

Lemma sort_sorted (l : list Path.t) : Sorted path_le (Path.sort l).
Proof.
  induction l as [| x l IH]; simpl; [constructor | now apply insert_sorted].
Qed.

End Sorting.

Section StringFacts.

Lemma length_lower (s : string) : String.length (Str.lower s) = String.length s.
Proof. induction s as [| c s IH]; simpl; [reflexivity | now rewrite IH]. Qed.

Lemma substring_lower (i k : nat) (s : string) :
  substring i k (Str.lower s) = Str.lower (substring i k s).
Proof.
  revert i k. induction s as [| c s IH]; intros [| i] [| k]; simpl;
    try reflexivity; now rewrite IH.
Qed.

Lemma length_substring (i k : nat) (s : string) :
  (i + k <= String.length s)%nat -> String.length (substring i k s) = k.
Proof.
  revert i k. induction s as [| c s IH]; intros [| i] [| k]; simpl; intros L;
    try reflexivity; try lia.
  - rewrite IH; [reflexivity | lia].
  - apply IH. lia.
  - apply IH. lia.
Qed.

Lemma rfind_dot_bound (s : string) (i : nat) :
  Str.rfind_dot s = Some i -> (i < String.length s)%nat.
Proof.
  revert i. induction s as [| c s IH]; intros i; simpl; [discriminate |].
  destruct (Str.rfind_dot s) as [j |].
  - intros [= <-]. specialize (IH j eq_refl). lia.
  - destruct (Ascii.eqb c "."); [intros [= <-]; lia | discriminate].
Qed.

(** A path with the suffix [.dcm], in whatever case, has a name that ends
    in [.dcm], in whatever case. *)
Lemma dcm_suffix_dcm_name (p : Path.t) :
  Str.lower (Path.suffix p) = ".dcm"%string -> is_dcm_name (Path.name p) = true.
Proof.
  unfold Path.suffix, is_dcm_name, Str.endswith. cbv zeta.
  set (n := Path.name p).
  destruct (Str.rfind_dot n) as [i |] eqn:R; [| discriminate].
  pose proof (rfind_dot_bound n i R) as B.
  destruct ((0 <? i)%nat && (i <? String.length n - 1)%nat); [| discriminate].
  intros E.
  assert (L : (String.length n - i = 4)%nat).
  { rewrite <- (length_substring i (String.length n - i) n) by lia.
    rewrite <- length_lower, E. reflexivity. }
  rewrite length_lower. simpl String.length.
  replace (String.length n - 4)%nat with i by lia.
  rewrite substring_lower. rewrite <- L, E.
  apply andb_true_intro. split; [apply Nat.leb_le; lia | reflexivity].
Qed.

End StringFacts.

Section FileList.

Context `{World} `{Pydicom} `{Platform}.

(** The loop only appends to the list it is given. *)
Lemma collect_acc (origins acc : list Path.t) (w : FS) :
  collect origins acc w
  = match collect origins [] w with
    | Ok found => Ok (acc ++ found)
    | Raise e => Raise e
    end.
Proof.
  revert acc. induction origins as [| o rest IH]; intros acc; simpl.
  - now rewrite app_nil_r.
  - destruct (path_exists o w); simpl; [| reflexivity].
    destruct (is_file o w).
    + destruct (String.eqb (Str.lower (Path.suffix o)) ".dcm"); simpl; [| reflexivity].
      rewrite (IH (acc ++ [o])), (IH [o]).
      destruct (collect rest [] w); [now rewrite app_assoc | reflexivity].
    + destruct (is_dir o w).
      * rewrite (IH (acc ++ walk_dcm o w)), (IH (walk_dcm o w)).
        destruct (collect rest [] w); [now rewrite app_assoc | reflexivity].
      * apply IH.
Qed.

Lemma collect_missing (origins acc : list Path.t) (w : FS) (p : Path.t) :
  In p origins -> path_exists p w = false ->
  exists e, collect origins acc w = Raise e.
Proof.
  revert acc. induction origins as [| o rest IH]; intros acc I E; [contradiction |].
  simpl. destruct (path_exists o w) eqn:Eo; simpl; [| eexists; reflexivity].
  destruct I as [-> | I]; [congruence |].
  destruct (is_file o w).
  - destruct (String.eqb (Str.lower (Path.suffix o)) ".dcm"); simpl;
      [now apply IH | eexists; reflexivity].
  - destruct (is_dir o w); now apply IH.
Qed.

Lemma collect_wrong_type (origins acc : list Path.t) (w : FS) (p : Path.t) :
  In p origins -> is_file p w = true ->
  Str.lower (Path.suffix p) <> ".dcm"%string ->
  exists e, collect origins acc w = Raise e.
Proof.
  revert acc. induction origins as [| o rest IH]; intros acc I F S; [contradiction |].
  simpl. destruct (path_exists o w) eqn:Eo; simpl; [| eexists; reflexivity].
  destruct I as [-> | I].
  - rewrite F. destruct (String.eqb_spec (Str.lower (Path.suffix p)) ".dcm");
      [contradiction | eexists; reflexivity].
  - destruct (is_file o w).
    + destruct (String.eqb (Str.lower (Path.suffix o)) ".dcm"); simpl;
        [now apply IH | eexists; reflexivity].
    + destruct (is_dir o w); now apply IH.
Qed.

Lemma listing_raises (origin : Origin) (target_root : option Path.t) (w : FS) (e : exc) :
  collect (origin_list origin) [] w = Raise e ->
  _get_root_get_dicom_file_list origin target_root w = Raise e.
Proof. unfold _get_root_get_dicom_file_list. now intros ->. Qed.

Lemma run_of_failed_listing (origin : Origin) (target_root : option Path.t)
    (multiprocessing : bool) (w : FS) (e : exc) :
  _get_root_get_dicom_file_list origin target_root w = Raise e ->
  dicom2bmp origin target_root multiprocessing w = Build_Run (Raise e) w [].
Proof. unfold dicom2bmp, _dicom_convertor. now intros ->. Qed.

(** X1: when an origin does not exist, the listing raises and the run
    raises with it: no file is converted, not even those of the origins
    that exist, and nothing is printed. For a single origin the exception
    is the [OSError] that names the path. *)
Theorem missing_origin_stops_the_run
    (origin : Origin) (target_root : option Path.t) (multiprocessing : bool)
    (w : FS) (p : Path.t) :
  In p (origin_list origin) ->
  path_exists p w = false ->
  (exists e,
     _get_root_get_dicom_file_list origin target_root w = Raise e
     /\ dicom2bmp origin target_root multiprocessing w = Build_Run (Raise e) w [])
  /\ (origin = OriginOne p ->
      _get_root_get_dicom_file_list origin target_root w
      = Raise (Exc "OSError"
                 ("File or folder '" ++ Path.str p ++ "' does not exist"))).
Proof.
  intros I E. split.
  - destruct (collect_missing (origin_list origin) [] w p I E) as [e He].
    exists e. pose proof (listing_raises origin target_root w e He) as L.
    split; [exact L | now apply run_of_failed_listing].
  - intros ->. apply listing_raises. simpl. now rewrite E.
Qed.

(** X2: an origin that is an existing file is accepted only with the suffix
    [.dcm], compared without regard to case; any other file makes the
    listing raise, and for a single origin the exception is the one with
    the message 'Input file type should be a DICOM file'. *)
Theorem file_origin_needs_dcm_suffix
    (origin : Origin) (target_root : option Path.t) (multiprocessing : bool)
    (w : FS) (p : Path.t) :
  In p (origin_list origin) ->
  path_exists p w = true ->
  is_file p w = true ->
  Str.lower (Path.suffix p) <> ".dcm"%string ->
  (exists e,
     _get_root_get_dicom_file_list origin target_root w = Raise e
     /\ dicom2bmp origin target_root multiprocessing w = Build_Run (Raise e) w [])
  /\ (origin = OriginOne p ->
      _get_root_get_dicom_file_list origin target_root w
      = Raise (Exc "Exception" "Input file type should be a DICOM file")).
Proof.
  intros I E F S. split.
  - destruct (collect_wrong_type (origin_list origin) [] w p I F S) as [e He].
    exists e. pose proof (listing_raises origin target_root w e He) as L.
    split; [exact L | now apply run_of_failed_listing].
  - intros ->. apply listing_raises. simpl. rewrite E, F. simpl.
    destruct (String.eqb_spec (Str.lower (Path.suffix p)) ".dcm");
      [contradiction | reflexivity].
Qed.

End FileList.

Section FileListContents.

Context `{World} `{Pydicom} `{Platform}.

Lemma walk_dcm_In (o : Path.t) (w : FS) (f : Path.t) :
  In f (walk_dcm o w)
  <-> exists (rf : Path.t * list string) (name : string),
        In rf (walk o w) /\ In name (snd rf) /\ is_dcm_name name = true
        /\ f = Path.div (fst rf) [name].
Proof.
  unfold walk_dcm. rewrite in_flat_map. split.
  - intros (rf & Irf & If). apply in_map_iff in If as (name & <- & In').
    apply filter_In in In' as [In' D]. now exists rf, name.
  - intros (rf & name & Irf & In' & D & ->). exists rf. split; [exact Irf |].
    apply in_map_iff. exists name. split; [reflexivity |].
    apply filter_In. now split.
Qed.

(** When every origin exists and every file among them has the suffix, the
    loop finds the wanted files and no other. *)
Lemma collect_In (origins found : list Path.t) (w : FS) :
  collect origins [] w = Ok found ->
  forall f, In f found <-> wanted_file origins w f.
Proof.
  revert found. induction origins as [| o rest IH]; intros found; simpl.
  - intros [= <-] f. split; [contradiction |].
    intros [(I & _) | (o & rf & name & I & _)]; contradiction.
  - destruct (path_exists o w); simpl; [| discriminate].
    destruct (is_file o w) eqn:F.
    + destruct (String.eqb_spec (Str.lower (Path.suffix o)) ".dcm") as [S | S];
        simpl; [| discriminate].
      rewrite collect_acc.
      destruct (collect rest [] w) as [found' |] eqn:C; [| discriminate].
      intros [= <-] f. specialize (IH found' eq_refl f).
      simpl. rewrite IH. unfold wanted_file. split.
      * intros [<- | [(I & Ff & Sf) | (o' & rf & name & I & R)]].
        -- left. repeat split; [now left | exact F | exact S].
        -- left. repeat split; [now right | exact Ff | exact Sf].
        -- right. exists o', rf, name. split; [now right | exact R].
      * intros [([<- | I] & Ff & Sf) | (o' & rf & name & [<- | I] & Fo & R)].
        -- now left.
        -- right. left. now repeat split.
        -- congruence.
        -- right. right. now exists o', rf, name.
    + destruct (is_dir o w) eqn:D.
      * rewrite collect_acc.
        destruct (collect rest [] w) as [found' |] eqn:C; [| discriminate].
        intros [= <-] f. specialize (IH found' eq_refl f).
        rewrite in_app_iff, IH, walk_dcm_In. unfold wanted_file. split.
        -- intros [(rf & name & R) | [(I & Ff & Sf) | (o' & rf & name & I & R)]].
           ++ right. exists o, rf, name. split; [now left | now repeat split].
           ++ left. repeat split; [now right | exact Ff | exact Sf].
           ++ right. exists o', rf, name. split; [now right | exact R].
        -- intros [([<- | I] & Ff & Sf) | (o' & rf & name & [<- | I] & Fo & Do & R)].
           ++ congruence.
           ++ right. left. now repeat split.
           ++ left. now exists rf, name.
           ++ right. right. now exists o', rf, name.
      * intros C f. rewrite (IH found C f). unfold wanted_file. split.
        -- intros [(I & R) | (o' & rf & name & I & R)].
           ++ left. split; [now right | exact R].
           ++ right. exists o', rf, name. split; [now right | exact R].
        -- intros [([<- | I] & Ff & Sf) | (o' & rf & name & [<- | I] & Fo & Do & R)].
           ++ congruence.
           ++ left. now repeat split.
           ++ congruence.
           ++ right. now exists o', rf, name.
Qed.

Lemma listing_inv (origin : Origin) (target_root : option Path.t) (w : FS)
    (root : Path.t) (files : list Path.t) :
  _get_root_get_dicom_file_list origin target_root w = Ok (root, files) ->
  exists found,
    collect (origin_list origin) [] w = Ok found /\ files = Path.sort found.
Proof.
  unfold _get_root_get_dicom_file_list.
  destruct (collect (origin_list origin) [] w) as [found |]; [| discriminate].
  simpl. destruct target_root as [r |].
  - simpl. intros [= <- <-]. now exists found.
  - destruct origin as [p | [| first ps] | [| first ps]]; simpl; try discriminate;
      intros [= <- <-]; now exists found.
Qed.

(** X3: the list of files the listing returns is in the order of the
    paths, and it holds the wanted files and no other: the origins that are
    [.dcm] files and what the walk of the origins that are directories
    finds with a name ending in [.dcm]. *)
Theorem file_list_is_sorted_and_complete
    (origin : Origin) (target_root : option Path.t) (w : FS)
    (root : Path.t) (files : list Path.t) :
  _get_root_get_dicom_file_list origin target_root w = Ok (root, files) ->
  Sorted path_le files
  /\ (forall f, In f files <-> wanted_file (origin_list origin) w f).
Proof.
  intros L. destruct (listing_inv origin target_root w root files L) as (found & C & ->).
  split; [apply sort_sorted |].
  intros f. rewrite <- (collect_In _ _ _ C f).
  split; apply Permutation_in; [symmetry |]; apply sort_perm.
Qed.

(** X4: every file of the list has a name that ends in [.dcm], the case of
    the letters apart. *)
Theorem listed_files_are_named_dcm
    (origin : Origin) (target_root : option Path.t) (w : FS)
    (root : Path.t) (files : list Path.t) :
  _get_root_get_dicom_file_list origin target_root w = Ok (root, files) ->
  Forall (fun f => is_dcm_name (Path.name f) = true) files.
Proof.
  intros L. destruct (listing_inv origin target_root w root files L) as (found & C & ->).
  apply Forall_forall. intros f I.
  apply (Permutation_in _ (Permutation_sym (sort_perm found))) in I.
  apply (collect_In _ _ _ C) in I.
  destruct I as [(_ & _ & S) | (o & rf & name & _ & _ & _ & _ & _ & D & ->)].
  - now apply dcm_suffix_dcm_name.
  - rewrite (@name_div (fst rf) name); [exact D |].
    intros ->. discriminate D.
Qed.

End FileListContents.

(** ** What one task does and leaves *)

Section OneFile.

Context `{World} `{Pydicom} `{Platform}.

(** The gate answers [False] or a name that is not empty. *)
Lemma gate_answers (ds : Dataset) (u : pyval) :
  _is_unsupported ds = Ok u ->
  (u = PyBool false /\ truthy u = false)
  \/ (exists what, u = PyStr what /\ truthy u = true).
Proof.
  unfold _is_unsupported. destruct (SOPClassUID ds) as [uid |]; [| discriminate].
  simpl. destruct (String.eqb uid uid_encapsulated_pdf).
  { intros [= <-]. right. eexists. split; reflexivity. }
  destruct (String.eqb uid uid_key_object_selection).
  { intros [= <-]. right. eexists. split; reflexivity. }
  intros [= <-]. now left.
Qed.

(** X5: the task returns [True] exactly when the file was decoded, let
    through by the gate, processed, the directory made and [cv2.imwrite]
    called on the export path without raising; the file system is then the
    one the writer leaves. What [cv2.imwrite] returns is not looked at: a
    write that reports failure with [False] still counts as [True]. *)
Theorem task_returns_True_iff
    (file_path target_root : Path.t) (w w' : FS) :
  _ds_to_file file_path target_root w = (PyBool true, w')
  <-> exists (ds : Dataset) (img : ndarray Z) (w1 : FS) (b : bool),
        ready_to_write file_path w ds img
        /\ mkdir (Path.parent (_get_export_file_path ds file_path target_root)) w
           = (Ok tt, w1)
        /\ imwrite (Path.str (_get_export_file_path ds file_path target_root)) img w1
           = (Ok b, w').
Proof.
  unfold _ds_to_file, ready_to_write. rewrite _ds_to_file_try_steps. split.
  - destruct (dcmread file_path w) as [ds | e]; [| discriminate].
    destruct (_is_unsupported ds) as [u | e] eqn:G; [| discriminate].
    destruct (gate_answers ds u G) as [[-> T] | (what & -> & T)]; rewrite T;
      [| discriminate].
    destruct (pixel_array ds) as [raw | e] eqn:P; [| discriminate].
    destruct (is_multiframe (astype_float raw)) eqn:Mf; [discriminate |].
    destruct (_pixel_process ds (astype_float raw)) as [px | e] eqn:R; [| discriminate].
    destruct (if is_color ds then swap_planes_0_2 px else Ok px) as [img | e] eqn:S;
      [| discriminate].
    cbv zeta.
    destruct (mkdir _ w) as [[[] | e] w1] eqn:D; [| discriminate].
    destruct (imwrite _ img w1) as [[b | e] w2] eqn:I; [| discriminate].
    intros [= <-]. exists ds, img, w1, b.
    repeat split; try reflexivity; try assumption.
    exists raw, px. now repeat split.
  - intros (ds & img & w1 & b & (Rd & G & raw & px & P & Mf & R & S) & D & I).
    rewrite Rd, G. simpl. rewrite P, Mf, R, S. cbv zeta. rewrite D, I. reflexivity.
Qed.

(** X6: a file that [dcmread(force=True)] decodes to a dataset with no
    SOPClassUID is not converted: the task returns the error message of the
    AttributeError and leaves the file system as it was. *)
Theorem missing_sop_class_is_an_error
    (ds : Dataset) (file_path target_root : Path.t) (w : FS) :
  dcmread file_path w = Ok ds ->
  SOPClassUID ds = None ->
  _ds_to_file file_path target_root w
  = (PyStr ("Error converting " ++ Path.str file_path
              ++ ": 'FileDataset' object has no attribute 'SOPClassUID'"), w).
Proof.
  intros Rd N. unfold _ds_to_file. rewrite _ds_to_file_try_steps, Rd.
  unfold _is_unsupported. rewrite N. reflexivity.
Qed.

(** X7: the task touches the file system only for an image that is ready
    to be written: whenever a step before [Path.mkdir] raises or skips, the
    file system is left as it was. *)
Theorem no_write_before_the_image_is_ready
    (file_path target_root : Path.t) (w : FS) :
  snd (_ds_to_file file_path target_root w) = w
  \/ exists (ds : Dataset) (img : ndarray Z), ready_to_write file_path w ds img.
Proof.
  unfold _ds_to_file, ready_to_write. rewrite _ds_to_file_try_steps.
  destruct (dcmread file_path w) as [ds | e]; [| now left].
  destruct (_is_unsupported ds) as [u | e] eqn:G; [| now left].
  destruct (gate_answers ds u G) as [[-> T] | (what & -> & T)]; rewrite T;
    [| now left].
  destruct (pixel_array ds) as [raw | e] eqn:P; [| now left].
  destruct (is_multiframe (astype_float raw)) eqn:Mf; [now left |].
  destruct (_pixel_process ds (astype_float raw)) as [px | e] eqn:R; [| now left].
  destruct (if is_color ds then swap_planes_0_2 px else Ok px) as [img | e] eqn:S;
    [| now left].
  right. exists ds, img. split; [reflexivity |]. split; [exact G |].
  exists raw, px. now repeat split.
Qed.

(** X8: what the task returns is [True] or a message that names the file:
    never [False], never an exception. *)
Theorem task_result_names_the_file
    (file_path target_root : Path.t) (w : FS) :
  fst (_ds_to_file file_path target_root w) = PyBool true
  \/ exists msg : string,
       fst (_ds_to_file file_path target_root w) = PyStr msg
       /\ Str.contains (Path.str file_path) msg = true.
Proof.
  unfold _ds_to_file.
  destruct (_ds_to_file_try file_path target_root w) as [[v | e] w'] eqn:T.
  - rewrite _ds_to_file_try_steps in T.
    destruct (dcmread file_path w) as [ds | e]; [| discriminate].
    destruct (_is_unsupported ds) as [u | e] eqn:G; [| discriminate].
    destruct (truthy u).
    { injection T as <- <-. right. eexists. split; [reflexivity |].
      unfold skip_message. apply contains_here. }
    destruct (pixel_array ds) as [raw | e]; [| discriminate].
    destruct (is_multiframe (astype_float raw)).
    { injection T as <- <-. right. eexists. split; [reflexivity |].
      unfold skip_message. apply contains_here. }
    destruct (_pixel_process ds (astype_float raw)) as [px | e]; [| discriminate].
    destruct (if is_color ds then swap_planes_0_2 px else Ok px) as [img | e];
      [| discriminate].
    cbv zeta in T.
    destruct (mkdir _ w) as [[[] | e] w1]; [| discriminate].
    destruct (imwrite _ img w1) as [[b | e] w2]; [| discriminate].
    injection T as <- <-. now left.
  - right. eexists. split; [reflexivity |].
    unfold error_message. apply contains_app_r, contains_here.
Qed.

End OneFile.

(** ** The report of the run *)

Section Report.

Context `{World} `{Pydicom} `{Platform}.



(** X9: the line 'DICOM images converted to BMP successfully!' is printed
    exactly when [multiprocessing] is on and the listing found more than one
    file: then it is printed whatever the tasks returned, also when every
    one of them failed and the run returns [False]; it is not printed
    without [multiprocessing], with one file, with no file, or when the
    listing raises. *)
Theorem pool_success_line_ignores_results
    (origin : Origin) (target_root : option Path.t) (multiprocessing : bool)
    (w : FS) :
  In pool_success_line (printed (dicom2bmp origin target_root multiprocessing w))
  <-> multiprocessing = true
      /\ exists (root : Path.t) (files : list Path.t),
           _get_root_get_dicom_file_list origin target_root w = Ok (root, files)
           /\ (1 < List.length files)%nat.
Proof.
  unfold dicom2bmp, _dicom_convertor.
  destruct (_get_root_get_dicom_file_list origin target_root w)
    as [[root files] | e] eqn:L.
  2: { cbn [printed]. split; [contradiction |].
       intros (_ & root & files & E & _). discriminate E. }
  destruct files as [| f files].
  { cbn [printed]. split.
    - intros [E | []]. discriminate E.
    - intros (_ & root' & files' & E & N). injection E as <- <-. simpl in N. lia. }
  set (fs := f :: files) in *.
  assert (Efs : fs = f :: files) by reflexivity. clearbody fs.
  rewrite Efs at 1. rewrite <- Efs.
  destruct (run_tasks fs root w) as [results w'].
  cbn [printed]. rewrite !in_app_iff.
  assert (Found : forall n, ~ In pool_success_line
            [("Found " ++ Str.of_nat n ++ " DICOM files to convert...")%string]).
  { intros n [E | []]. discriminate E. }
  assert (Tail : ~ In pool_success_line
            (if (0 <? List.length results - count_True results)%nat
             then ("Conversion completed: " ++ Str.of_nat (count_True results)
                     ++ " successful, "
                     ++ Str.of_nat (List.length results - count_True results)
                     ++ " failed")%string
                  :: map (fun r => ("  - " ++ str_of r)%string)
                         (filter (fun r => negb (is_True r)) results)
             else [("All " ++ Str.of_nat (count_True results)
                      ++ " files converted successfully!")%string])).
  { destruct (0 <? List.length results - count_True results)%nat.
    - intros [E | I]; [discriminate E |].
      apply in_map_iff in I as (r & E & _). discriminate E.
    - intros [E | []]. discriminate E. }
  split.
  - intros [I | [I | I]]; [now apply Found in I | | now apply Tail in I].
    destruct multiprocessing; [| contradiction].
    destruct (1 <? List.length fs)%nat eqn:N; [| contradiction].
    split; [reflexivity |]. exists root, fs. split; [reflexivity |].
    now apply Nat.ltb_lt.
  - intros (-> & root' & files' & E & N). injection E as <- <-. right. left.
    apply Nat.ltb_lt in N. rewrite N. simpl. now left.
Qed.


End Report.

(** ** The pixel pipeline: shapes and sizes *)

Section Shapes.

Context `{Pydicom} `{Platform}.

Lemma same_shape_refl {A : Type} (a : ndarray A) : same_shape a a.
Proof. now split. Qed.

Lemma same_shape_trans {A B C : Type} (a : ndarray A) (b : ndarray B) (c : ndarray C) :
  same_shape a b -> same_shape b c -> same_shape a c.
Proof. intros [S1 L1] [S2 L2]. split; congruence. Qed.

Lemma same_shape_amap {A B : Type} (f : A -> B) (a : ndarray A) :
  same_shape (amap f a) a.
Proof. split; [reflexivity | apply length_map]. Qed.

Lemma piecewise_same_shape (arr out : ndarray float64)
    (condlist : list (float64 -> bool)) (funclist : list pw_func) :
  piecewise arr condlist funclist = Ok out -> same_shape out arr.
Proof.
  unfold piecewise. cbv zeta.
  destruct (_ || _); [| discriminate]. intros [= <-]. apply same_shape_amap.
Qed.

Lemma linear_exact_same_shape (arr out : ndarray float64) (window level : float64) :
  _get_LUT_value_LINEAR_EXACT arr window level = Ok out -> same_shape out arr.
Proof.
  unfold _get_LUT_value_LINEAR_EXACT.
  destruct (amin (data arr)); [| discriminate].
  destruct (amax (data arr)); [| discriminate].
  simpl. apply piecewise_same_shape.
Qed.

Lemma modality_step_same_shape (ds : Dataset) (arr out : ndarray float64) :
  lut_keeps_shape -> modality_step ds arr = Ok out -> same_shape out arr.
Proof.
  intros K. unfold modality_step.
  destruct (RescaleSlope ds), (RescaleIntercept ds);
    try (intros E; apply (K arr out ds); now left).
  intros [= <-]. apply same_shape_amap.
Qed.

Lemma voi_step_same_shape (ds : Dataset) (arr out : ndarray float64) :
  lut_keeps_shape -> voi_step ds arr = Ok out -> same_shape out arr.
Proof.
  intros K. unfold voi_step.
  destruct (attr_is (VOILUTFunction ds) "SIGMOID").
  { intros E. apply (K arr out ds). now right. }
  destruct (WindowCenter ds) as [wc |], (WindowWidth ds) as [ww |];
    try (intros E; apply (K arr out ds); now right).
  destruct (first_value wc); [| discriminate].
  destruct (first_value ww); [| discriminate].
  simpl. apply linear_exact_same_shape.
Qed.

Lemma presentation_step_same_shape (arr out : ndarray float64) :
  presentation_step arr = Ok out -> same_shape out arr.
Proof.
  unfold presentation_step.
  destruct (amin (data arr)); [| discriminate].
  destruct (amax (data arr)); [| discriminate].
  simpl. intros [= <-]. apply same_shape_amap.
Qed.

Lemma inversion_step_same_shape (ds : Dataset) (arr out : ndarray float64) :
  inversion_step ds arr = Ok out -> same_shape out arr.
Proof.
  unfold inversion_step.
  destruct (attr_is (PhotometricInterpretation ds) "MONOCHROME1").
  - destruct (amax (data arr)); [| discriminate].
    simpl. intros [= <-]. apply same_shape_amap.
  - intros [= <-]. apply same_shape_refl.
Qed.

(** X11: the pixel pipeline keeps the shape: when the LUT functions of
    pydicom do, the 8-bit array [_pixel_process] returns has the shape and
    the number of elements of the array it is given. *)
Theorem pixel_process_keeps_shape
    (ds : Dataset) (pixel_array : ndarray float64) (out : ndarray Z) :
  lut_keeps_shape ->
  _pixel_process ds pixel_array = Ok out ->
  shape out = shape pixel_array
  /\ List.length (data out) = List.length (data pixel_array).
Proof.
  intros K. unfold _pixel_process.
  destruct (modality_step ds pixel_array) as [a1 |] eqn:E1; [| discriminate].
  cbn [bind].
  destruct (voi_step ds a1) as [a2 |] eqn:E2; [| discriminate].
  cbn [bind].
  destruct (presentation_step a2) as [a3 |] eqn:E3; [| discriminate].
  cbn [bind].
  destruct (inversion_step ds a3) as [a4 |] eqn:E4; [| discriminate].
  cbn [bind]. intros [= <-].
  apply (same_shape_trans _ a4); [apply same_shape_amap |].
  apply (same_shape_trans _ a3); [now apply inversion_step_same_shape with ds |].
  apply (same_shape_trans _ a2); [now apply presentation_step_same_shape |].
  apply (same_shape_trans _ a1); [now apply voi_step_same_shape with ds |].
  now apply modality_step_same_shape with ds.
Qed.

(** X12: an array with no element is not converted: when the LUT functions
    of pydicom keep the size, [_pixel_process] raises on it (the ValueError
    of [min()] on an empty array, if nothing raises before). *)
Theorem pixel_process_empty_raises (ds : Dataset) (pixel_array : ndarray float64) :
  lut_keeps_shape ->
  data pixel_array = [] ->
  exists e : exc, _pixel_process ds pixel_array = Raise e.
Proof.
  intros K E. unfold _pixel_process.
  destruct (modality_step ds pixel_array) as [a1 |] eqn:E1; [| eexists; reflexivity].
  cbn [bind].
  destruct (voi_step ds a1) as [a2 |] eqn:E2; [| eexists; reflexivity].
  apply (modality_step_same_shape _ _ _ K) in E1 as [_ L1].
  apply (voi_step_same_shape _ _ _ K) in E2 as [_ L2].
  rewrite L1, E in L2. simpl in L2. apply length_zero_iff_nil in L2.
  simpl. unfold presentation_step. rewrite L2. simpl. eexists. reflexivity.
Qed.

End Shapes.

(** ** A window of width zero *)

Section ZeroWindow.

Lemma compare3_antisym (a b : Z * Z * Z) : compare3 a b = CompOpp (compare3 b a).
Proof.
  destruct a as [[a1 a2] a3], b as [[b1 b2] b3]. unfold compare3.
  rewrite (Z.compare_antisym b1 a1), (Z.compare_antisym b2 a2),
    (Z.compare_antisym b3 a3).
  destruct (b1 ?= a1)%Z; simpl; try reflexivity.
  destruct (b2 ?= a2)%Z; simpl; reflexivity.
Qed.

Lemma leb_key_r (x a b : float64) : key a = key b -> leb x a = leb x b.
Proof. intros E. unfold leb, SFleb. now rewrite !SFcompare_key, E. Qed.

Lemma ltb_key_l (x a b : float64) : key a = key b -> ltb a x = ltb b x.
Proof. intros E. unfold ltb, SFltb. now rewrite !SFcompare_key, E. Qed.

Lemma key_none (x : float64) : key x = None -> is_nan x = true.
Proof. destruct x as [[] | [] | | [] ? ?]; simpl; congruence. Qed.

(** Of two numbers one is above the other or not; only NaN is neither. *)
Lemma above_or_not (level x : float64) :
  ltb level x = false -> leb x level = false ->
  is_nan x = true \/ is_nan level = true.
Proof.
  unfold ltb, SFltb, leb, SFleb. rewrite !SFcompare_key.
  destruct (key level) as [a |] eqn:Kl; [| intros _ _; right; now apply key_none].
  destruct (key x) as [b |] eqn:Kx; [| intros _ _; left; now apply key_none].
  rewrite (compare3_antisym b a). destruct (compare3 a b); simpl; discriminate.
Qed.

Lemma above_and_not (level x : float64) :
  ltb level x = true -> leb x level = false.
Proof.
  unfold ltb, SFltb, leb, SFleb. rewrite !SFcompare_key.
  destruct (key level) as [a |], (key x) as [b |]; try discriminate.
  rewrite (compare3_antisym b a). destruct (compare3 a b); simpl; congruence.
Qed.

Lemma key_sub_zero (level : float64) (s : bool) :
  key (sub level (S754_zero s)) = key level.
Proof. destruct level as [[] | | |], s; reflexivity. Qed.

Lemma key_add_zero (level : float64) (s : bool) :
  key (add level (S754_zero s)) = key level.
Proof. destruct level as [[] | | |], s; reflexivity. Qed.

Lemma half_of_zero (s : bool) : div (S754_zero s) two = S754_zero s.
Proof. destruct s; reflexivity. Qed.

Lemma formula_of_nan (x level w range mn : float64) :
  is_nan x = true \/ is_nan level = true ->
  add (mul (div (add (sub x level) (div w two)) w) range) mn = S754_nan.
Proof.
  intros N.
  assert (E : sub x level = S754_nan).
  { destruct N as [N | N].
    - destruct x; try discriminate. reflexivity.
    - destruct level; try discriminate. destruct x; reflexivity. }
  rewrite E. reflexivity.
Qed.

(** X13: with a window of width zero the LUT is a threshold at the level:
    an element above the level becomes the maximum of the array, any other
    number the minimum, and no division by the zero width reaches the
    result; only NaN (an element that is NaN, or any element when the level
    is NaN) stays NaN. *)
Theorem zero_window_is_a_threshold
    (arr : ndarray float64) (s : bool) (level mn mx : float64) :
  amin (data arr) = Ok mn ->
  amax (data arr) = Ok mx ->
  _get_LUT_value_LINEAR_EXACT arr (S754_zero s) level
  = Ok (amap (fun x => if ltb level x then mx
                       else if leb x level then mn
                       else S754_nan) arr).
Proof.
  intros Hmin Hmax.
  rewrite (@_get_LUT_value_LINEAR_EXACT_elementwise arr (S754_zero s) level mn mx
             Hmin Hmax).
  unfold amap. f_equal. f_equal. apply map_ext. intros x.
  rewrite half_of_zero.
  rewrite (ltb_key_l x _ level (key_add_zero level s)).
  rewrite (leb_key_r x _ level (key_sub_zero level s)).
  destruct (ltb level x) eqn:A; [reflexivity |].
  destruct (leb x level) eqn:B; [reflexivity |].
  rewrite <- (half_of_zero s) at 1.
  apply formula_of_nan. now apply above_or_not.
Qed.

End ZeroWindow.

(** ** The grey levels of a normalised image *)

Section GreyLevels.

Local Open Scope R_scope.

Variables (l : list float64) (lo hi : float64).
Hypothesis Hvalid : Forall valid l.
Hypothesis Hmin : amin l = Ok lo.
Hypothesis Hmax : amax l = Ok hi.
Variables (sd : bool) (md : positive) (ed : Z).
Hypothesis Hd : sub hi lo = S754_finite sd md ed.

Lemma range_value : 0 < RN (F2R hi - F2R lo) < bpow emax.
Proof.
  destruct (range_is_positive l lo hi Hvalid Hmin Hmax sd md ed Hd)
    as (-> & Vd & _ & _ & Fd).
  rewrite <- Fd, Hd. split; [apply F2R_pos |].
  rewrite F2R_finite. now apply valid_below_overflow with false.
Qed.

Lemma ends_are_finite : is_finite hi = true /\ is_finite lo = true.
Proof.
  now destruct (range_is_positive l lo hi Hvalid Hmin Hmax sd md ed Hd)
    as (_ & _ & Fhi & Flo & _).
Qed.

Lemma numerator_value (x : float64) :
  In x l ->
  is_finite (sub x lo) = true
  /\ F2R (sub x lo) = RN (F2R x - F2R lo)
  /\ 0 <= F2R x - F2R lo <= F2R hi - F2R lo.
Proof.
  intros Ix. destruct ends_are_finite as [Fhi Flo].
  destruct (numerator_rounded l lo hi Hvalid Hmin Hmax Fhi Flo x Ix) as (Rn & Pn & Un).
  pose proof range_value as [_ B].
  assert (Mn : RN (F2R x - F2R lo) <= RN (F2R hi - F2R lo)) by (apply RN_le; lra).
  destruct (rounded_finite _ _ Rn ltac:(lra)) as (_ & Fn & En).
  repeat split; assumption.
Qed.

(** The quotient is the rounded quotient of the rounded differences. *)
Lemma quotient_value (x : float64) :
  In x l ->
  F2R (div (sub x lo) (sub hi lo))
  = RN (RN (F2R x - F2R lo) / RN (F2R hi - F2R lo)).
Proof.
  intros Ix.
  destruct (range_is_positive l lo hi Hvalid Hmin Hmax sd md ed Hd)
    as (Sd & Vd & _ & _ & Fd).
  destruct (numerator_value x Ix) as (Fn & En & Pn & Un).
  pose proof range_value as [P B].
  assert (Nn : 0 <= RN (F2R x - F2R lo)) by (apply RN_nonneg; lra).
  assert (Mn : RN (F2R x - F2R lo) <= RN (F2R hi - F2R lo)) by (apply RN_le; lra).
  rewrite <- En, <- Fd. rewrite <- En in Nn, Mn. rewrite <- Fd in Mn, P.
  clear En Fd. rewrite Hd in *. subst sd.
  destruct (sub x lo) as [sn | sn | | sn mn en]; try discriminate Fn.
  - simpl. unfold Rdiv. rewrite Rmult_0_l. symmetry. apply RN_0.
  - assert (sn = false) by now apply (F2R_nonneg_sign sn mn en).
    subst sn. pose proof (div_correct mn en md ed) as Rq.
    set (n := F2R (S754_finite false mn en)) in *.
    set (d := F2R (S754_finite false md ed)) in *.
    assert (Q1 : 0 <= n / d <= 1).
    { split.
      - apply Rmult_le_pos; [exact Nn | left; now apply Rinv_0_lt_compat].
      - apply (Rmult_le_reg_r d); [exact P |].
        unfold Rdiv. rewrite Rmult_assoc, Rinv_l by lra. lra. }
    assert (Q2 : RN (n / d) <= 1) by (rewrite <- RN_1; apply RN_le; lra).
    pose proof bpow_emax_big as Big.
    now destruct (rounded_finite _ _ Rq ltac:(lra)) as (_ & _ & Eq).
Qed.

(** The float computation of line 60 is the real formula with every
    operation rounded to nearest. *)
Lemma normalise_real (x : float64) :
  In x l -> F2R (normalise lo hi x) = norm_real (F2R lo) (F2R hi) (F2R x).
Proof.
  intros Ix. unfold norm_real.
  rewrite (normalise_value l lo hi Hvalid Hmin Hmax sd md ed Hd x Ix).
  now rewrite quotient_value.
Qed.

Lemma norm_real_le (x y : R) :
  F2R lo <= x -> x <= y -> norm_real (F2R lo) (F2R hi) x <= norm_real (F2R lo) (F2R hi) y.
Proof.
  intros Lx Lxy. unfold norm_real. pose proof range_value as [P _].
  set (D := RN (F2R hi - F2R lo)) in *.
  assert (N0 : 0 <= RN (x - F2R lo)) by (apply RN_nonneg; lra).
  assert (N1 : RN (x - F2R lo) <= RN (y - F2R lo)) by (apply RN_le; lra).
  assert (I : 0 < / D) by now apply Rinv_0_lt_compat.
  assert (Q0 : 0 <= RN (x - F2R lo) / D) by (apply Rmult_le_pos; lra).
  assert (Q1 : RN (x - F2R lo) / D <= RN (y - F2R lo) / D).
  { apply Rmult_le_compat_r; lra. }
  assert (R0 : 0 <= RN (RN (x - F2R lo) / D)) by now apply RN_nonneg.
  assert (R1 : RN (RN (x - F2R lo) / D) <= RN (RN (y - F2R lo) / D)) by now apply RN_le.
  apply RN_le; nra.
Qed.

(** Equal numbers have one value. *)
Lemma eqb_value (x y : float64) :
  In x l -> In y l -> eqb x y = true -> F2R x = F2R y.
Proof.
  intros Ix Iy E. destruct ends_are_finite as [Fhi Flo].
  destruct (element_between l lo hi Hvalid Hmin Hmax Fhi Flo x Ix) as (Vx & Fx & _).
  destruct (element_between l lo hi Hvalid Hmin Hmax Fhi Flo y Iy) as (Vy & Fy & _).
  destruct (@eqb_fle x y E) as [L1 L2].
  apply Rle_antisym; now apply fle_F2R.
Qed.

Lemma fle_value (x y : float64) :
  In x l -> In y l -> fle x y -> F2R lo <= F2R x <= F2R y.
Proof.
  intros Ix Iy L. destruct ends_are_finite as [Fhi Flo].
  destruct (element_between l lo hi Hvalid Hmin Hmax Fhi Flo x Ix) as (Vx & Fx & Lx & _).
  destruct (element_between l lo hi Hvalid Hmin Hmax Fhi Flo y Iy) as (Vy & Fy & _).
  split; [exact Lx | now apply fle_F2R].
Qed.

Lemma normalise_at_min (x : float64) :
  In x l -> eqb x lo = true -> F2R (normalise lo hi x) = 0.
Proof.
  intros Ix E.
  rewrite (normalise_real x Ix), (eqb_value x lo Ix (amin_In l lo Hmin) E).
  rewrite <- (normalise_real lo (amin_In l lo Hmin)).
  exact (normalise_lo l lo hi Hvalid Hmin Hmax sd md ed Hd).
Qed.

Lemma normalise_at_max (x : float64) :
  In x l -> eqb x hi = true -> F2R (normalise lo hi x) = 255.
Proof.
  intros Ix E.
  rewrite (normalise_real x Ix), (eqb_value x hi Ix (amax_In l hi Hmax) E).
  rewrite <- (normalise_real hi (amax_In l hi Hmax)).
  rewrite (normalise_hi l lo hi Hvalid Hmin Hmax sd md ed Hd). apply F2R_f255.
Qed.

Lemma normalise_le (x y : float64) :
  In x l -> In y l -> fle x y ->
  F2R (normalise lo hi x) <= F2R (normalise lo hi y).
Proof.
  intros Ix Iy L. rewrite (normalise_real x Ix), (normalise_real y Iy).
  destruct (fle_value x y Ix Iy L). now apply norm_real_le.
Qed.

End GreyLevels.

Section PipelineOutput.

Context `{Pydicom} `{Platform}.

Variables (ds : Dataset) (raw after_modality arr : ndarray float64).
Variables (lo hi : float64) (sd : bool) (md : positive) (ed : Z).
Hypothesis Hmodality : modality_step ds raw = Ok after_modality.
Hypothesis Hvoi : voi_step ds after_modality = Ok arr.
Hypothesis Hvalid : Forall valid (data arr).
Hypothesis Hmin : amin (data arr) = Ok lo.
Hypothesis Hmax : amax (data arr) = Ok hi.
Hypothesis Hd : sub hi lo = S754_finite sd md ed.

Lemma presentation_step_normalises :
  presentation_step arr = Ok (amap (normalise lo hi) arr).
Proof. unfold presentation_step. rewrite Hmin, Hmax. reflexivity. Qed.

Lemma normalised_samples : Forall sample (map (normalise lo hi) (data arr)).
Proof.
  apply Forall_map_in. intros x Ix.
  exact (normalise_sample (data arr) lo hi Hvalid Hmin Hmax sd md ed Hd x Ix).
Qed.

Lemma pixel_process_grey :
  attr_is (PhotometricInterpretation ds) "MONOCHROME1" = false ->
  _pixel_process ds raw = Ok (amap (grey_level lo hi) arr).
Proof.
  intros P. unfold _pixel_process. rewrite Hmodality. cbn [bind].
  rewrite Hvoi. cbn [bind]. rewrite presentation_step_normalises. cbn [bind].
  unfold inversion_step. rewrite P. cbn [bind].
  unfold astype_uint8, amap. cbn [shape data]. now rewrite map_map.
Qed.

Lemma pixel_process_inverted :
  attr_is (PhotometricInterpretation ds) "MONOCHROME1" = true ->
  _pixel_process ds raw = Ok (amap (inverted_level lo hi) arr).
Proof.
  intros P. unfold _pixel_process. rewrite Hmodality. cbn [bind].
  rewrite Hvoi. cbn [bind]. rewrite presentation_step_normalises. cbn [bind].
  unfold inversion_step. rewrite P.
  assert (M : amax (data (amap (normalise lo hi) arr)) = Ok f255).
  { apply amax_255; [exact normalised_samples |].
    apply in_map_iff. exists hi. split; [| exact (amax_In _ _ Hmax)].
    exact (normalise_hi (data arr) lo hi Hvalid Hmin Hmax sd md ed Hd). }
  rewrite M. cbn [bind].
  unfold astype_uint8, amap. cbn [shape data]. now rewrite !map_map.
Qed.

Lemma grey_level_value (x : float64) :
  In x (data arr) -> grey_level lo hi x = Zfloor (F2R (normalise lo hi x)).
Proof.
  intros Ix. unfold grey_level. apply uint8_of_sample.
  exact (normalise_sample (data arr) lo hi Hvalid Hmin Hmax sd md ed Hd x Ix).
Qed.

Lemma inverted_level_value (x : float64) :
  In x (data arr) ->
  inverted_level lo hi x = Zfloor (RN (255 - F2R (normalise lo hi x))).
Proof.
  intros Ix. unfold inverted_level.
  pose proof (normalise_sample (data arr) lo hi Hvalid Hmin Hmax sd md ed Hd x Ix) as S.
  destruct (invert_sample _ S) as [Si E]. rewrite (uint8_of_sample _ Si). now rewrite E.
Qed.

Lemma level_in_range (y : float64) : sample y -> (0 <= Zfloor (F2R y) <= 255)%Z.
Proof.
  intros (_ & _ & B). split.
  - apply Zfloor_lub. tauto.
  - rewrite <- (ZfloorZ 255). apply Zfloor_le. tauto.
Qed.

(** X14: an image whose range [max - min] is a finite number other than
    zero, and which is not MONOCHROME1, comes out of the pixel pipeline
    with every sample from 0 to 255, the samples equal to the minimum at 0
    and the samples equal to the maximum at 255, whatever the platform. *)
Theorem grey_output_spans_the_range :
  attr_is (PhotometricInterpretation ds) "MONOCHROME1" = false ->
  exists out : ndarray Z,
    _pixel_process ds raw = Ok out
    /\ shape out = shape arr
    /\ Forall2 (fun (x : float64) (q : Z) =>
                  (0 <= q <= 255)%Z
                  /\ (eqb x lo = true -> q = 0%Z)
                  /\ (eqb x hi = true -> q = 255%Z))
         (data arr) (data out).
Proof.
  intros P. exists (amap (grey_level lo hi) arr).
  split; [exact (pixel_process_grey P) |]. split; [reflexivity |].
  unfold amap. cbn [data]. rewrite <- (map_id (data arr)) at 1.
  apply Forall2_map_same. intros x Ix.
  pose proof (normalise_sample (data arr) lo hi Hvalid Hmin Hmax sd md ed Hd x Ix) as S.
  rewrite (grey_level_value x Ix). split; [now apply level_in_range |]. split.
  - intros E.
    rewrite (normalise_at_min (data arr) lo hi Hvalid Hmin Hmax sd md ed Hd x Ix E).
    apply (ZfloorZ 0).
  - intros E.
    rewrite (normalise_at_max (data arr) lo hi Hvalid Hmin Hmax sd md ed Hd x Ix E).
    apply (ZfloorZ 255).
Qed.

(** X15: for MONOCHROME1 the same image comes out inverted: every sample
    from 0 to 255, the samples equal to the minimum at 255 and the samples
    equal to the maximum at 0. *)
Theorem inverted_output_spans_the_range :
  attr_is (PhotometricInterpretation ds) "MONOCHROME1" = true ->
  exists out : ndarray Z,
    _pixel_process ds raw = Ok out
    /\ shape out = shape arr
    /\ Forall2 (fun (x : float64) (q : Z) =>
                  (0 <= q <= 255)%Z
                  /\ (eqb x lo = true -> q = 255%Z)
                  /\ (eqb x hi = true -> q = 0%Z))
         (data arr) (data out).
Proof.
  intros P. exists (amap (inverted_level lo hi) arr).
  split; [exact (pixel_process_inverted P) |]. split; [reflexivity |].
  unfold amap. cbn [data]. rewrite <- (map_id (data arr)) at 1.
  apply Forall2_map_same. intros x Ix.
  pose proof (normalise_sample (data arr) lo hi Hvalid Hmin Hmax sd md ed Hd x Ix) as S.
  destruct (invert_sample _ S) as [Si E].
  rewrite (inverted_level_value x Ix), <- E. split; [now apply level_in_range |].
  rewrite E. split.
  - intros Q.
    rewrite (normalise_at_min (data arr) lo hi Hvalid Hmin Hmax sd md ed Hd x Ix Q).
    rewrite Rminus_0_r, RN_255. apply (ZfloorZ 255).
  - intros Q.
    rewrite (normalise_at_max (data arr) lo hi Hvalid Hmin Hmax sd md ed Hd x Ix Q).
    rewrite Rminus_diag, RN_0. apply (ZfloorZ 0).
Qed.

(** X16: the presentation step, the inversion and the conversion follow
    the order of the samples they are given: the 8-bit value is a function
    of the sample after the VOI step, which never decreases as that sample
    grows, and never increases for MONOCHROME1. (The order of the stored
    samples is another matter: a negative RescaleSlope reverses it before
    this point.) *)
Theorem output_follows_the_order :
  exists g : float64 -> Z,
    _pixel_process ds raw = Ok (amap g arr)
    /\ forall x y : float64,
         In x (data arr) -> In y (data arr) -> fle x y ->
         if attr_is (PhotometricInterpretation ds) "MONOCHROME1"
         then (g y <= g x)%Z
         else (g x <= g y)%Z.
Proof.
  destruct (attr_is (PhotometricInterpretation ds) "MONOCHROME1") eqn:P.
  - exists (inverted_level lo hi). split; [exact (pixel_process_inverted P) |].
    intros x y Ix Iy L.
    rewrite (inverted_level_value x Ix), (inverted_level_value y Iy).
    pose proof (normalise_le (data arr) lo hi Hvalid Hmin Hmax sd md ed Hd x y Ix Iy L)
      as Le.
    pose proof (normalise_sample (data arr) lo hi Hvalid Hmin Hmax sd md ed Hd y Iy)
      as (_ & _ & By).
    apply Zfloor_le, RN_le; lra.
  - exists (grey_level lo hi). split; [exact (pixel_process_grey P) |].
    intros x y Ix Iy L.
    rewrite (grey_level_value x Ix), (grey_level_value y Iy).
    apply Zfloor_le.
    exact (normalise_le (data arr) lo hi Hvalid Hmin Hmax sd md ed Hd x y Ix Iy L).
Qed.

End PipelineOutput.

(** ** The rescale with slope 1 and intercept 0 *)

Section IdentityRescale.

Local Open Scope R_scope.

Lemma mul_one (x : float64) : valid x -> mul x (of_Z 1) = x.
Proof.
  intros V. destruct x as [[] | [] | | s m e]; try reflexivity.
  change (of_Z 1) with (S754_finite false 4503599627370496 (-52)).
  unfold mul, SFmul.
  destruct (valid_finite_inv _ _ _ V) as [C B].
  assert (E : IZR (Z.pos m) * bpow e
              = IZR (Z.pos (m * 4503599627370496)) * bpow (e + -52)).
  { rewrite Pos2Z.inj_mul, mult_IZR.
    change (Z.pos 4503599627370496) with (2 ^ 52)%Z.
    rewrite <- bpow_IZR by lia. rewrite Rmult_assoc, <- bpow_add.
    f_equal. f_equal. lia. }
  pose proof (binary_round_aux_correct (xorb s false) (IZR (Z.pos m) * bpow e)
                (Z.pos (m * 4503599627370496)) (e + -52) loc_Exact
                ltac:(lia) E ltac:(rewrite cexp_of_float, C; lia)) as R.
  set (r := binary_round_aux prec emax (xorb s false)
              (Z.pos (m * 4503599627370496)) (e + -52) loc_Exact) in *.
  clearbody r.
  assert (P : 0 < IZR (Z.pos m) * bpow e).
  { apply Rmult_lt_0_compat; [apply IZR_lt; lia | apply bpow_gt_0]. }
  pose proof (valid_below_overflow s m e V) as O.
  destruct R as [Vr [[Z0 _] | [(m' & e' & -> & Em) | [_ Ov]]]].
  3: { rewrite (RN_float m e C) in Ov. lra. }
  - rewrite (RN_float m e C) in Z0. lra.
  - rewrite (RN_float m e C) in Em.
    pose proof (valid_unique m' e' m e Vr V Em) as U. injection U as -> ->.
    now rewrite xorb_false_r.
Qed.

Lemma add_zero (x : float64) :
  x <> S754_zero true -> add x (of_Z 0) = x.
Proof. destruct x as [[] | [] | | s m e]; intros N; try reflexivity. contradiction. Qed.

Lemma of_Z_valid (z : Z) : valid (of_Z z) /\ of_Z z <> S754_zero true.
Proof.
  unfold of_Z. destruct z as [| p | p].
  - split; [reflexivity | discriminate].
  - pose proof (binary_round_correct false p 0) as [V R]. split; [exact V |].
    intros E. cbn [binary_normalize] in E. rewrite E in R.
    destruct R as [[Z0 _] | [(m & e & Q & _) | [Q _]]]; try discriminate Q.
    rewrite bpow_0, Rmult_1_r in Z0.
    assert (1 <= IZR (Z.pos p)) by (apply IZR_le; lia).
    pose proof (RN_le 1 (IZR (Z.pos p)) ltac:(lra) ltac:(lra)) as L.
    rewrite RN_1 in L. lra.
  - pose proof (binary_round_correct true p 0) as [V R]. split; [exact V |].
    intros E. cbn [binary_normalize] in E. rewrite E in R.
    destruct R as [[Z0 _] | [(m & e & Q & _) | [Q _]]]; try discriminate Q.
    rewrite bpow_0, Rmult_1_r in Z0.
    assert (1 <= IZR (Z.pos p)) by (apply IZR_le; lia).
    pose proof (RN_le 1 (IZR (Z.pos p)) ltac:(lra) ltac:(lra)) as L.
    rewrite RN_1 in L. lra.
Qed.

End IdentityRescale.

Section ModalityStep.

Context `{Pydicom}.

(** X17: a rescale with slope 1 and intercept 0 changes nothing: the
    modality step gives the decoded samples back, every one of them the
    same float. *)
Theorem identity_rescale_changes_nothing (ds : Dataset) (raw : ndarray Z) :
  RescaleSlope ds = Some (of_Z 1) ->
  RescaleIntercept ds = Some (of_Z 0) ->
  modality_step ds (astype_float raw) = Ok (astype_float raw).
Proof.
  intros S I. unfold modality_step. rewrite S, I. f_equal.
  unfold astype_float, amap. cbn [shape data]. f_equal.
  rewrite map_map. apply map_ext. intros z.
  destruct (of_Z_valid z) as [V N].
  rewrite (mul_one _ V). now apply add_zero.
Qed.

End ModalityStep.

(** ** The colour reorder, twice *)

Section SwapTwice.

Lemma div_of_parts (inner q r : nat) :
  (r < inner)%nat -> ((inner * q + r) / inner = q)%nat.
Proof. intros L. symmetry. apply (Nat.div_unique _ _ q r); [exact L | reflexivity]. Qed.

Lemma mod_of_parts (d t k : nat) :
  (k < d)%nat -> ((d * t + k) mod d = k)%nat.
Proof. intros L. symmetry. apply (Nat.mod_unique _ _ t k); [exact L | reflexivity]. Qed.

(** The place an element comes from is in the array, and it takes its own
    element from the place it gives one to. *)
Lemma swap_source_involutive (d2 inner D idx : nat) :
  (3 <= d2)%nat -> (idx < D * d2 * inner)%nat ->
  (swap_source d2 inner idx < D * d2 * inner)%nat
  /\ swap_source d2 inner (swap_source d2 inner idx) = idx.
Proof.
  intros H3 Hi.
  assert (Hin : (0 < inner)%nat) by (destruct inner; [lia | lia]).
  pose proof (Nat.div_mod_eq idx inner) as Ei.
  pose proof (Nat.mod_upper_bound idx inner ltac:(lia)) as Br.
  remember (idx / inner)%nat as q eqn:Q. remember (idx mod inner)%nat as r eqn:R.
  pose proof (Nat.div_mod_eq q d2) as Eq.
  pose proof (Nat.mod_upper_bound q d2 ltac:(lia)) as Bk.
  remember (q / d2)%nat as t eqn:T. remember (q mod d2)%nat as k eqn:K.
  assert (Hq : (q < D * d2)%nat).
  { destruct (Nat.lt_ge_cases q (D * d2)) as [Lt | Ge]; [exact Lt | exfalso].
    pose proof (Nat.mul_le_mono_l _ _ inner Ge) as M. clear - Ei Hi M. nia. }
  assert (Ht : (t < D)%nat).
  { destruct (Nat.lt_ge_cases t D) as [Lt | Ge]; [exact Lt | exfalso].
    pose proof (Nat.mul_le_mono_l _ _ d2 Ge) as M. clear - Eq Hq M. nia. }
  assert (S1 : swap_source d2 inner idx
               = if (k =? 0)%nat then (idx + 2 * inner)%nat
                 else if (k =? 2)%nat then (idx - 2 * inner)%nat else idx).
  { unfold swap_source. cbv zeta. now rewrite <- Q, <- K. }
  rewrite S1.
  destruct (Nat.eqb_spec k 0) as [K0 | K0].
  - (* plane 0 takes from plane 2 *)
    assert (J : (idx + 2 * inner = inner * (q + 2) + r)%nat) by lia.
    split.
    { pose proof (Nat.mul_le_mono_l _ _ d2 (proj1 (Nat.le_succ_l t D) Ht)) as M1.
      assert (Q3 : (q + 3 <= D * d2)%nat) by lia.
      pose proof (Nat.mul_le_mono_l _ _ inner Q3) as M2. lia. }
    assert (Mq : ((q + 2) mod d2 = 2)%nat).
    { replace (q + 2)%nat with (d2 * t + 2)%nat by lia. apply mod_of_parts. lia. }
    unfold swap_source. cbv zeta.
    rewrite J, (div_of_parts inner (q + 2) r Br), Mq. cbn [Nat.eqb].
    rewrite <- J. lia.
  - destruct (Nat.eqb_spec k 2) as [K2 | K2].
    + (* plane 2 takes from plane 0 *)
      assert (Q2 : (2 <= q)%nat) by lia.
      assert (J : (idx - 2 * inner = inner * (q - 2) + r)%nat).
      { rewrite Nat.mul_sub_distr_l.
        pose proof (Nat.mul_le_mono_l _ _ inner Q2) as M. lia. }
      split; [lia |].
      assert (Mq : ((q - 2) mod d2 = 0)%nat).
      { replace (q - 2)%nat with (d2 * t + 0)%nat by lia. apply mod_of_parts. lia. }
      unfold swap_source. cbv zeta.
      rewrite J, (div_of_parts inner (q - 2) r Br), Mq. cbn [Nat.eqb].
      rewrite <- J. pose proof (Nat.mul_le_mono_l _ _ inner Q2) as M. lia.
    + split; [exact Hi |]. rewrite S1.
      destruct (Nat.eqb_spec k 0); [contradiction |].
      destruct (Nat.eqb_spec k 2); [contradiction | reflexivity].
Qed.

Lemma map_nth_seq (l : list Z) :
  map (fun idx => nth idx l 0%Z) (seq 0 (List.length l)) = l.
Proof.
  apply (nth_ext _ _ 0%Z 0%Z); [now rewrite length_map, length_seq |].
  intros i Hi. rewrite length_map, length_seq in Hi.
  now rewrite (@nth_map_seq Z (fun idx => nth idx l 0%Z) (List.length l) i 0%Z Hi).
Qed.

(** X18: on an array of three or more axes whose third axis has at least
    three places, with as many elements as its shape says, the reorder of
    the planes 0 and 2 succeeds and undoes itself: done twice it gives the
    array back. *)
Theorem swap_planes_twice (a : ndarray Z) (d0 d1 d2 : nat) (rest : list nat) :
  shape a = d0 :: d1 :: d2 :: rest ->
  (3 <= d2)%nat ->
  wf_ndarray a ->
  exists b : ndarray Z,
    swap_planes_0_2 a = Ok b
    /\ shape b = shape a
    /\ swap_planes_0_2 b = Ok a.
Proof.
  intros Hs H3 Hw.
  assert (L : List.length (data a) = (d0 * d1 * d2 * size_of rest)%nat).
  { unfold wf_ndarray in Hw. rewrite Hw, Hs. unfold size_of. simpl. lia. }
  assert (T : (d2 <? 3)%nat = false) by (apply Nat.ltb_ge; exact H3).
  unfold swap_planes_0_2. rewrite Hs, T. eexists. split; [reflexivity |].
  split; [reflexivity |].
  cbn [shape data]. rewrite T. rewrite length_map, length_seq.
  destruct a as [sh dat]. cbn [shape data] in *. subst sh. f_equal. f_equal.
  transitivity (map (fun idx => nth idx dat 0%Z) (seq 0 (List.length dat)));
    [| apply map_nth_seq].
  apply map_ext_in. intros idx Hi. apply in_seq in Hi. rewrite L in Hi.
  destruct (swap_source_involutive d2 (size_of rest) (d0 * d1) idx H3 ltac:(lia))
    as [B I].
  rewrite <- L in B.
  rewrite (@nth_map_seq Z _ (List.length dat) _ 0%Z B). now rewrite I.
Qed.

End SwapTwice.

(** ** The export name tells the numbers *)

Section ExportName.

(** Two names split at the first underscore in one way. *)
Lemma split_at_underscore (a a' b b' : string) :
  all_chars not_underscore a = true -> all_chars not_underscore a' = true ->
  (a ++ "_" ++ b)%string = (a' ++ "_" ++ b')%string ->
  a = a' /\ b = b'.
Proof.
  revert a'. induction a as [| c a IH]; intros [| c' a'] Na Na'; simpl.
  - intros [= E]. now split.
  - intros [= <- _]. simpl in Na'. discriminate Na'.
  - intros [= -> _]. simpl in Na. discriminate Na.
  - intros [= <- E]. simpl in Na, Na'.
    apply andb_true_iff in Na as [_ Na]. apply andb_true_iff in Na' as [_ Na'].
    destruct (IH a' Na Na' E) as [-> ->]. now split.
Qed.

Lemma append_inv_tail (a b c : string) : (a ++ c)%string = (b ++ c)%string -> a = b.
Proof.
  revert b. induction a as [| x a IH]; intros [| y b] E; simpl in E.
  - reflexivity.
  - apply (f_equal String.length) in E. simpl in E.
    rewrite length_append in E. lia.
  - apply (f_equal String.length) in E. simpl in E.
    rewrite length_append in E. lia.
  - injection E as -> E. f_equal. now apply IH.
Qed.

(** X19: the export path tells the two numbers as they are printed: when
    the printed SeriesNumber of neither dataset holds an underscore, two
    datasets get one export path under a target root exactly when their
    SeriesNumber print the same and their InstanceNumber print the same
    (the text [str()] gives, or 'Ser' and 'Ins' when the attribute cannot
    be read). Datasets whose numbers print differently never write to the
    same file, also when the number is the same, as for '03' and '3'. *)
Theorem export_path_tells_the_printed_numbers
    (ds1 ds2 : Dataset) (file_path1 file_path2 target_root : Path.t) :
  all_chars not_underscore (series_part ds1) = true ->
  all_chars not_underscore (series_part ds2) = true ->
  (_get_export_file_path ds1 file_path1 target_root
   = _get_export_file_path ds2 file_path2 target_root
   <-> series_part ds1 = series_part ds2
       /\ instance_part ds1 = instance_part ds2).
Proof.
  intros U1 U2. unfold _get_export_file_path, Path.div. cbv zeta.
  fold (series_part ds1). fold (series_part ds2).
  fold (instance_part ds1). fold (instance_part ds2).
  split.
  - intros E. apply app_inv_head in E. injection E as E.
    apply split_at_underscore in E as [Es Ei]; [| exact U1 | exact U2].
    apply append_inv_tail in Ei. now split.
  - intros [-> ->]. reflexivity.
Qed.

End ExportName.

(** ** The default target root *)

Section TargetRoot.

Context `{World}.

(** X20: without a target root the BMP files go beside the first origin:
    the root the listing returns is the parent of the first origin, whatever
    the other origins are, and the parent of every export path under it is
    that directory; with an empty list or an empty tuple of origins there
    is no first one and the listing raises the IndexError of the list or
    of the tuple. *)
Theorem default_target_is_beside_the_first_origin
    (origin : Origin) (w : FS) (root : Path.t) (files : list Path.t) :
  _get_root_get_dicom_file_list (OriginList []) None w
  = Raise (Exc "IndexError" "list index out of range")
  /\ _get_root_get_dicom_file_list (OriginTuple []) None w
     = Raise (Exc "IndexError" "tuple index out of range")
  /\ (_get_root_get_dicom_file_list origin None w = Ok (root, files) ->
      exists (first : Path.t) (rest : list Path.t),
        origin_list origin = first :: rest
        /\ root = Path.parent first
        /\ forall (ds : Dataset) (file_path : Path.t),
             Path.parent (_get_export_file_path ds file_path root)
             = Path.parent first).
Proof.
  split; [reflexivity |]. split; [reflexivity |].
  unfold _get_root_get_dicom_file_list.
  destruct (collect (origin_list origin) [] w) as [found |]; [| discriminate].
  cbn [bind].
  assert (P : forall ds file_path first,
            Path.parent (_get_export_file_path ds file_path (Path.parent first))
            = Path.parent first).
  { intros ds file_path first. unfold _get_export_file_path. cbv zeta.
    apply parent_div. apply bmp_name_not_root. }
  destruct origin as [p | [| first ps] | [| first ps]]; cbn [bind origin_list];
    try discriminate; intros [= <- _].
  - exists p, []. repeat split. intros ds file_path. apply P.
  - exists first, ps. repeat split. intros ds file_path. apply P.
  - exists first, ps. repeat split. intros ds file_path. apply P.
Qed.

End TargetRoot.

(** ** The script *)

Section Script.

Context `{World} `{Pydicom} `{Platform}.

(** X22: the script without input. When [./DICOM_files] does not exist, the
    script ends with the OSError that names it, before anything is printed
    or written; when it is a directory in which the walk finds no name
    ending in [.dcm], the script prints 'No DICOM files found!' and returns
    [False], the file system as it was. *)
Theorem script_without_input (w : FS) :
  (path_exists dicom_dir w = false ->
   main w
   = Build_Run (Raise (Exc "OSError" "File or folder 'DICOM_files' does not exist"))
       w [])
  /\ (path_exists dicom_dir w = true ->
      is_file dicom_dir w = false ->
      is_dir dicom_dir w = true ->
      walk_dcm dicom_dir w = [] ->
      main w = Build_Run (Ok false) w ["No DICOM files found!"%string]).
Proof.
  unfold main. split.
  - intros E. apply run_of_failed_listing, listing_raises. simpl. now rewrite E.
  - intros E F D W. unfold dicom2bmp, _dicom_convertor, _get_root_get_dicom_file_list.
    simpl. rewrite E, F, D, W. reflexivity.
Qed.

End Script.

(** ** The theorems on the small world *)

Lemma missing_origin_stops_the_run_witness :
  exists e : exc,
    @_get_root_get_dicom_file_list disk_world (OriginList [in_dir; file_gone])
       (Some out_dir) demo_disk = Raise e
    /\ @dicom2bmp disk_world plain_pydicom zero_platform
         (OriginList [in_dir; file_gone]) (Some out_dir) true demo_disk
       = @Build_Run disk_world (Raise e) demo_disk [].
Proof.
  exact (proj1 (@missing_origin_stops_the_run disk_world plain_pydicom zero_platform
                  (OriginList [in_dir; file_gone]) (Some out_dir) true demo_disk
                  file_gone (or_intror (or_introl eq_refl)) eq_refl)).
Defined.

Lemma file_origin_needs_dcm_suffix_witness :
  @_get_root_get_dicom_file_list disk_world
     (OriginOne ["DICOM_files"; "notes.txt"]%string) None empty_disk
  = Raise (Exc "Exception" "Input file type should be a DICOM file").
Proof.
  apply (proj2 (@file_origin_needs_dcm_suffix disk_world plain_pydicom zero_platform
                  (OriginOne ["DICOM_files"; "notes.txt"]%string) None true empty_disk
                  ["DICOM_files"; "notes.txt"]%string (or_introl eq_refl)
                  eq_refl eq_refl ltac:(discriminate))).
  reflexivity.
Defined.

Lemma file_list_is_sorted_and_complete_witness :
  Sorted path_le [file_a; file_b; file_d; file_c]
  /\ (forall f, In f [file_a; file_b; file_d; file_c]
                <-> @wanted_file disk_world [in_dir] demo_disk f).
Proof.
  apply (@file_list_is_sorted_and_complete disk_world (OriginOne in_dir)
           (Some out_dir) demo_disk out_dir [file_a; file_b; file_d; file_c]).
  reflexivity.
Defined.

Lemma listed_files_are_named_dcm_witness :
  Forall (fun f => is_dcm_name (Path.name f) = true) [file_a; file_b; file_d; file_c].
Proof.
  apply (@listed_files_are_named_dcm disk_world (OriginOne in_dir)
           (Some out_dir) demo_disk out_dir [file_a; file_b; file_d; file_c]).
  reflexivity.
Defined.

Lemma missing_sop_class_is_an_error_witness :
  @_ds_to_file disk_world plain_pydicom zero_platform file_a out_dir headerless_disk
  = (PyStr ("Error converting " ++ Path.str file_a
              ++ ": 'FileDataset' object has no attribute 'SOPClassUID'"),
     headerless_disk).
Proof.
  apply (@missing_sop_class_is_an_error disk_world plain_pydicom zero_platform
           headerless file_a out_dir headerless_disk); reflexivity.
Defined.

Lemma pool_success_line_ignores_results_witness :
  returned (@dicom2bmp disk_world plain_pydicom zero_platform
              (OriginOne in_dir) (Some out_dir) true skipped_disk) = Ok false
  /\ In pool_success_line
        (printed (@dicom2bmp disk_world plain_pydicom zero_platform
                    (OriginOne in_dir) (Some out_dir) true skipped_disk)).
Proof.
  split; [reflexivity |].
  apply (@pool_success_line_ignores_results disk_world plain_pydicom zero_platform
           (OriginOne in_dir) (Some out_dir) true skipped_disk).
  split; [reflexivity |]. exists out_dir, [file_d; file_c].
  split; [reflexivity | simpl; lia].
Defined.


Lemma plain_pydicom_keeps_shape : @lut_keeps_shape plain_pydicom.
Proof. intros a r ds [E | E]; injection E as <-; now split. Defined.

Lemma pixel_process_keeps_shape_witness :
  shape (NdArray [1; 5]%nat [0; 0; 127; 255; 255]%Z) = shape (astype_float row_of_five)
  /\ List.length (data (NdArray [1; 5]%nat [0; 0; 127; 255; 255]%Z))
     = List.length (data (astype_float row_of_five)).
Proof.
  apply (@pixel_process_keeps_shape plain_pydicom zero_platform windowed_a
           (astype_float row_of_five) (NdArray [1; 5]%nat [0; 0; 127; 255; 255]%Z)
           plain_pydicom_keeps_shape).
  vm_compute. reflexivity.
Defined.

Lemma pixel_process_empty_raises_witness :
  exists e : exc,
    @_pixel_process plain_pydicom zero_platform windowed_a no_pixels = Raise e.
Proof.
  apply (@pixel_process_empty_raises plain_pydicom zero_platform windowed_a no_pixels
           plain_pydicom_keeps_shape eq_refl).
Defined.

Lemma zero_window_is_a_threshold_witness :
  _get_LUT_value_LINEAR_EXACT (astype_float row_of_five) (of_Z 0) (of_Z 150)
  = Ok (NdArray [1; 5]%nat [of_Z 0; of_Z 0; of_Z 0; of_Z 300; of_Z 300]).
Proof.
  change (of_Z 0) with (S754_zero false) at 1.
  rewrite (zero_window_is_a_threshold (astype_float row_of_five) false (of_Z 150)
             (of_Z 0) (of_Z 300) eq_refl eq_refl).
  reflexivity.
Defined.

Lemma windowed_levels_valid : Forall valid (data windowed_levels).
Proof. repeat constructor. Defined.

Lemma grey_output_spans_the_range_witness :
  exists out : ndarray Z,
    @_pixel_process plain_pydicom zero_platform windowed_a (astype_float row_of_five)
    = Ok out
    /\ shape out = shape windowed_levels
    /\ Forall2 (fun (x : float64) (q : Z) =>
                  (0 <= q <= 255)%Z
                  /\ (eqb x (of_Z 0) = true -> q = 0%Z)
                  /\ (eqb x (of_Z 300) = true -> q = 255%Z))
         (data windowed_levels) (data out).
Proof.
  eapply (@grey_output_spans_the_range plain_pydicom zero_platform windowed_a
            (astype_float row_of_five) (astype_float row_of_five) windowed_levels
            (of_Z 0) (of_Z 300)).
  - vm_compute. reflexivity.
  - vm_compute. reflexivity.
  - exact windowed_levels_valid.
  - reflexivity.
  - reflexivity.
  - vm_compute. reflexivity.
  - reflexivity.
Defined.

Lemma row_of_five_valid : Forall valid (data (astype_float row_of_five)).
Proof. repeat constructor. Defined.

Lemma inverted_output_spans_the_range_witness :
  exists out : ndarray Z,
    @_pixel_process plain_pydicom zero_platform xray_e (astype_float row_of_five)
    = Ok out
    /\ shape out = shape (astype_float row_of_five)
    /\ Forall2 (fun (x : float64) (q : Z) =>
                  (0 <= q <= 255)%Z
                  /\ (eqb x (of_Z 0) = true -> q = 255%Z)
                  /\ (eqb x (of_Z 300) = true -> q = 0%Z))
         (data (astype_float row_of_five)) (data out).
Proof.
  eapply (@inverted_output_spans_the_range plain_pydicom zero_platform xray_e
            (astype_float row_of_five) (astype_float row_of_five)
            (astype_float row_of_five) (of_Z 0) (of_Z 300)).
  - reflexivity.
  - reflexivity.
  - exact row_of_five_valid.
  - reflexivity.
  - reflexivity.
  - vm_compute. reflexivity.
  - reflexivity.
Defined.

Lemma output_follows_the_order_witness :
  exists g : float64 -> Z,
    @_pixel_process plain_pydicom zero_platform xray_e (astype_float row_of_five)
    = Ok (amap g (astype_float row_of_five))
    /\ forall x y : float64,
         In x (data (astype_float row_of_five)) ->
         In y (data (astype_float row_of_five)) -> fle x y ->
         if attr_is (PhotometricInterpretation xray_e) "MONOCHROME1"
         then (g y <= g x)%Z
         else (g x <= g y)%Z.
Proof.
  eapply (@output_follows_the_order plain_pydicom zero_platform xray_e
            (astype_float row_of_five) (astype_float row_of_five)
            (astype_float row_of_five) (of_Z 0) (of_Z 300)).
  - reflexivity.
  - reflexivity.
  - exact row_of_five_valid.
  - reflexivity.
  - reflexivity.
  - vm_compute. reflexivity.
Defined.

Lemma identity_rescale_changes_nothing_witness :
  @modality_step plain_pydicom windowed_a (astype_float row_of_five)
  = Ok (astype_float row_of_five).
Proof.
  apply (@identity_rescale_changes_nothing plain_pydicom windowed_a row_of_five);
    reflexivity.
Defined.

Lemma swap_planes_twice_witness :
  exists b : ndarray Z,
    swap_planes_0_2 rgb_1x2 = Ok b
    /\ shape b = shape rgb_1x2
    /\ swap_planes_0_2 b = Ok rgb_1x2.
Proof.
  apply (swap_planes_twice rgb_1x2 1 2 3 []); [reflexivity | lia | reflexivity].
Defined.

Lemma export_path_tells_the_printed_numbers_witness :
  _get_export_file_path windowed_a file_a out_dir
  = _get_export_file_path padded_numbers file_d out_dir
  <-> series_part windowed_a = series_part padded_numbers
      /\ instance_part windowed_a = instance_part padded_numbers.
Proof.
  apply (export_path_tells_the_printed_numbers windowed_a padded_numbers
           file_a file_d out_dir); reflexivity.
Defined.

Lemma script_without_input_witness :
  @main disk_world plain_pydicom zero_platform empty_disk
  = @Build_Run disk_world (Ok false) empty_disk ["No DICOM files found!"%string].
Proof.
  apply (proj2 (@script_without_input disk_world plain_pydicom zero_platform empty_disk));
    reflexivity.
Defined.

Lemma swap_planes_rgb_witness :
  exists out : ndarray Z,
    swap_planes_0_2 rgb_1x2 = Ok out
    /\ shape out = shape rgb_1x2
    /\ List.length (data out) = List.length (data rgb_1x2)
    /\ forall p, (3 * p + 2 < List.length (data rgb_1x2))%nat ->
         nth (3 * p) (data out) 0%Z = nth (3 * p + 2) (data rgb_1x2) 0%Z
         /\ nth (3 * p + 1) (data out) 0%Z = nth (3 * p + 1) (data rgb_1x2) 0%Z
         /\ nth (3 * p + 2) (data out) 0%Z = nth (3 * p) (data rgb_1x2) 0%Z.
Proof. exact (@swap_planes_rgb rgb_1x2 1 2 eq_refl). Defined.
